(** * AWD-policy: water-balance suitability, biophysical constraints and
      fragmentation analysis

    A shallow embedding of the numerical core of the Python package
    ([src/water_balance], [src/biophysical_constraints], [src/spatial_analysis]
    and [src/utils.py]) together with the properties its specification states.

    Conventions of the embedding.
    - A finite [float] of the source is modelled by the rational it denotes;
      the order tests of the source ([<], [<=], [>=]) are then the order of
      [Q].  Arithmetic on floats is modelled by exact rational arithmetic;
      bounds and growth are stated with [<=], which rounding to nearest
      preserves.
    - A two-dimensional [numpy.ndarray] is its shape together with its
      indexing function; element-wise operators follow numpy's broadcasting
      rule and raise [ValueError] on incompatible shapes.
    - A Python exception is a constructor of [exn]; a function that may raise
      returns a [result].
    - [logger.warning] is modelled where a property depends on it, as a list
      of emitted records returned next to the value. *)

From Stdlib Require Import ZArith QArith Qminmax List Bool Lia Lqa String.
From Stdlib Require Import Permutation Sorted.
From Stdlib Require Import Ascii.
From Stdlib Require DecimalString OrderedTypeEx.
Import ListNotations.

Set Implicit Arguments.

(* ================================================================== *)
(** * Part I.  The embedding                                            *)
(* ================================================================== *)

(** ** Exceptions *)

Module Py.

Inductive exn : Type :=
| ValueError
| IndexError
| KeyError.

Inductive result (A : Type) : Type :=
| Ok (a : A)
| Raise (e : exn).

Arguments Ok {A} a.
Arguments Raise {A} e.

Definition bind {A B : Type} (m : result A) (k : A -> result B) : result B :=
  match m with
  | Ok a => k a
  | Raise e => Raise e
  end.

Definition raises {A : Type} (m : result A) : bool :=
  match m with
  | Ok _ => false
  | Raise _ => true
  end.

(** Order tests on rationals, as booleans. *)
Definition Qltb (x y : Q) : bool := negb (Qle_bool y x).
Definition Qleb (x y : Q) : bool := Qle_bool x y.
Definition Qgtb (x y : Q) : bool := Qltb y x.
Definition Qgeb (x y : Q) : bool := Qle_bool y x.

End Py.

Import Py.

Declare Scope py_scope.
Delimit Scope py_scope with py.
Notation "x <- m ;; k" := (Py.bind m (fun x => k))
  (at level 61, m at next level, right associativity) : py_scope.
Open Scope py_scope.

(** ** Two-dimensional numpy arrays *)

Module Np.

Record ndarray (A : Type) : Type := mkArr {
  nrows : nat;
  ncols : nat;
  item : nat -> nat -> A
}.

Definition shape {A} (a : ndarray A) : nat * nat := (nrows a, ncols a).

(** [a.size] *)
Definition size {A} (a : ndarray A) : nat := nrows a * ncols a.

Definition same_shape {A B} (a : ndarray A) (b : ndarray B) : bool :=
  (nrows a =? nrows b)%nat && (ncols a =? ncols b)%nat.

(** Build an array from its rows (used for concrete inputs). *)
Definition of_rows {A} (d : A) (r c : nat) (rows : list (list A)) : ndarray A :=
  mkArr r c (fun i j => nth j (nth i rows []) d).

(** [np.zeros_like(a, dtype=...)]: the shape of [a], every cell [z]. *)
Definition zeros_like {A B} (a : ndarray A) (z : B) : ndarray B :=
  mkArr (nrows a) (ncols a) (fun _ _ => z).

(** An operator between an array and a scalar ([a < 20], [a >= 2]). *)
Definition amap {A B} (f : A -> B) (a : ndarray A) : ndarray B :=
  mkArr (nrows a) (ncols a) (fun i j => f (item a i j)).

(** Broadcasting of one axis: equal lengths, or one of them is 1. *)
Definition broadcast_dim (m n : nat) : result nat :=
  if (m =? n)%nat then Ok m
  else if (m =? 1)%nat then Ok n
  else if (n =? 1)%nat then Ok m
  else Raise ValueError.

(** An axis of length 1 is read with stride 0. *)
Definition bidx (len i : nat) : nat := if (len =? 1)%nat then 0%nat else i.

Definition bitem {A} (a : ndarray A) (i j : nat) : A :=
  item a (bidx (nrows a) i) (bidx (ncols a) j).

(** A binary element-wise operator ([a & b], [a | b]). *)
Definition zip_with {A B C} (f : A -> B -> C) (a : ndarray A) (b : ndarray B)
  : result (ndarray C) :=
  r <- broadcast_dim (nrows a) (nrows b) ;;
  c <- broadcast_dim (ncols a) (ncols b) ;;
  Ok (mkArr r c (fun i j => f (bitem a i j) (bitem b i j))).

(** [a[mask] = v] with a boolean mask: the mask has the shape of [a]. *)
Definition setitem_mask {A} (a : ndarray A) (mask : ndarray bool) (v : A)
  : result (ndarray A) :=
  if same_shape a mask
  then Ok (mkArr (nrows a) (ncols a)
             (fun i j => if item mask i j then v else item a i j))
  else Raise IndexError.

(** [a.ravel()]: the cells in row-major order. *)
Definition ravel {A} (a : ndarray A) : list A :=
  flat_map (fun i => map (fun j => item a i j) (seq 0 (ncols a)))
           (seq 0 (nrows a)).

(** [i], [j] index a cell of [a]. *)
Definition inside {A} (a : ndarray A) (i j : nat) : Prop :=
  (i < nrows a)%nat /\ (j < ncols a)%nat.

End Np.

Import Np.

(** ** Reductions and selections on arrays and vectors *)

Module NpReduce.

(** [np.maximum(x, y)] on two finite values. *)
Definition np_maximum (x y : Q) : Q := if Qltb x y then y else x.

(** [sum(xs)] of a vector of finite values. *)
Definition qsum (xs : list Q) : Q := fold_left Qplus xs 0.

(** [np.max(xs)] on a non-empty vector whose first element is [x]. *)
Definition qmax (x : Q) (xs : list Q) : Q := fold_left np_maximum xs x.

(** [mask.sum()] and [mask.any()] of a boolean array. *)
Definition count_true_cells (mask : ndarray bool) : nat :=
  List.length (filter (fun b => b) (ravel mask)).

Definition any (mask : ndarray bool) : bool :=
  existsb (fun b => b) (ravel mask).

(** [a[mask]] with a boolean mask of the shape of [a]: the selected cells in
    row-major order; a mask of another shape raises [IndexError]. *)
Definition getitem_mask {A} (a : ndarray A) (mask : ndarray bool)
  : result (list A) :=
  if same_shape a mask
  then Ok (map (fun p => item a (fst p) (snd p))
             (filter (fun p => item mask (fst p) (snd p))
                (list_prod (seq 0 (nrows a)) (seq 0 (ncols a)))))
  else Raise IndexError.

(** [100 * count / total] on integer counts; [None] stands for the
    non-finite float (nan or inf) that numpy returns on a zero total. *)
Definition percent_of (count total : nat) : option Q :=
  if (total =? 0)%nat then None
  else Some (100 * inject_Z (Z.of_nat count) / inject_Z (Z.of_nat total)).

(** The index pairs of an array in row-major order. *)
Definition cells_of {A} (a : ndarray A) : list (nat * nat) :=
  list_prod (seq 0 (nrows a)) (seq 0 (ncols a)).

End NpReduce.

Import NpReduce.

(** ** src/biophysical_constraints *)

Module BiophysicalConstraints.

(** [classify_drainage(clay_pct, sand_pct)]; the dictionary it returns has
    the two keys ['drainage_class'] and ['percolation_rate'], here the two
    components of a pair. *)
Definition classify_drainage (clay_pct sand_pct : ndarray Q)
  : result (ndarray Z * ndarray Q) :=
  let drainage_class := zeros_like clay_pct 0%Z in
  let percolation_mm_day := zeros_like clay_pct 0%Q in
  (* Well-drained: clay < 20%, sand > 60% *)
  well <- zip_with andb (amap (fun x => Qltb x 20) clay_pct)
                        (amap (fun x => Qgtb x 60) sand_pct) ;;
  drainage_class <- setitem_mask drainage_class well 1%Z ;;
  percolation_mm_day <- setitem_mask percolation_mm_day well 12%Q ;;
  (* Moderately drained *)
  mod_clay <- zip_with andb (amap (fun x => Qgeb x 20) clay_pct)
                            (amap (fun x => Qltb x 35) clay_pct) ;;
  mod_sand <- zip_with andb (amap (fun x => Qgeb x 30) sand_pct)
                            (amap (fun x => Qleb x 60) sand_pct) ;;
  mod_ <- zip_with orb mod_clay mod_sand ;;
  drainage_class <- setitem_mask drainage_class mod_ 2%Z ;;
  percolation_mm_day <- setitem_mask percolation_mm_day mod_ 8%Q ;;
  (* Imperfectly drained: clay 35-50% *)
  imperf <- zip_with andb (amap (fun x => Qgeb x 35) clay_pct)
                          (amap (fun x => Qltb x 50) clay_pct) ;;
  drainage_class <- setitem_mask drainage_class imperf 3%Z ;;
  percolation_mm_day <- setitem_mask percolation_mm_day imperf 4%Q ;;
  (* Poorly drained: clay >= 50% *)
  let poor := amap (fun x => Qgeb x 50) clay_pct in
  drainage_class <- setitem_mask drainage_class poor 4%Z ;;
  percolation_mm_day <- setitem_mask percolation_mm_day poor 3%Q ;;
  Ok (drainage_class, percolation_mm_day).

(** [compute_biophysical_suitability(slope_feasible, drainage_class,
    water_balance_suitability, drainage_threshold=3)] *)
Definition compute_biophysical_suitability
    (slope_feasible : ndarray bool) (drainage_class : ndarray Z)
    (water_balance_suitability : ndarray Z) (drainage_threshold : Z)
  : result (ndarray bool) :=
  sd <- zip_with andb slope_feasible
          (amap (fun d => (d <=? drainage_threshold)%Z) drainage_class) ;;
  feasible <- zip_with andb sd
          (amap (fun w => (w >=? 2)%Z) water_balance_suitability) ;;
  Ok feasible.

(** The four texture rules of [classify_drainage] on one cell. *)
Definition rule_well (clay sand : Q) : bool := Qltb clay 20 && Qgtb sand 60.
Definition rule_mod (clay sand : Q) : bool :=
  (Qgeb clay 20 && Qltb clay 35) || (Qgeb sand 30 && Qleb sand 60).
Definition rule_imperf (clay : Q) : bool := Qgeb clay 35 && Qltb clay 50.
Definition rule_poor (clay : Q) : bool := Qgeb clay 50.

(** The cascade as the specification words it: the first rule that matches
    decides, later rules only see cells that are still unclassified. *)
Definition first_match_class (clay sand : Q) : Z :=
  if rule_well clay sand then 1
  else if rule_mod clay sand then 2
  else if rule_imperf clay then 3
  else if rule_poor clay then 4
  else 0.

(** The cascade as successive overwrites: the last rule that matches
    decides. *)
Definition last_match_class (clay sand : Q) : Z :=
  if rule_poor clay then 4
  else if rule_imperf clay then 3
  else if rule_mod clay sand then 2
  else if rule_well clay sand then 1
  else 0.

(** Percolation rate (mm/day) written next to each class. *)
Definition rate_of_class (c : Z) : Q :=
  if (c =? 1)%Z then 12
  else if (c =? 2)%Z then 8
  else if (c =? 3)%Z then 4
  else if (c =? 4)%Z then 3
  else 0.

(** What [classify_drainage] writes in one cell, rule after rule. *)
Definition class_cell (clay sand : Q) : Z :=
  let c := 0%Z in
  let c := if rule_well clay sand then 1%Z else c in
  let c := if rule_mod clay sand then 2%Z else c in
  let c := if rule_imperf clay then 3%Z else c in
  if rule_poor clay then 4%Z else c.

Definition rate_cell (clay sand : Q) : Q :=
  let p := 0 in
  let p := if rule_well clay sand then 12 else p in
  let p := if rule_mod clay sand then 8 else p in
  let p := if rule_imperf clay then 4 else p in
  if rule_poor clay then 3 else p.

(** Lengths along one axis are compatible when any two of them are equal
    or one of the two is 1. *)
Definition axis_compatible (lens : list nat) : Prop :=
  forall m n, In m lens -> In n lens -> m = n \/ m = 1%nat \/ n = 1%nat.

Definition shapes_broadcastable {A B C}
    (a : ndarray A) (b : ndarray B) (c : ndarray C) : Prop :=
  axis_compatible [nrows a; nrows b; nrows c]
  /\ axis_compatible [ncols a; ncols b; ncols c].

(** [analyze_constraint_importance(slope_feasible, drainage_feasible,
    water_balance_feasible, water_balance_suitability)]: the two columns
    ["Constraint"] and ["Feasible (%)"] of the frame, row by row.  The last
    argument is not read by the function. *)
Definition analyze_constraint_importance
    (slope_feasible drainage_feasible water_balance_feasible : ndarray bool)
    (water_balance_suitability : ndarray Z)
  : result (list (string * option Q)) :=
  let total_pixels := size slope_feasible in
  sd <- zip_with andb slope_feasible drainage_feasible ;;
  sw <- zip_with andb slope_feasible water_balance_feasible ;;
  dw <- zip_with andb drainage_feasible water_balance_feasible ;;
  sdw <- zip_with andb sd water_balance_feasible ;;
  Ok [("Slope only"%string,
         percent_of (count_true_cells slope_feasible) total_pixels);
      ("Drainage only"%string,
         percent_of (count_true_cells drainage_feasible) total_pixels);
      ("Water balance only"%string,
         percent_of (count_true_cells water_balance_feasible) total_pixels);
      ("Slope + Drainage"%string,
         percent_of (count_true_cells sd) total_pixels);
      ("Slope + Water balance"%string,
         percent_of (count_true_cells sw) total_pixels);
      ("Drainage + Water balance"%string,
         percent_of (count_true_cells dw) total_pixels);
      ("All three"%string,
         percent_of (count_true_cells sdw) total_pixels)].

End BiophysicalConstraints.

(** ** src/water_balance *)

Module WaterBalance.

(** Records passed to the module's logger. *)
Inductive log_record : Type :=
| Warning (msg : string).

(** [compute_water_balance_dekad(rainfall_mm, pet_mm, percolation_mm)] *)
Definition compute_water_balance_dekad (rainfall_mm pet_mm percolation_mm : Q) : Q :=
  rainfall_mm - (pet_mm + percolation_mm).

(** [assess_awd_suitability_dekad(water_balance_mm, deficit_threshold_mm)] *)
Definition assess_awd_suitability_dekad
    (water_balance_mm deficit_threshold_mm : Q) : bool :=
  Qltb water_balance_mm 0 && Qgeb water_balance_mm deficit_threshold_mm.

(** Python's [a[start:stop]]: a negative bound counts from the end, and
    both bounds are clipped to the sequence. *)
Definition slice_bound (len i : Z) : Z :=
  if (i <? 0)%Z then Z.max 0 (i + len) else Z.min i len.

Definition slice {A} (a : list A) (start stop : Z) : list A :=
  let len := Z.of_nat (List.length a) in
  let lo := slice_bound len start in
  let hi := slice_bound len stop in
  firstn (Z.to_nat (hi - lo)) (skipn (Z.to_nat lo) a).

(** [np.sum] of a boolean vector: the number of [true]. *)
Definition count_true (bs : list bool) : Z :=
  Z.of_nat (List.length (filter (fun b => b) bs)).

(** [compute_awd_suitability_index(water_balance_series, season_start_dekad,
    season_end_dekad, exclude_first, exclude_last, deficit_threshold_mm)].
    The value is [(fraction_suitable, num_suitable, num_total)]; the second
    component of the model is what was sent to [logger.warning]. *)
Definition compute_awd_suitability_index
    (water_balance_series : list Q)
    (season_start_dekad season_end_dekad exclude_first exclude_last : Z)
    (deficit_threshold_mm : Q) : (Q * Z * Z) * list log_record :=
  let active_start := (season_start_dekad + exclude_first)%Z in
  let active_end := (season_end_dekad - exclude_last)%Z in
  if (active_start >=? active_end)%Z then
    ((0, 0%Z, 0%Z), [Warning "Active season window too small after exclusions"])
  else
    let active_dekads := slice water_balance_series active_start (active_end + 1) in
    let suitable :=
      map (fun wb => assess_awd_suitability_dekad wb deficit_threshold_mm)
          active_dekads in
    let num_suitable := count_true suitable in
    let num_total := Z.of_nat (List.length active_dekads) in
    let fraction_suitable :=
      if (num_total >? 0)%Z then inject_Z num_suitable / inject_Z num_total
      else 0 in
    ((fraction_suitable, num_suitable, num_total), []).

Definition fraction_of (r : (Q * Z * Z) * list log_record) : Q := fst (fst (fst r)).
Definition num_suitable_of (r : (Q * Z * Z) * list log_record) : Z := snd (fst (fst r)).
Definition num_total_of (r : (Q * Z * Z) * list log_record) : Z := snd (fst r).

(** Defaults of the keyword arguments. *)
Definition default_exclude_first : Z := 2.
Definition default_exclude_last : Z := 1.
Definition default_high_threshold : Q := 66 # 100.
Definition default_moderate_threshold : Q := 33 # 100.

(** [classify_suitability_from_fraction(fraction_suitable, high_threshold,
    moderate_threshold)] *)
Definition classify_suitability_from_fraction
    (fraction_suitable high_threshold moderate_threshold : Q) : Z :=
  if Qgeb fraction_suitable high_threshold then 3
  else if Qgeb fraction_suitable moderate_threshold then 2
  else 1.

(** [apply_minimum_irrigation(rainfall_dekad, threshold_mm=5.0)] *)
Definition apply_minimum_irrigation (rainfall_dekad : list Q) (threshold_mm : Q)
  : list Q :=
  map (fun r => np_maximum r threshold_mm) rainfall_dekad.

Definition default_irrigation_threshold_mm : Q := 5.

(** The calendar fields of a [datetime]. *)
Record datetime : Type := mkDate {
  year : nat;
  month : nat;
  day : nat
}.

(** [str(n)] and zero padding to a width, as [strftime] pads ['%Y'] to four
    digits and ['%m'] to two. *)
Definition str_nat (n : nat) : string :=
  DecimalString.NilEmpty.string_of_uint (Nat.to_uint n).

Fixpoint zeros (n : nat) : string :=
  match n with
  | O => EmptyString
  | S n' => String "0"%char (zeros n')
  end.

Definition zfill (width : nat) (s : string) : string :=
  (zeros (width - String.length s) ++ s)%string.

(** [date.strftime('%Y-%m')] *)
Definition strftime_Y_m (d : datetime) : string :=
  (zfill 4 (str_nat (year d)) ++ "-" ++ zfill 2 (str_nat (month d)))%string.

(** [((day_in_month - 1) // 10) + 1] *)
Definition dekad_id (day_in_month : nat) : nat := ((day_in_month - 1) / 10 + 1)%nat.

(** The column ['dekad_period']: ['YYYY-MM-Dk']. *)
Definition dekad_period (d : datetime) : string :=
  (strftime_Y_m d ++ "-D" ++ str_nat (dekad_id (day d)))%string.

(** [df.groupby('dekad_period')]: the groups come sorted by key; each group
    keeps the date of its first row ([.first()]) and the running sum of its
    rainfall ([.sum()]). *)
Fixpoint group_add (key : string) (d : datetime) (v : Q)
    (groups : list (string * (datetime * Q))) : list (string * (datetime * Q)) :=
  match groups with
  | [] => [(key, (d, v))]
  | (key', (d', total)) :: rest =>
      match String.compare key key' with
      | Eq => (key', (d', total + v)) :: rest
      | Lt => (key, (d, v)) :: groups
      | Gt => (key', (d', total)) :: group_add key d v rest
      end
  end.

Definition groupby_dekad_period (rows : list (datetime * Q))
  : list (string * (datetime * Q)) :=
  fold_left (fun groups row => group_add (dekad_period (fst row)) (fst row) (snd row) groups)
            rows [].

(** [aggregate_rainfall_to_dekads(dates, rainfall_daily)]; building the frame
    from two columns of different lengths raises [ValueError]. *)
Definition aggregate_rainfall_to_dekads
    (dates : list datetime) (rainfall_daily : list Q)
  : result (list datetime * list Q) :=
  if (List.length dates =? List.length rainfall_daily)%nat then
    let groups := groupby_dekad_period (combine dates rainfall_daily) in
    let dekad_rainfall := map (fun g => snd (snd g)) groups in
    let dekad_dates := map (fun g => fst (snd g)) groups in
    Ok (dekad_dates, dekad_rainfall)
  else Raise ValueError.

(** One row of the frame built by [analyze_threshold_sensitivity]. *)
Record sensitivity_row : Type := mkSens {
  threshold_mm : Q;
  fraction_suitable : Q;
  suitability_class : Z;
  num_suitable_dekads : Z;
  num_total_dekads : Z;
  percentage_suitable : Q
}.

(** [analyze_threshold_sensitivity(water_balance_series, season_start_dekad,
    season_end_dekad, thresholds)]: the rows in the order of [thresholds],
    and what the calls sent to [logger.warning]. *)
Fixpoint analyze_threshold_sensitivity
    (water_balance_series : list Q) (season_start_dekad season_end_dekad : Z)
    (thresholds : list Q) : list sensitivity_row * list log_record :=
  match thresholds with
  | [] => ([], [])
  | threshold :: thresholds' =>
      let r := compute_awd_suitability_index water_balance_series
                 season_start_dekad season_end_dekad
                 default_exclude_first default_exclude_last threshold in
      let fraction := fraction_of r in
      let suitability_class :=
        classify_suitability_from_fraction fraction
          default_high_threshold default_moderate_threshold in
      let rest := analyze_threshold_sensitivity water_balance_series
                    season_start_dekad season_end_dekad thresholds' in
      (mkSens threshold fraction suitability_class
              (num_suitable_of r) (num_total_of r) (fraction * 100)
         :: fst rest,
       snd r ++ snd rest)
  end.

(** The row that [analyze_threshold_sensitivity] appends for one threshold. *)
Definition sensitivity_row_of
    (water_balance_series : list Q) (season_start_dekad season_end_dekad : Z)
    (threshold : Q) : sensitivity_row :=
  let r := compute_awd_suitability_index water_balance_series
             season_start_dekad season_end_dekad
             default_exclude_first default_exclude_last threshold in
  mkSens threshold (fraction_of r)
    (classify_suitability_from_fraction (fraction_of r)
       default_high_threshold default_moderate_threshold)
    (num_suitable_of r) (num_total_of r) (fraction_of r * 100).

(** The order of the group keys, and the rainfall of the rows of one
    period. *)
Definition period_lt (k1 k2 : string) : Prop := String.compare k1 k2 = Lt.

Definition period_total (rows : list (datetime * Q)) (key : string) : Q :=
  qsum (map snd (filter (fun row => String.eqb (dekad_period (fst row)) key) rows)).

(** The rainfall values of the rows of one period, in the order of the
    rows. *)
Definition period_rainfall (rows : list (datetime * Q)) (key : string) : list Q :=
  map snd (filter (fun row => String.eqb (dekad_period (fst row)) key) rows).

(** Groups built from the rows read so far: the keys are strictly
    increasing, each group carries a date of its period taken from the rows
    and the rainfall of that period, and every row has its group. *)
Definition groups_of_rows (groups : list (string * (datetime * Q)))
    (rows : list (datetime * Q)) : Prop :=
  StronglySorted period_lt (map fst groups)
  /\ (forall key d total, In (key, (d, total)) groups ->
        dekad_period d = key /\ In d (map fst rows)
        /\ total == period_total rows key)
  /\ (forall row, In row rows -> In (dekad_period (fst row)) (map fst groups)).

End WaterBalance.

(** ** src/utils.py *)

Module Utils.

(** [d[key]] on a dictionary with string keys. *)
Fixpoint getitem (d : list (string * Q)) (key : string) : result Q :=
  match d with
  | [] => Raise KeyError
  | (k, v) :: d' => if String.eqb k key then Ok v else getitem d' key
  end.

Definition default_thresholds : list (string * Q) :=
  [("high"%string, 66 # 100); ("moderate"%string, 33 # 100)].

(** [classify_awd_suitability(fraction_suitable, thresholds=None)] *)
Definition classify_awd_suitability
    (fraction_suitable : Q) (thresholds : option (list (string * Q)))
  : result Z :=
  if negb (Qleb 0 fraction_suitable && Qleb fraction_suitable 1) then
    Raise ValueError
  else
    let thresholds :=
      match thresholds with
      | None => default_thresholds
      | Some t => t
      end in
    high <- getitem thresholds "high" ;;
    if Qgeb fraction_suitable high then Ok 3%Z
    else
      moderate <- getitem thresholds "moderate" ;;
      if Qgeb fraction_suitable moderate then Ok 2%Z
      else Ok 1%Z.

(** [validate_bounding_box(bbox)] on a list of coordinates. *)
Definition validate_bounding_box (bbox : list Q) : bool :=
  match bbox with
  | [min_lon; min_lat; max_lon; max_lat] =>
      if negb (Qleb (-180) min_lon && Qleb min_lon 180
               && (Qleb (-180) max_lon && Qleb max_lon 180)) then false
      else if negb (Qleb (-90) min_lat && Qleb min_lat 90
                    && (Qleb (-90) max_lat && Qleb max_lat 90)) then false
      else if Qgeb min_lon max_lon then false
      else if Qgeb min_lat max_lat then false
      else true
  | _ => false
  end.

(** [convert_percolation_to_dekad(percolation_mm_day, days=10)] *)
Definition convert_percolation_to_dekad (percolation_mm_day : Q) (days : Z) : Q :=
  percolation_mm_day * inject_Z days.

(** [classify_soil_texture(clay_pct, sand_pct)] *)
Definition classify_soil_texture (clay_pct sand_pct : Q) : Z :=
  if Qgeb clay_pct 45 then 1
  else if (Qleb 20 clay_pct && Qltb clay_pct 45) && Qleb sand_pct 52 then 2
  else if (Qleb 20 clay_pct && Qltb clay_pct 35) && Qgtb sand_pct 52 then 3
  else 4.

(** [compute_dekad_for_doy(day_of_year)] *)
Definition compute_dekad_for_doy (day_of_year : Z) : result Z :=
  if negb ((1 <=? day_of_year)%Z && (day_of_year <=? 366)%Z) then
    Raise ValueError
  else Ok ((day_of_year - 1) / 10 + 1)%Z.

(** [compute_fragmentation_index(patches)] on a list of
    (area, connectivity) pairs. *)
Definition compute_fragmentation_index (patches : list (Q * Q)) : Q :=
  match map fst patches with
  | [] => 0
  | area :: areas' =>
      let areas := area :: areas' in
      let mean_area := qsum areas / inject_Z (Z.of_nat (List.length areas)) in
      let max_area := qmax area areas' in
      if Qeq_bool max_area 0 then 0
      else mean_area / max_area
  end.

End Utils.

(** ** src/spatial_analysis *)

Module SpatialAnalysis.

Definition Qnat (n : nat) : Q := inject_Z (Z.of_nat n).

(** The dictionary returned by [compute_fragmentation_index]. *)
Record fragmentation : Type := mkFrag {
  n_patches : nat;
  mean_patch_size : Q;
  max_patch_size : nat;
  min_patch_size : nat;
  fragmentation_index : Q;
  total_suitable_cells : nat
}.

(** One row of the table built by [identify_suitability_clusters]. *)
Record cluster_row : Type := mkRow {
  cluster_id : nat;
  size_pixels : nat;
  min_row : nat;
  max_row : nat;
  min_col : nat;
  max_col : nat;
  extent_rows : nat;
  extent_cols : nat
}.

(** [np.bincount(xs)]: for each value [0 .. max xs] its number of
    occurrences; empty on an empty input. *)
Definition bincount (xs : list nat) : list nat :=
  match xs with
  | [] => []
  | _ => map (count_occ Nat.eq_dec xs) (seq 0 (S (list_max xs)))
  end.

(** [xs.mean()], [xs.max()], [xs.min()] on a non-empty vector; the reductions
    [max] and [min] raise [ValueError] on an empty one. *)
Definition mean (xs : list nat) : Q := Qnat (list_sum xs) / Qnat (List.length xs).

Definition amax (xs : list nat) : result nat :=
  match xs with
  | [] => Raise ValueError
  | x :: xs' => Ok (fold_left Nat.max xs' x)
  end.

Definition amin (xs : list nat) : result nat :=
  match xs with
  | [] => Raise ValueError
  | x :: xs' => Ok (fold_left Nat.min xs' x)
  end.

(** [mask.sum()] of a boolean array. *)
Definition asum (mask : ndarray bool) : nat :=
  List.length (filter (fun b => b) (ravel mask)).

(** [np.where(mask)]: row indices and column indices of the true cells, in
    row-major order. *)
Definition where_ (mask : ndarray bool) : list nat * list nat :=
  let cells :=
    filter (fun p => item mask (fst p) (snd p))
           (list_prod (seq 0 (nrows mask)) (seq 0 (ncols mask))) in
  (map fst cells, map snd cells).

(** [estimate_extension_cost(fragmentation_index, total_suitable_area_km2,
    base_cost_per_km2)] *)
Definition estimate_extension_cost
    (fragmentation_index total_suitable_area_km2 base_cost_per_km2 : Q) : Q :=
  let cost_multiplier := 1 + (38 # 10) * fragmentation_index in
  let total_cost := total_suitable_area_km2 * base_cost_per_km2 * cost_multiplier in
  total_cost.

(** [pd.DataFrame(results).sort_values("size_pixels", ascending=False)].
    A frame built from an empty list has no column, and sorting it by
    ["size_pixels"] raises [KeyError].  pandas leaves the order of rows of
    equal size open; the model keeps them in their order of insertion. *)
Fixpoint insert_desc (r : cluster_row) (rows : list cluster_row) : list cluster_row :=
  match rows with
  | [] => [r]
  | r' :: rows' =>
      if (size_pixels r' <=? size_pixels r)%nat then r :: r' :: rows'
      else r' :: insert_desc r rows'
  end.

Definition sort_desc (rows : list cluster_row) : list cluster_row :=
  fold_right insert_desc [] rows.

Definition sort_values_size_pixels (rows : list cluster_row)
  : result (list cluster_row) :=
  match rows with
  | [] => Raise KeyError
  | _ => Ok (sort_desc rows)
  end.

Section WithLabel.

(** [scipy.ndimage.label] is library code: the functions below take it
    as a parameter.  It returns the labelled array and the number of
    components found. *)
Variable label : ndarray bool -> ndarray nat * nat.

(** [compute_fragmentation_index(suitability_map)] *)
Definition compute_fragmentation_index (suitability_map : ndarray bool)
  : result fragmentation :=
  let '(labeled_array, n_patches) := label suitability_map in
  if (n_patches =? 0)%nat then Ok (mkFrag 0 0 0 0 0 0)
  else
    (* Exclude background *)
    let patch_sizes := tl (bincount (ravel labeled_array)) in
    let mean_size := mean patch_sizes in
    max_size <- amax patch_sizes ;;
    min_size <- amin patch_sizes ;;
    let fragmentation_index :=
      if (0 <? max_size)%nat then mean_size / Qnat max_size else 0 in
    Ok (mkFrag n_patches mean_size max_size min_size fragmentation_index
               (list_sum patch_sizes)).

(** The body of the loop of [identify_suitability_clusters] for one
    [cluster_id]: [None] stands for [continue]. *)
Definition cluster_row_of (labeled_array : ndarray nat)
    (min_cluster_size : Z) (cluster_id : nat) : result (option cluster_row) :=
  let cluster_mask := amap (fun l => (l =? cluster_id)%nat) labeled_array in
  let cluster_size := asum cluster_mask in
  if (Z.of_nat cluster_size <? min_cluster_size)%Z then Ok None
  else
    let positions := where_ cluster_mask in
    min_row <- amin (fst positions) ;;
    max_row <- amax (fst positions) ;;
    min_col <- amin (snd positions) ;;
    max_col <- amax (snd positions) ;;
    Ok (Some (mkRow cluster_id cluster_size min_row max_row min_col max_col
                    (max_row - min_row) (max_col - min_col))).

Fixpoint collect_rows (labeled_array : ndarray nat) (min_cluster_size : Z)
    (ids : list nat) : result (list cluster_row) :=
  match ids with
  | [] => Ok []
  | cluster_id :: ids' =>
      r <- cluster_row_of labeled_array min_cluster_size cluster_id ;;
      rest <- collect_rows labeled_array min_cluster_size ids' ;;
      Ok (match r with
          | Some row => row :: rest
          | None => rest
          end)
  end.

(** [identify_suitability_clusters(suitability_map, min_cluster_size)] *)
Definition identify_suitability_clusters
    (suitability_map : ndarray bool) (min_cluster_size : Z)
  : result (list cluster_row) :=
  let '(labeled_array, n_clusters) := label suitability_map in
  results <- collect_rows labeled_array min_cluster_size (seq 1 n_clusters) ;;
  sort_values_size_pixels results.

End WithLabel.

(** What the callers rely on from [scipy.ndimage.label]: the labelled array
    has the shape of the map, background cells and only they carry 0, no
    label exceeds the count, and every label [1 .. n] marks some cell. *)
Definition labelling_ok (suitability_map : ndarray bool)
    (out : ndarray nat * nat) : bool :=
  let '(labeled_array, n) := out in
  same_shape suitability_map labeled_array
  && forallb (fun p => Bool.eqb (item suitability_map (fst p) (snd p))
                                (negb (item labeled_array (fst p) (snd p) =? 0)%nat))
             (list_prod (seq 0 (nrows labeled_array)) (seq 0 (ncols labeled_array)))
  && forallb (fun l => (l <=? n)%nat) (ravel labeled_array)
  && forallb (fun k => existsb (Nat.eqb k) (ravel labeled_array)) (seq 1 n).

(** A reference labelling with 4-connectivity (the default structuring
    element of [scipy.ndimage.label] in two dimensions): cells are visited
    in row-major order and each unlabelled true cell starts the flood fill
    of a new component.  It is used to run the functions above on concrete
    maps. *)
Fixpoint flood (fuel : nat) (g : ndarray bool) (lab : nat -> nat -> nat)
    (k : nat) (todo : list (nat * nat)) : nat -> nat -> nat :=
  match fuel with
  | O => lab
  | S fuel' =>
      match todo with
      | [] => lab
      | (i, j) :: rest =>
          if (i <? nrows g)%nat && (j <? ncols g)%nat && item g i j
             && (lab i j =? 0)%nat
          then flood fuel' g
                 (fun a b => if (a =? i)%nat && (b =? j)%nat then k else lab a b)
                 k
                 ((S i, j) :: (i, S j) :: (pred i, j) :: (i, pred j) :: rest)
          else flood fuel' g lab k rest
      end
  end.

Definition label4 (g : ndarray bool) : ndarray nat * nat :=
  let fuel := S (5 * size g) in
  let start (st : (nat -> nat -> nat) * nat) (p : nat * nat) :=
    let '(lab, n) := st in
    if item g (fst p) (snd p) && (lab (fst p) (snd p) =? 0)%nat
    then (flood fuel g lab (S n) [p], S n)
    else st in
  let '(lab, n) :=
    fold_left start (list_prod (seq 0 (nrows g)) (seq 0 (ncols g)))
              (fun _ _ => 0%nat, 0%nat) in
  (mkArr (nrows g) (ncols g) lab, n).

(** The vector [patch_sizes] of [compute_fragmentation_index]. *)
Definition patch_sizes_of (labeled_array : ndarray nat) : list nat :=
  tl (bincount (ravel labeled_array)).

(** Number of cells carrying the label [k]. *)
Definition cluster_size (labeled_array : ndarray nat) (k : nat) : nat :=
  asum (amap (fun l => (l =? k)%nat) labeled_array).

(** A cluster is kept when its size is not below the minimum. *)
Definition kept (labeled_array : ndarray nat) (min_cluster_size : Z) (k : nat) : bool :=
  negb (Z.of_nat (cluster_size labeled_array k) <? min_cluster_size)%Z.

(** Rows in descending order of size. *)
Definition desc (r1 r2 : cluster_row) : Prop :=
  (size_pixels r2 <= size_pixels r1)%nat.

(** One row of the frame built by [compute_regional_statistics]. *)
Record region_row : Type := mkRegion {
  region_id : Z;
  region_name : string;
  total_pixels : nat;
  suitable_pixels : nat;
  suitability_pct : Q
}.

(** [compute_regional_statistics(suitability_map, region_map, regions)];
    [regions] lists the items of the dictionary in its order. *)
Fixpoint compute_regional_statistics
    (suitability_map region_map : ndarray Z) (regions : list (Z * string))
  : result (list region_row) :=
  match regions with
  | [] => Ok []
  | (region_id, region_name) :: regions' =>
      let mask := amap (fun r => (r =? region_id)%Z) region_map in
      if negb (any mask) then
        compute_regional_statistics suitability_map region_map regions'
      else
        let n_pixels := count_true_cells mask in
        selected <- getitem_mask suitability_map mask ;;
        let n_suitable :=
          List.length (filter (fun v => (v >? 0)%Z) selected) in
        let pct_suitable :=
          if (0 <? n_pixels)%nat then 100 * Qnat n_suitable / Qnat n_pixels
          else 0 in
        rest <- compute_regional_statistics suitability_map region_map regions' ;;
        Ok (mkRegion region_id region_name n_pixels n_suitable pct_suitable
              :: rest)
  end.

(** The dictionary returned by [compare_fragmentation]. *)
Record comparison : Type := mkCompare {
  vietnam_fragmentation_index : Q;
  japan_fragmentation_index : Q;
  fragmentation_ratio : Q;
  vietnam_n_patches : nat;
  japan_n_patches : nat;
  patch_ratio : Q
}.

(** [compare_fragmentation(vietnam_map, japan_map)] *)
Definition compare_fragmentation
    (label : ndarray bool -> ndarray nat * nat)
    (vietnam_map japan_map : ndarray bool) : result comparison :=
  vietnam_frag <- compute_fragmentation_index label vietnam_map ;;
  japan_frag <- compute_fragmentation_index label japan_map ;;
  Ok (mkCompare
        (fragmentation_index vietnam_frag)
        (fragmentation_index japan_frag)
        (if Qltb 0 (fragmentation_index vietnam_frag)
         then fragmentation_index japan_frag / fragmentation_index vietnam_frag
         else 0)
        (n_patches vietnam_frag)
        (n_patches japan_frag)
        (if (0 <? n_patches vietnam_frag)%nat
         then Qnat (n_patches japan_frag) / Qnat (n_patches vietnam_frag)
         else 0)).

(** A region is present when some cell of the region map carries its id. *)
Definition region_present (region_map : ndarray Z) (id : Z) : bool :=
  any (amap (fun r => (r =? id)%Z) region_map).

End SpatialAnalysis.

(** ** scripts/run_pipeline.py *)

Module Pipeline.

(** The configuration entries read by [AWDPipeline.validate_inputs]. *)
Record config : Type := mkConfig {
  bounding_box : list Q;
  season_start_dekad : Z;
  season_end_dekad : Z;
  deficit_thresholds : list Q;
  slope_threshold_deg : Q
}.

(** [AWDPipeline.validate_inputs(study_area)].  The call of
    [validate_bounding_box] sits in a [try] that only catches [ValueError];
    the value it returns is not read.  After the test on the thresholds the
    method logs [min(thresholds)] and [max(thresholds)], which raise
    [ValueError] on an empty list. *)
Definition validate_inputs (cfg : config) : result bool :=
  let _ := Utils.validate_bounding_box (bounding_box cfg) in
  let season_start := season_start_dekad cfg in
  let season_end := season_end_dekad cfg in
  if negb (((1 <=? season_start)%Z && (season_start <=? 36)%Z)
           && ((1 <=? season_end)%Z && (season_end <=? 36)%Z)) then Ok false
  else if (season_end <=? season_start)%Z then Ok false
  else if negb (forallb (fun t => Qltb t 0) (deficit_thresholds cfg))
  then Ok false
  else
    match deficit_thresholds cfg with
    | [] => Raise ValueError
    | _ :: _ =>
        if Qltb (slope_threshold_deg cfg) 0 || Qgtb (slope_threshold_deg cfg) 90
        then Ok false
        else Ok true
    end.

(** [AWDPipeline.analyze_threshold_sensitivity(water_balance_data)] on the
    column ['water_balance_mm'].  After the call of the core function the
    method logs [results['threshold_mm'].min()]; the frame built from an
    empty list of thresholds has no column and the access raises
    [KeyError]. *)
Definition analyze_threshold_sensitivity (cfg : config)
    (water_balance_mm : list Q)
  : result (list WaterBalance.sensitivity_row * list WaterBalance.log_record) :=
  let results :=
    WaterBalance.analyze_threshold_sensitivity water_balance_mm
      (season_start_dekad cfg) (season_end_dekad cfg) (deficit_thresholds cfg) in
  match fst results with
  | [] => Raise KeyError
  | _ :: _ => Ok results
  end.

End Pipeline.

(** ** Concrete inputs *)

Module Inputs.

(** Concrete soil grids: one row, two cells, percentages within 0-100. *)
Definition clay_1x2 : ndarray Q := of_rows 0 1 2 [[40; 10]].
Definition sand_1x2 : ndarray Q := of_rows 0 1 2 [[40; 20]].

(** Concrete grids: a 1x1 slope mask against 2x2 class grids. *)
Definition slope_1x1 : ndarray bool := of_rows false 1 1 [[true]].
Definition drainage_2x2 : ndarray Z := of_rows 0%Z 2 2 [[1; 4]; [3; 2]]%Z.
Definition wb_2x2 : ndarray Z := of_rows 0%Z 2 2 [[3; 3]; [1; 2]]%Z.
Definition slope_2x2 : ndarray bool :=
  of_rows false 2 2 [[true; true]; [false; true]].

(** A year that starts with three wet dekads followed by two dekads at
    -60 mm; the season covers dekads 1 to 5. *)
Definition series_60 : list Q := [10; 10; 10; -60; -60].

(** Two isolated cells of equal size, and a map with patches of sizes
    3, 2 and 1. *)
Definition map_two_cells : ndarray bool := of_rows false 1 3 [[true; false; true]].
Definition map_three_patches : ndarray bool :=
  of_rows false 3 4 [[true; true; false; true];
                     [false; true; false; true];
                     [true; false; false; false]].

(** A map without any suitable cell. *)
Definition map_all_false : ndarray bool :=
  of_rows false 2 2 [[false; false]; [false; false]].

(** Five days of May and June 2023, not in calendar order, and their
    rainfall. *)
Definition days_may_june : list WaterBalance.datetime :=
  [WaterBalance.mkDate 2023 6 1; WaterBalance.mkDate 2023 5 31;
   WaterBalance.mkDate 2023 5 30; WaterBalance.mkDate 2023 6 2;
   WaterBalance.mkDate 2023 5 1].
Definition rain_may_june : list Q := [1; 2; 3; 4; 5].

(** A configuration with the season 10 to 28 and an inverted bounding box,
    and a year of 36 dekads at -40 mm. *)
Definition config_10_28 : Pipeline.config :=
  Pipeline.mkConfig [110; 24; 102; 8] 10 28 [-25; -50; -70] 10.
Definition year_of_dekads : list Q := repeat (-40) 36.

(** Soil grids of shape 2x2. *)
Definition clay_2x2 : ndarray Q := of_rows 0 2 2 [[10; 25]; [40; 55]].
Definition sand_2x2 : ndarray Q := of_rows 0 2 2 [[70; 20]; [45; 10]].

(** Two more 2x2 masks. *)
Definition mask_2x2_a : ndarray bool :=
  of_rows false 2 2 [[true; false]; [true; true]].
Definition mask_2x2_b : ndarray bool :=
  of_rows false 2 2 [[true; true]; [false; false]].

(** The cluster table of [map_three_patches] for the minimum size 2. *)
Definition table_three_patches : list SpatialAnalysis.cluster_row :=
  [SpatialAnalysis.mkRow 1 3 0 1 0 1 1 1;
   SpatialAnalysis.mkRow 2 2 0 1 3 3 1 0].

(** A map with one L-shaped patch of four cells. *)
Definition map_one_patch : ndarray bool :=
  of_rows false 3 3 [[false; true; false];
                     [false; true; true];
                     [false; true; false]].

(** A 2x2 suitability map, its region map, and three named regions of
    which the second is absent from the map. *)
Definition suitability_2x2 : ndarray Z := of_rows 0%Z 2 2 [[1; 0]; [1; 1]]%Z.
Definition regions_2x2 : ndarray Z := of_rows 0%Z 2 2 [[5; 5]; [7; 5]]%Z.
Definition region_names : list (Z * string) :=
  [(7%Z, "Kanto"%string); (9%Z, "Tohoku"%string); (5%Z, "Kyushu"%string)].

End Inputs.

Import Inputs.

(* ================================================================== *)
(** * Part II.  Properties                                              *)
(* ================================================================== *)

(** ** Order tests and broadcasting *)

Module PyFacts.

Lemma Qltb_lt (x y : Q) : Qltb x y = true <-> x < y.
Proof.
  unfold Qltb. rewrite negb_true_iff. split.
  - intros H. apply Qnot_le_lt. intros Hle.
    apply Qle_bool_iff in Hle. congruence.
  - intros H. destruct (Qle_bool y x) eqn:E; [|reflexivity].
    apply Qle_bool_iff in E. exfalso. exact (Qlt_not_le _ _ H E).
Qed.

Lemma Qgeb_ge (x y : Q) : Qgeb x y = true <-> y <= x.
Proof. unfold Qgeb. apply Qle_bool_iff. Qed.

Lemma Qleb_le (x y : Q) : Qleb x y = true <-> x <= y.
Proof. unfold Qleb. apply Qle_bool_iff. Qed.

Lemma Qltb_false_ge (x y : Q) : Qltb x y = false <-> y <= x.
Proof.
  unfold Qltb. rewrite negb_false_iff. apply Qle_bool_iff.
Qed.

Lemma Qgeb_false_lt (x y : Q) : Qgeb x y = false <-> x < y.
Proof.
  rewrite <- Qltb_lt. unfold Qltb, Qgeb.
  destruct (Qle_bool y x); simpl; split; congruence.
Qed.

Lemma broadcast_dim_same (n : nat) : broadcast_dim n n = Ok n.
Proof. unfold broadcast_dim. now rewrite Nat.eqb_refl. Qed.

Lemma bidx_inside (len i : nat) : (i < len)%nat -> bidx len i = i.
Proof.
  unfold bidx. intros H. destruct (Nat.eqb_spec len 1); [lia | reflexivity].
Qed.

Lemma bitem_inside {A} (a : ndarray A) (i j : nat) :
  inside a i j -> bitem a i j = item a i j.
Proof.
  intros [Hi Hj]. unfold bitem. now rewrite !bidx_inside.
Qed.

Lemma same_shape_eq {A B} (a : ndarray A) (b : ndarray B) :
  same_shape a b = true <-> nrows a = nrows b /\ ncols a = ncols b.
Proof.
  unfold same_shape. rewrite andb_true_iff, !Nat.eqb_eq. tauto.
Qed.

(** On arrays of one shape an element-wise operator acts cell by cell. *)
Lemma zip_with_same_shape {A B C} (f : A -> B -> C)
    (a : ndarray A) (b : ndarray B) :
  same_shape a b = true ->
  exists c, zip_with f a b = Ok c
            /\ nrows c = nrows a /\ ncols c = ncols a
            /\ forall i j, inside a i j -> item c i j = f (item a i j) (item b i j).
Proof.
  intros H. apply same_shape_eq in H. destruct H as [Hr Hc].
  unfold zip_with. rewrite <- Hr, <- Hc, !broadcast_dim_same. simpl.
  eexists. split; [reflexivity|]. simpl. repeat split.
  intros i j Hin. rewrite (bitem_inside Hin).
  assert (Hb : inside b i j) by (destruct Hin; split; congruence).
  now rewrite (bitem_inside Hb).
Qed.

End PyFacts.

Import PyFacts.

(** ** Drainage classification and composite feasibility *)

Module BiophysicalProps.

Import BiophysicalConstraints.

(** On grids of one shape [classify_drainage] succeeds, and both outputs
    are computed cell by cell from the four masks. *)
Lemma classify_drainage_cells (clay_pct sand_pct : ndarray Q) :
  same_shape clay_pct sand_pct = true ->
  exists dc pr,
    classify_drainage clay_pct sand_pct = Ok (dc, pr)
    /\ shape dc = shape clay_pct /\ shape pr = shape clay_pct
    /\ forall i j, inside clay_pct i j ->
         item dc i j = class_cell (item clay_pct i j) (item sand_pct i j)
         /\ item pr i j = rate_cell (item clay_pct i j) (item sand_pct i j).
Proof.
  intros H. apply same_shape_eq in H.
  destruct clay_pct as [r c f], sand_pct as [r' c' g]. simpl in H.
  destruct H as [<- <-].
  unfold classify_drainage, zip_with, setitem_mask, same_shape, zeros_like, amap.
  cbn [nrows ncols item].
  repeat (first [rewrite Nat.eqb_refl | rewrite broadcast_dim_same];
          cbn [andb bind nrows ncols item]).
  do 2 eexists. split; [reflexivity|].
  split; [reflexivity|]. split; [reflexivity|].
  intros i j [Hi Hj]. cbn [nrows ncols item] in Hi, Hj |- *.
  unfold bitem. cbn [nrows ncols item].
  rewrite !(bidx_inside Hi), !(bidx_inside Hj).
  unfold class_cell, rate_cell, rule_well, rule_mod, rule_imperf, rule_poor.
  split; reflexivity.
Qed.

Lemma class_cell_last_match (clay sand : Q) :
  class_cell clay sand = last_match_class clay sand.
Proof.
  unfold class_cell, last_match_class.
  destruct (rule_poor clay), (rule_imperf clay), (rule_mod clay sand),
    (rule_well clay sand); reflexivity.
Qed.

Lemma rate_cell_of_class (clay sand : Q) :
  rate_cell clay sand = rate_of_class (class_cell clay sand).
Proof.
  unfold rate_cell, class_cell.
  destruct (rule_poor clay), (rule_imperf clay), (rule_mod clay sand),
    (rule_well clay sand); reflexivity.
Qed.

(** C1 (as stated, refuted).  On the grids clay = [[40, 10]] and
    sand = [[40, 20]], cell (0,0) matches the second and the third rule and
    [classify_drainage] gives it class 3 where the first-match cascade gives
    2; cell (0,1) matches no rule and keeps class 0, outside {1,2,3,4}. *)
Lemma classify_drainage_first_match_counterexample :
  same_shape clay_1x2 sand_1x2 = true
  /\ exists dc pr,
       classify_drainage clay_1x2 sand_1x2 = Ok (dc, pr)
       /\ item dc 0 0 = 3%Z
       /\ first_match_class (item clay_1x2 0 0) (item sand_1x2 0 0) = 2%Z
       /\ item dc 0 1 = 0%Z
       /\ ~ In (item dc 0 1) [1; 2; 3; 4]%Z.
Proof.
  split; [reflexivity|].
  do 2 eexists. split; [vm_compute; reflexivity|].
  cbn [item]. repeat split; try (vm_compute; reflexivity).
  vm_compute. intros [H|[H|[H|[H|[]]]]]; discriminate H.
Qed.

(** C1 (amended).  On grids of one shape [classify_drainage] succeeds and
    applies the four texture rules in order as successive overwrites: every
    cell matched by at least one rule gets exactly one class, in {1,2,3,4},
    the class of the last rule that matches it (clay >= 50 gives 4; otherwise
    clay in [35,50) gives 3; otherwise clay in [20,35) or sand in [30,60]
    gives 2; otherwise clay < 20 and sand > 60 gives 1). *)
Theorem classify_drainage_last_match (clay_pct sand_pct : ndarray Q) :
  same_shape clay_pct sand_pct = true ->
  exists dc pr,
    classify_drainage clay_pct sand_pct = Ok (dc, pr)
    /\ shape dc = shape clay_pct
    /\ forall i j, inside clay_pct i j ->
         let clay := item clay_pct i j in
         let sand := item sand_pct i j in
         rule_well clay sand || rule_mod clay sand
         || rule_imperf clay || rule_poor clay = true ->
         item dc i j = last_match_class clay sand
         /\ In (item dc i j) [1; 2; 3; 4]%Z.
Proof.
  intros H. destruct (classify_drainage_cells _ _ H)
    as (dc & pr & Hrun & Hdc & _ & Hcell).
  exists dc, pr. split; [exact Hrun|]. split; [exact Hdc|].
  intros i j Hin clay sand. destruct (Hcell i j Hin) as [Hc _].
  fold clay sand in Hc. rewrite Hc, class_cell_last_match.
  intros Hm. split; [reflexivity|]. revert Hm.
  unfold last_match_class.
  destruct (rule_poor clay), (rule_imperf clay), (rule_mod clay sand),
    (rule_well clay sand); simpl; intros Hm; try discriminate Hm; tauto.
Qed.

Lemma classify_drainage_last_match_witness :
  same_shape clay_1x2 sand_1x2 = true
  /\ exists dc pr,
       classify_drainage clay_1x2 sand_1x2 = Ok (dc, pr)
       /\ shape dc = shape clay_1x2
       /\ forall i j, inside clay_1x2 i j ->
            let clay := item clay_1x2 i j in
            let sand := item sand_1x2 i j in
            rule_well clay sand || rule_mod clay sand
            || rule_imperf clay || rule_poor clay = true ->
            item dc i j = last_match_class clay sand
            /\ In (item dc i j) [1; 2; 3; 4]%Z.
Proof.
  split; [reflexivity|].
  apply (classify_drainage_last_match clay_1x2 sand_1x2). reflexivity.
Defined.

(** C10.  On grids of one shape the two outputs of [classify_drainage]
    agree cell by cell: the class is one of 0,1,2,3,4 and the percolation
    rate is the rate of that class, 12 for class 1, 8 for class 2, 4 for
    class 3, 3 for class 4, and 0 for a cell left at class 0. *)
Theorem percolation_rate_of_drainage_class (clay_pct sand_pct : ndarray Q) :
  same_shape clay_pct sand_pct = true ->
  exists dc pr,
    classify_drainage clay_pct sand_pct = Ok (dc, pr)
    /\ shape dc = shape clay_pct /\ shape pr = shape clay_pct
    /\ (forall i j, inside clay_pct i j ->
          In (item dc i j) [0; 1; 2; 3; 4]%Z
          /\ item pr i j = rate_of_class (item dc i j))
    /\ rate_of_class 1 = 12 /\ rate_of_class 2 = 8 /\ rate_of_class 3 = 4
    /\ rate_of_class 4 = 3 /\ rate_of_class 0 = 0.
Proof.
  intros H. destruct (classify_drainage_cells _ _ H)
    as (dc & pr & Hrun & Hdc & Hpr & Hcell).
  exists dc, pr. repeat (split; [assumption || reflexivity|]).
  split; [|repeat split; reflexivity].
  intros i j Hin. destruct (Hcell i j Hin) as [Hc Hp].
  rewrite Hp, Hc, rate_cell_of_class. split; [|reflexivity].
  set (clay := item clay_pct i j). set (sand := item sand_pct i j).
  unfold class_cell.
  destruct (rule_poor clay), (rule_imperf clay), (rule_mod clay sand),
    (rule_well clay sand); simpl; tauto.
Qed.

Lemma percolation_rate_of_drainage_class_witness :
  same_shape clay_1x2 sand_1x2 = true
  /\ exists dc pr,
    classify_drainage clay_1x2 sand_1x2 = Ok (dc, pr)
    /\ shape dc = shape clay_1x2 /\ shape pr = shape clay_1x2
    /\ (forall i j, inside clay_1x2 i j ->
          In (item dc i j) [0; 1; 2; 3; 4]%Z
          /\ item pr i j = rate_of_class (item dc i j))
    /\ rate_of_class 1 = 12 /\ rate_of_class 2 = 8 /\ rate_of_class 3 = 4
    /\ rate_of_class 4 = 3 /\ rate_of_class 0 = 0.
Proof.
  split; [reflexivity|].
  apply (percolation_rate_of_drainage_class clay_1x2 sand_1x2). reflexivity.
Defined.

End BiophysicalProps.

Module CompositeProps.

Import BiophysicalConstraints.

Lemma broadcast_dim_ok (m n r : nat) :
  broadcast_dim m n = Ok r ->
  (m = n \/ m = 1 \/ n = 1)%nat
  /\ (forall i, bidx m (bidx r i) = bidx m i)
  /\ (forall i, bidx n (bidx r i) = bidx n i).
Proof.
  unfold broadcast_dim, bidx.
  destruct (Nat.eqb_spec m n) as [->|Hmn].
  - intros [= <-]. split; [auto|].
    split; intros i; destruct (Nat.eqb_spec n 1); reflexivity.
  - destruct (Nat.eqb_spec m 1) as [->|Hm].
    + intros [= <-]. split; [auto|]. simpl.
      split; intros i; destruct (Nat.eqb_spec n 1); reflexivity.
    + destruct (Nat.eqb_spec n 1) as [->|Hn]; [|discriminate].
      intros [= <-]. split; [auto|]. simpl.
      split; intros i; destruct (Nat.eqb_spec m 1); try reflexivity; lia.
Qed.

Lemma broadcast_dim_val (m n r : nat) :
  broadcast_dim m n = Ok r ->
  ((m = n /\ r = m) \/ (m = 1 /\ r = n) \/ (n = 1 /\ r = m))%nat.
Proof.
  unfold broadcast_dim.
  destruct (Nat.eqb_spec m n); [intros [= <-]; auto|].
  destruct (Nat.eqb_spec m 1); [intros [= <-]; auto|].
  destruct (Nat.eqb_spec n 1); [intros [= <-]; auto|discriminate].
Qed.

Lemma broadcast_dim_raise (m n : nat) (e : exn) :
  broadcast_dim m n = Raise e ->
  e = ValueError /\ m <> n /\ m <> 1%nat /\ n <> 1%nat.
Proof.
  unfold broadcast_dim.
  destruct (Nat.eqb_spec m n); [discriminate|].
  destruct (Nat.eqb_spec m 1); [discriminate|].
  destruct (Nat.eqb_spec n 1); [discriminate|].
  intros [= <-]. auto.
Qed.

Lemma zip_with_ok {A B C} (f : A -> B -> C)
    (a : ndarray A) (b : ndarray B) (c : ndarray C) :
  zip_with f a b = Ok c ->
  broadcast_dim (nrows a) (nrows b) = Ok (nrows c)
  /\ broadcast_dim (ncols a) (ncols b) = Ok (ncols c)
  /\ (forall i j, item c i j = f (bitem a i j) (bitem b i j))
  /\ (forall i j, bitem c i j = f (bitem a i j) (bitem b i j)).
Proof.
  unfold zip_with.
  destruct (broadcast_dim (nrows a) (nrows b)) as [r|] eqn:Er; [|discriminate].
  destruct (broadcast_dim (ncols a) (ncols b)) as [k|] eqn:Ek; [|discriminate].
  cbn [bind]. intros [= <-]. cbn [nrows ncols item].
  repeat split.
  intros i j. unfold bitem at 1. cbn [nrows ncols item]. unfold bitem.
  destruct (broadcast_dim_ok _ _ Er) as (_ & Ha & Hb).
  destruct (broadcast_dim_ok _ _ Ek) as (_ & Ha' & Hb').
  now rewrite Ha, Hb, Ha', Hb'.
Qed.

Lemma zip_with_raise {A B C} (f : A -> B -> C)
    (a : ndarray A) (b : ndarray B) (e : exn) :
  zip_with f a b = Raise e ->
  e = ValueError
  /\ ((nrows a <> nrows b /\ nrows a <> 1%nat /\ nrows b <> 1%nat)
      \/ (ncols a <> ncols b /\ ncols a <> 1%nat /\ ncols b <> 1%nat)).
Proof.
  unfold zip_with.
  destruct (broadcast_dim (nrows a) (nrows b)) as [r|e1] eqn:Er.
  - destruct (broadcast_dim (ncols a) (ncols b)) as [k|e2] eqn:Ek;
      [discriminate|].
    cbn [bind]. intros [= <-]. apply broadcast_dim_raise in Ek. tauto.
  - cbn [bind]. intros [= <-]. apply broadcast_dim_raise in Er. tauto.
Qed.

(** C2.  On three grids of one shape [compute_biophysical_suitability]
    returns a grid of that shape whose cell (i,j) is true exactly when the
    slope cell is true, the drainage class is at most the threshold and the
    water-balance class is at least 2. *)
Theorem composite_is_cellwise_and
    (slope_feasible : ndarray bool) (drainage_class : ndarray Z)
    (water_balance_suitability : ndarray Z) (drainage_threshold : Z) :
  same_shape slope_feasible drainage_class = true ->
  same_shape slope_feasible water_balance_suitability = true ->
  exists composite,
    compute_biophysical_suitability slope_feasible drainage_class
      water_balance_suitability drainage_threshold = Ok composite
    /\ shape composite = shape slope_feasible
    /\ forall i j, inside slope_feasible i j ->
         (item composite i j = true <->
          item slope_feasible i j = true
          /\ (item drainage_class i j <= drainage_threshold)%Z
          /\ (item water_balance_suitability i j >= 2)%Z).
Proof.
  intros Hd Hw. unfold compute_biophysical_suitability.
  destruct (zip_with_same_shape andb slope_feasible
              (amap (fun d => (d <=? drainage_threshold)%Z) drainage_class) Hd)
    as (sd & -> & Hr & Hc & Hsd).
  cbn [bind].
  assert (Hw' : same_shape sd
                  (amap (fun w => (w >=? 2)%Z) water_balance_suitability) = true).
  { apply same_shape_eq in Hw. apply same_shape_eq. cbn [amap nrows ncols].
    destruct Hw. split; congruence. }
  destruct (zip_with_same_shape andb sd _ Hw') as (f & -> & Hr' & Hc' & Hf).
  cbn [bind]. exists f. split; [reflexivity|].
  split; [unfold shape; congruence|].
  intros i j Hin.
  assert (Hin' : inside sd i j) by (destruct Hin; split; congruence).
  rewrite (Hf i j Hin'), (Hsd i j Hin). cbn [amap item].
  rewrite !andb_true_iff, Z.leb_le, Z.geb_le. intuition lia.
Qed.

Lemma composite_is_cellwise_and_witness :
  exists composite,
    compute_biophysical_suitability slope_2x2 drainage_2x2 wb_2x2 3 = Ok composite
    /\ shape composite = shape slope_2x2
    /\ forall i j, inside slope_2x2 i j ->
         (item composite i j = true <->
          item slope_2x2 i j = true
          /\ (item drainage_2x2 i j <= 3)%Z
          /\ (item wb_2x2 i j >= 2)%Z).
Proof.
  apply (composite_is_cellwise_and slope_2x2 drainage_2x2 wb_2x2 3);
    reflexivity.
Defined.

(** C8 (as stated, refuted).  A 1x1 slope mask and two 2x2 class grids do
    not share their dimensions, yet [compute_biophysical_suitability]
    raises nothing: the single slope cell is broadcast over the 2x2
    result. *)
Lemma composite_shape_mismatch_counterexample :
  same_shape slope_1x1 drainage_2x2 = false
  /\ exists composite,
       compute_biophysical_suitability slope_1x1 drainage_2x2 wb_2x2 3
         = Ok composite
       /\ shape composite = (2, 2)%nat
       /\ item composite 0 0 = true /\ item composite 0 1 = false
       /\ item composite 1 0 = false /\ item composite 1 1 = true.
Proof.
  split; [reflexivity|].
  eexists. split; [vm_compute; reflexivity|].
  cbn [item]. repeat split.
Qed.

(** C8 (amended).  [compute_biophysical_suitability] raises exactly when
    the three shapes are not broadcast-compatible, that is when along some
    axis two lengths differ and neither is 1, and the error is then a
    [ValueError].  On broadcast-compatible shapes, identical or not, it
    returns a grid of the common broadcast shape (along each axis its
    length is the length of one of the inputs, and every input has that
    length or length 1) whose cells are the cell-wise AND of the broadcast
    inputs. *)
Theorem composite_raises_iff_not_broadcastable
    (slope_feasible : ndarray bool) (drainage_class : ndarray Z)
    (water_balance_suitability : ndarray Z) (drainage_threshold : Z) :
  let run := compute_biophysical_suitability slope_feasible drainage_class
               water_balance_suitability drainage_threshold in
  let row_lengths := [nrows slope_feasible; nrows drainage_class;
                      nrows water_balance_suitability] in
  let col_lengths := [ncols slope_feasible; ncols drainage_class;
                      ncols water_balance_suitability] in
  (run = Raise ValueError <->
   ~ shapes_broadcastable slope_feasible drainage_class water_balance_suitability)
  /\ ((exists composite,
         run = Ok composite
         /\ In (nrows composite) row_lengths
         /\ (forall n, In n row_lengths -> n = nrows composite \/ n = 1%nat)
         /\ In (ncols composite) col_lengths
         /\ (forall n, In n col_lengths -> n = ncols composite \/ n = 1%nat)
         /\ forall i j,
              item composite i j =
              bitem slope_feasible i j
              && (bitem drainage_class i j <=? drainage_threshold)%Z
              && (bitem water_balance_suitability i j >=? 2)%Z) <->
      shapes_broadcastable slope_feasible drainage_class water_balance_suitability).
Proof.
  intros run row_lengths col_lengths.
  assert (Hcases :
    (run = Raise ValueError
     /\ ~ shapes_broadcastable slope_feasible drainage_class
            water_balance_suitability)
    \/ ((exists composite,
          run = Ok composite
          /\ In (nrows composite) row_lengths
          /\ (forall n, In n row_lengths -> n = nrows composite \/ n = 1%nat)
          /\ In (ncols composite) col_lengths
          /\ (forall n, In n col_lengths -> n = ncols composite \/ n = 1%nat)
          /\ forall i j,
               item composite i j =
               bitem slope_feasible i j
               && (bitem drainage_class i j <=? drainage_threshold)%Z
               && (bitem water_balance_suitability i j >=? 2)%Z)
        /\ shapes_broadcastable slope_feasible drainage_class
             water_balance_suitability)).
  { subst run row_lengths col_lengths.
    unfold compute_biophysical_suitability.
    set (d := amap (fun d => (d <=? drainage_threshold)%Z) drainage_class).
    set (w := amap (fun w => (w >=? 2)%Z) water_balance_suitability).
    unfold shapes_broadcastable, axis_compatible.
    change (nrows drainage_class) with (nrows d).
    change (ncols drainage_class) with (ncols d).
    change (nrows water_balance_suitability) with (nrows w).
    change (ncols water_balance_suitability) with (ncols w).
    destruct (zip_with andb slope_feasible d) as [sd|e] eqn:Esd.
    - cbn [bind].
      destruct (zip_with_ok _ _ _ Esd) as (Hr & Hc & _ & Hsd).
      assert (Hrs := broadcast_dim_val _ _ Hr).
      assert (Hcs := broadcast_dim_val _ _ Hc).
      destruct (zip_with andb sd w) as [f|e] eqn:Ef.
      + right. cbn [bind].
        destruct (zip_with_ok _ _ _ Ef) as (Hr' & Hc' & Hf & _).
        assert (Hr2 := broadcast_dim_val _ _ Hr').
        assert (Hc2 := broadcast_dim_val _ _ Hc').
        split.
        * exists f. split; [reflexivity|].
          split; [cbn [In]; lia|].
          split; [intros n Hn; cbn [In] in Hn; lia|].
          split; [cbn [In]; lia|].
          split; [intros n Hn; cbn [In] in Hn; lia|].
          intros i j.
          rewrite Hf, Hsd. unfold bitem, d, w. cbn [amap nrows ncols item].
          reflexivity.
        * split; intros m n Hm Hn; cbn [In] in Hm, Hn; lia.
      + left. cbn [bind].
        destruct (zip_with_raise _ _ _ Ef) as (-> & Hbad).
        split; [reflexivity|]. intros [Hrows Hcols].
        destruct Hbad as [(H1 & H2 & H3) | (H1 & H2 & H3)].
        * assert (Hx := Hrows (nrows slope_feasible) (nrows w)).
          assert (Hy := Hrows (nrows d) (nrows w)).
          cbn [In] in Hx, Hy. lia.
        * assert (Hx := Hcols (ncols slope_feasible) (ncols w)).
          assert (Hy := Hcols (ncols d) (ncols w)).
          cbn [In] in Hx, Hy. lia.
    - left. cbn [bind].
      destruct (zip_with_raise _ _ _ Esd) as (-> & Hbad).
      split; [reflexivity|]. intros [Hrows Hcols].
      destruct Hbad as [(H1 & H2 & H3) | (H1 & H2 & H3)].
      * assert (Hx := Hrows (nrows slope_feasible) (nrows d)).
        cbn [In] in Hx. lia.
      * assert (Hx := Hcols (ncols slope_feasible) (ncols d)).
        cbn [In] in Hx. lia. }
  destruct Hcases as [[Hr Hn] | [[f [Hf Hcell]] Hb]].
  - split; [tauto|]. split; [|tauto].
    intros (f & Hf & _). rewrite Hr in Hf. discriminate.
  - split.
    + split; [|tauto]. intros Hr. rewrite Hf in Hr. discriminate.
    + split; [tauto|]. intros _. exists f. auto.
Qed.

End CompositeProps.

(** ** Water-balance suitability *)

Module WaterBalanceProps.

Import WaterBalance.

Lemma assess_band (wb thr : Q) :
  assess_awd_suitability_dekad wb thr = true <-> thr <= wb /\ wb < 0.
Proof.
  unfold assess_awd_suitability_dekad.
  rewrite andb_true_iff, Qltb_lt, Qgeb_ge. tauto.
Qed.

(** A lower threshold accepts every dekad a higher one accepts. *)
Lemma assess_widens (wb t1 t2 : Q) :
  t1 <= t2 ->
  assess_awd_suitability_dekad wb t2 = true ->
  assess_awd_suitability_dekad wb t1 = true.
Proof.
  rewrite !assess_band. intros H12 [H2 H0]. split; [|exact H0].
  now apply Qle_trans with t2.
Qed.

Lemma count_true_mono {A} (f g : A -> bool) (l : list A) :
  (forall x, f x = true -> g x = true) ->
  (count_true (map f l) <= count_true (map g l))%Z.
Proof.
  intros Hfg. unfold count_true. apply inj_le.
  induction l as [|x l IH]; simpl; [lia|].
  destruct (f x) eqn:Ef.
  - rewrite (Hfg x Ef). simpl. lia.
  - destruct (g x); simpl; lia.
Qed.

Lemma count_true_bounds (bs : list bool) :
  (0 <= count_true bs <= Z.of_nat (List.length bs))%Z.
Proof.
  unfold count_true. split; [lia|]. apply inj_le.
  induction bs as [|[] bs IH]; simpl; lia.
Qed.

Lemma slice_nil {A} (start stop : Z) : slice (@nil A) start stop = [].
Proof.
  unfold slice. now rewrite skipn_nil, firstn_nil.
Qed.

Lemma Qdiv_le_same_den (a b c : Z) :
  (a <= b)%Z -> (0 < c)%Z ->
  inject_Z a / inject_Z c <= inject_Z b / inject_Z c.
Proof.
  intros Hab Hc. unfold Qdiv. apply Qmult_le_compat_r.
  - now rewrite <- Zle_Qle.
  - apply Qinv_le_0_compat. change 0 with (inject_Z 0).
    rewrite <- Zle_Qle. lia.
Qed.

(** The general form of the monotonicity: lowering the threshold never
    lowers the count or the fraction, and leaves the total unchanged. *)
Lemma suitability_index_antitone
    (series : list Q) (s e xf xl : Z) (t1 t2 : Q) :
  t1 <= t2 ->
  let r1 := compute_awd_suitability_index series s e xf xl t1 in
  let r2 := compute_awd_suitability_index series s e xf xl t2 in
  fraction_of r2 <= fraction_of r1
  /\ (num_suitable_of r2 <= num_suitable_of r1)%Z
  /\ num_total_of r2 = num_total_of r1.
Proof.
  intros H12. unfold compute_awd_suitability_index.
  destruct (s + xf >=? e - xl)%Z.
  - cbn. split; [apply Qle_refl|]. split; [lia|reflexivity].
  - cbv zeta. unfold fraction_of, num_suitable_of, num_total_of.
    cbn [fst snd].
    set (active := slice series (s + xf) (e - xl + 1)).
    assert (Hcount :
      (count_true (map (fun wb => assess_awd_suitability_dekad wb t2) active)
       <= count_true (map (fun wb => assess_awd_suitability_dekad wb t1) active))%Z).
    { apply count_true_mono. intros wb. now apply assess_widens. }
    split; [|split; [exact Hcount|reflexivity]].
    destruct (Z.gtb_spec (Z.of_nat (List.length active)) 0).
    + apply Qdiv_le_same_den; [exact Hcount|lia].
    + apply Qle_refl.
Qed.

(** C3 (as stated, refuted).  On a season whose two active dekads stand at
    -60 mm, the threshold -70 accepts both (fraction 1) and the threshold
    -50 accepts none (fraction 0): with t1 = -70 < t2 = -50 < 0 the fraction
    for t1 is not below the fraction for t2. *)
Lemma suitability_fraction_monotone_counterexample :
  let r1 := compute_awd_suitability_index series_60 1 5 2 1 (-70) in
  let r2 := compute_awd_suitability_index series_60 1 5 2 1 (-50) in
  -70 < -50 /\ -50 < 0
  /\ fraction_of r1 == 1 /\ fraction_of r2 == 0
  /\ ~ fraction_of r1 <= fraction_of r2.
Proof.
  cbv zeta. repeat split; try (vm_compute; congruence).
Qed.

(** C3 (amended).  For thresholds t1 < t2 < 0 the fraction returned with
    [deficit_threshold_mm = t1] is greater than or equal to the fraction
    returned with [t2]: the acceptance band [threshold, 0) widens as the
    threshold decreases.  The count of suitable dekads is ordered the same
    way and the total is the same. *)
Theorem suitability_fraction_antitone
    (series : list Q) (season_start season_end exclude_first exclude_last : Z)
    (t1 t2 : Q) :
  t1 < t2 -> t2 < 0 ->
  let r1 := compute_awd_suitability_index series season_start season_end
              exclude_first exclude_last t1 in
  let r2 := compute_awd_suitability_index series season_start season_end
              exclude_first exclude_last t2 in
  fraction_of r2 <= fraction_of r1
  /\ (num_suitable_of r2 <= num_suitable_of r1)%Z
  /\ num_total_of r2 = num_total_of r1.
Proof.
  intros H12 _. apply suitability_index_antitone. now apply Qlt_le_weak.
Qed.

Lemma suitability_fraction_antitone_witness :
  let r1 := compute_awd_suitability_index series_60 1 5 2 1 (-70) in
  let r2 := compute_awd_suitability_index series_60 1 5 2 1 (-50) in
  fraction_of r2 <= fraction_of r1
  /\ (num_suitable_of r2 <= num_suitable_of r1)%Z
  /\ num_total_of r2 = num_total_of r1.
Proof.
  apply (@suitability_fraction_antitone series_60 1 5 2 1 (-70) (-50));
    reflexivity.
Defined.

(** C7 (as stated, refuted).  On an empty series with the season 10 to 28
    the window is not degenerate: the function returns (0, 0, 0) but sends
    nothing to the logger. *)
Lemma empty_series_warning_counterexample :
  let r := compute_awd_suitability_index [] 10 28 2 1 (-50) in
  fst r = (0, 0%Z, 0%Z)
  /\ snd r = []
  /\ ~ exists msg, In (Warning msg) (snd r).
Proof.
  cbv zeta. split; [reflexivity|]. split; [reflexivity|].
  intros (msg & H). exact H.
Qed.

(** C7 (amended).  When the active window is degenerate
    (season_start + exclude_first >= season_end - exclude_last) or the
    series is empty, [compute_awd_suitability_index] returns (0, 0, 0); it
    has no raising path; the warning is logged exactly when the window is
    degenerate, so an empty series with a proper window gives no warning. *)
Theorem degenerate_window_or_empty_series
    (series : list Q) (season_start season_end exclude_first exclude_last : Z)
    (deficit_threshold_mm : Q) :
  (season_start + exclude_first >= season_end - exclude_last)%Z
  \/ series = [] ->
  let r := compute_awd_suitability_index series season_start season_end
             exclude_first exclude_last deficit_threshold_mm in
  fst r = (0, 0%Z, 0%Z)
  /\ ((season_start + exclude_first >= season_end - exclude_last)%Z ->
      snd r = [Warning "Active season window too small after exclusions"])
  /\ ((season_start + exclude_first < season_end - exclude_last)%Z ->
      snd r = []).
Proof.
  intros H. unfold compute_awd_suitability_index.
  destruct (Z.geb_spec (season_start + exclude_first)
                       (season_end - exclude_last)) as [Hge|Hlt].
  - cbn. split; [reflexivity|]. split; [reflexivity|lia].
  - destruct H as [H| ->]; [lia|].
    rewrite slice_nil. cbn. split; [reflexivity|]. split; [lia|reflexivity].
Qed.

Lemma degenerate_window_or_empty_series_witness :
  let r := compute_awd_suitability_index series_60 1 4 2 1 (-50) in
  fst r = (0, 0%Z, 0%Z)
  /\ ((1 + 2 >= 4 - 1)%Z ->
      snd r = [Warning "Active season window too small after exclusions"])
  /\ ((1 + 2 < 4 - 1)%Z -> snd r = []).
Proof.
  apply (@degenerate_window_or_empty_series series_60 1 4 2 1 (-50)).
  left. lia.
Defined.

End WaterBalanceProps.

(** ** Classification of the suitability fraction *)

Module ClassifyProps.

Import WaterBalance Utils.

(** The three bands of [classify_suitability_from_fraction]. *)
Lemma classify_from_fraction_bands (fraction high moderate : Q) :
  (high <= fraction ->
   classify_suitability_from_fraction fraction high moderate = 3%Z)
  /\ (moderate <= fraction -> fraction < high ->
      classify_suitability_from_fraction fraction high moderate = 2%Z)
  /\ (fraction < moderate -> fraction < high ->
      classify_suitability_from_fraction fraction high moderate = 1%Z).
Proof.
  unfold classify_suitability_from_fraction. repeat split.
  - intros H. apply Qgeb_ge in H. now rewrite H.
  - intros Hm Hh. apply Qgeb_false_lt in Hh. apply Qgeb_ge in Hm.
    now rewrite Hh, Hm.
  - intros Hm Hh. apply Qgeb_false_lt in Hh. apply Qgeb_false_lt in Hm.
    now rewrite Hh, Hm.
Qed.

(** [utils.classify_awd_suitability] validates its argument: outside
    [0,1] it raises [ValueError]. *)
Lemma classify_awd_suitability_rejects
    (fraction : Q) (thresholds : option (list (string * Q))) :
  fraction < 0 \/ 1 < fraction ->
  classify_awd_suitability fraction thresholds = Raise ValueError.
Proof.
  intros H. unfold classify_awd_suitability.
  assert (E : Qleb 0 fraction && Qleb fraction 1 = false).
  { apply andb_false_iff. unfold Qleb. destruct H as [H|H].
    - left. destruct (Qle_bool 0 fraction) eqn:E; [|reflexivity].
      apply Qle_bool_iff in E. exfalso. exact (Qlt_not_le _ _ H E).
    - right. destruct (Qle_bool fraction 1) eqn:E; [|reflexivity].
      apply Qle_bool_iff in E. exfalso. exact (Qlt_not_le _ _ H E). }
  now rewrite E.
Qed.

(** Inside [0,1] and with the default thresholds the two classifiers
    agree. *)
Lemma classifiers_agree_in_range (fraction : Q) :
  0 <= fraction -> fraction <= 1 ->
  classify_awd_suitability fraction None
  = Ok (classify_suitability_from_fraction fraction
          default_high_threshold default_moderate_threshold).
Proof.
  intros H0 H1. unfold classify_awd_suitability.
  apply Qleb_le in H0. apply Qleb_le in H1. rewrite H0, H1.
  cbn [andb negb default_thresholds getitem String.eqb Ascii.eqb Bool.eqb bind].
  unfold classify_suitability_from_fraction, default_high_threshold,
    default_moderate_threshold.
  destruct (Qgeb fraction (66 # 100)); [reflexivity|].
  cbn. destruct (Qgeb fraction (33 # 100)); reflexivity.
Qed.

(** C4 (defect of [classify_suitability_from_fraction]).  For the
    fractions 3/2 and -1/2, both outside [0,1],
    [water_balance.classify_suitability_from_fraction] returns the classes
    3 and 1, where [utils.classify_awd_suitability] raises [ValueError]. *)
Theorem classify_from_fraction_accepts_out_of_range :
  classify_suitability_from_fraction (3 # 2)
    default_high_threshold default_moderate_threshold = 3%Z
  /\ classify_suitability_from_fraction (- (1 # 2))
       default_high_threshold default_moderate_threshold = 1%Z
  /\ classify_awd_suitability (3 # 2) None = Raise ValueError
  /\ classify_awd_suitability (- (1 # 2)) None = Raise ValueError.
Proof. repeat split. Qed.

End ClassifyProps.

(** ** Fragmentation index and extension cost *)

Module FragmentationProps.

Import SpatialAnalysis.

Lemma fold_left_max (l : list nat) (a : nat) :
  fold_left Nat.max l a = Nat.max a (list_max l).
Proof.
  revert a. induction l as [|x l IH]; intros a; simpl; [lia|].
  rewrite IH. lia.
Qed.

Lemma amax_list_max (l : list nat) :
  l <> [] -> amax l = Ok (list_max l).
Proof.
  destruct l as [|x l]; [congruence|]. intros _. simpl.
  now rewrite fold_left_max.
Qed.

Lemma amin_ok (l : list nat) :
  l <> [] -> exists m, amin l = Ok m.
Proof.
  destruct l as [|x l]; [congruence|]. intros _. simpl. eauto.
Qed.

Lemma in_le_list_max (l : list nat) (x : nat) :
  In x l -> (x <= list_max l)%nat.
Proof.
  intros H. assert (Hf : Forall (fun k => (k <= list_max l)%nat) l)
    by (apply list_max_le; lia).
  rewrite Forall_forall in Hf. now apply Hf.
Qed.

Lemma list_sum_le_max (l : list nat) :
  (list_sum l <= List.length l * list_max l)%nat.
Proof.
  induction l as [|x l IH]; simpl; [lia|]. nia.
Qed.

Lemma list_sum_ge_length (l : list nat) :
  Forall (fun k => (1 <= k)%nat) l -> (List.length l <= list_sum l)%nat.
Proof.
  induction 1; simpl; lia.
Qed.

Lemma list_max_pos (l : list nat) :
  l <> [] -> Forall (fun k => (1 <= k)%nat) l -> (1 <= list_max l)%nat.
Proof.
  destruct l as [|x l]; [congruence|]. intros _ H.
  inversion H; subst. simpl. lia.
Qed.

Lemma list_sum_all_equal (l : list nat) :
  (forall x y, In x l -> In y l -> x = y) ->
  list_sum l = (List.length l * list_max l)%nat.
Proof.
  induction l as [|x l IH]; intros Heq; [reflexivity|].
  destruct l as [|y l].
  - simpl. lia.
  - assert (Hxy : x = y) by (apply Heq; simpl; auto).
    assert (IH' := IH (fun a b Ha Hb => Heq a b (or_intror Ha) (or_intror Hb))).
    change (list_sum (x :: y :: l)) with (x + list_sum (y :: l))%nat.
    change (list_max (x :: y :: l)) with (Nat.max x (list_max (y :: l))).
    change (List.length (x :: y :: l)) with (S (List.length (y :: l))).
    rewrite IH'.
    assert (Hm : list_max (y :: l) = y).
    { apply Nat.le_antisymm.
      - apply list_max_le. apply Forall_forall. intros z Hz.
        rewrite (Heq z y); [lia | now right | right; now left].
      - apply in_le_list_max. now left. }
    rewrite Hm, Hxy. rewrite Nat.max_id. lia.
Qed.

(** Under the contract of the labelling, the patch sizes are the numbers
    of cells of the labels 1 .. n, none of them empty. *)
Lemma patch_sizes_of_labelling
    (suitability_map : ndarray bool) (labeled_array : ndarray nat) (n : nat) :
  labelling_ok suitability_map (labeled_array, n) = true ->
  n <> 0%nat ->
  patch_sizes_of labeled_array
  = map (count_occ Nat.eq_dec (ravel labeled_array)) (seq 1 n)
  /\ Forall (fun k => (1 <= k)%nat) (patch_sizes_of labeled_array)
  /\ List.length (patch_sizes_of labeled_array) = n.
Proof.
  unfold labelling_ok. rewrite !andb_true_iff.
  intros [[[_ _] Hle] Hex] Hn.
  set (xs := ravel labeled_array) in *.
  rewrite forallb_forall in Hle, Hex.
  assert (Hin : forall k, In k (seq 1 n) -> In k xs).
  { intros k Hk. specialize (Hex k Hk). apply existsb_exists in Hex.
    destruct Hex as (x & Hx & E). apply Nat.eqb_eq in E. now subst. }
  assert (Hn_in : In n xs) by (apply Hin, in_seq; lia).
  assert (Hmax : list_max xs = n).
  { apply Nat.le_antisymm.
    - apply list_max_le, Forall_forall. intros x Hx.
      apply Nat.leb_le. now apply Hle.
    - now apply in_le_list_max. }
  assert (Hsizes : patch_sizes_of labeled_array
                   = map (count_occ Nat.eq_dec xs) (seq 1 n)).
  { unfold patch_sizes_of, bincount. fold xs.
    destruct xs as [|x xs']; [destruct Hn_in|].
    rewrite Hmax. reflexivity. }
  rewrite Hsizes. split; [reflexivity|]. split.
  - apply Forall_forall. intros s Hs. apply in_map_iff in Hs.
    destruct Hs as (k & <- & Hk).
    apply (count_occ_In Nat.eq_dec). now apply Hin.
  - now rewrite length_map, length_seq.
Qed.

Lemma Qnat_pos (n : nat) : (0 < n)%nat -> 0 < Qnat n.
Proof.
  intros H. unfold Qnat. change 0 with (inject_Z 0).
  rewrite <- Zlt_Qlt. lia.
Qed.

Lemma Qnat_le (m n : nat) : (m <= n)%nat -> Qnat m <= Qnat n.
Proof. intros H. unfold Qnat. rewrite <- Zle_Qle. lia. Qed.

Lemma Qnat_mult (m n : nat) : Qnat (m * n) == Qnat m * Qnat n.
Proof.
  unfold Qnat. rewrite Nat2Z.inj_mul, inject_Z_mult. reflexivity.
Qed.

(** The ratio mean/max of a non-empty vector of positive sizes. *)
Lemma mean_over_max_range (sizes : list nat) :
  sizes <> [] -> Forall (fun k => (1 <= k)%nat) sizes ->
  0 < mean sizes / Qnat (list_max sizes)
  /\ mean sizes / Qnat (list_max sizes) <= 1.
Proof.
  intros Hne Hpos.
  assert (Hlen : (0 < List.length sizes)%nat)
    by (destruct sizes; [congruence | simpl; lia]).
  assert (Hmax := list_max_pos Hne Hpos).
  assert (Hsum := list_sum_ge_length Hpos).
  assert (HqM := @Qnat_pos (list_max sizes) ltac:(lia)).
  assert (HqL := Qnat_pos Hlen).
  unfold mean. split.
  - apply Qlt_shift_div_l; [exact HqM|]. rewrite Qmult_0_l.
    apply Qlt_shift_div_l; [exact HqL|]. rewrite Qmult_0_l.
    apply Qnat_pos. lia.
  - apply Qle_shift_div_r; [exact HqM|]. rewrite Qmult_1_l.
    apply Qle_shift_div_r; [exact HqL|].
    rewrite <- Qnat_mult. apply Qnat_le.
    rewrite Nat.mul_comm. apply list_sum_le_max.
Qed.

Lemma mean_over_max_all_equal (sizes : list nat) :
  sizes <> [] -> Forall (fun k => (1 <= k)%nat) sizes ->
  (forall x y, In x sizes -> In y sizes -> x = y) ->
  mean sizes / Qnat (list_max sizes) == 1.
Proof.
  intros Hne Hpos Heq.
  destruct (mean_over_max_range Hne Hpos) as [_ Hle].
  apply Qle_antisym; [exact Hle|].
  assert (Hlen : (0 < List.length sizes)%nat)
    by (destruct sizes; [congruence | simpl; lia]).
  assert (Hmax := list_max_pos Hne Hpos).
  unfold mean.
  apply Qle_shift_div_l; [apply Qnat_pos; lia|]. rewrite Qmult_1_l.
  apply Qle_shift_div_l; [now apply Qnat_pos|].
  rewrite <- Qnat_mult. apply Qnat_le.
  rewrite (list_sum_all_equal _ Heq). lia.
Qed.

(** C5 (as stated, refuted).  A map with two isolated cells has two
    patches of equal size 1: the mean and the maximum are both 1 and the
    index is 1, not 1/patchCount = 1/2. *)
Lemma fragmentation_equal_patches_counterexample :
  labelling_ok map_two_cells (label4 map_two_cells) = true
  /\ patch_sizes_of (fst (label4 map_two_cells)) = [1; 1]%nat
  /\ exists r,
       compute_fragmentation_index label4 map_two_cells = Ok r
       /\ n_patches r = 2%nat
       /\ fragmentation_index r == 1
       /\ ~ fragmentation_index r == 1 / Qnat (n_patches r).
Proof.
  split; [vm_compute; reflexivity|]. split; [vm_compute; reflexivity|].
  eexists. split; [vm_compute; reflexivity|].
  cbn [n_patches fragmentation_index]. repeat split.
  vm_compute. discriminate.
Qed.

(** C5 (amended).  For a map on which the labelling finds at least one
    patch, [compute_fragmentation_index] returns a summary whose index is
    mean_patch_size / max_patch_size, lies in (0,1], and equals 1 when all
    patches have the same size. *)
Theorem fragmentation_index_range
    (label : ndarray bool -> ndarray nat * nat)
    (suitability_map : ndarray bool) :
  labelling_ok suitability_map (label suitability_map) = true ->
  snd (label suitability_map) <> 0%nat ->
  exists r,
    compute_fragmentation_index label suitability_map = Ok r
    /\ n_patches r = snd (label suitability_map)
    /\ n_patches r = List.length (patch_sizes_of (fst (label suitability_map)))
    /\ fragmentation_index r
       = mean_patch_size r / Qnat (max_patch_size r)
    /\ 0 < fragmentation_index r /\ fragmentation_index r <= 1
    /\ ((forall x y,
           In x (patch_sizes_of (fst (label suitability_map))) ->
           In y (patch_sizes_of (fst (label suitability_map))) -> x = y) ->
        fragmentation_index r == 1).
Proof.
  unfold compute_fragmentation_index.
  destruct (label suitability_map) as [labeled_array n] eqn:El.
  cbn [fst snd]. intros Hok Hn.
  destruct (patch_sizes_of_labelling _ _ Hok Hn) as (Hsizes & Hpos & Hlen).
  fold (patch_sizes_of labeled_array).
  set (sizes := patch_sizes_of labeled_array) in *.
  assert (Hne : sizes <> []).
  { intros E. rewrite E in Hlen. simpl in Hlen. congruence. }
  destruct (Nat.eqb_spec n 0) as [|_]; [contradiction|].
  rewrite (amax_list_max Hne). cbn [bind].
  destruct (amin_ok Hne) as (m & ->). cbn [bind].
  assert (Hmax := list_max_pos Hne Hpos).
  destruct (Nat.ltb_spec 0 (list_max sizes)) as [_|]; [|lia].
  eexists. split; [reflexivity|].
  cbn [n_patches fragmentation_index mean_patch_size max_patch_size].
  split; [reflexivity|]. split; [now rewrite Hlen|].
  split; [reflexivity|].
  destruct (mean_over_max_range Hne Hpos) as [H0 H1].
  split; [exact H0|]. split; [exact H1|].
  intros Heq. now apply mean_over_max_all_equal.
Qed.

Lemma fragmentation_index_range_witness :
  exists r,
    compute_fragmentation_index label4 map_three_patches = Ok r
    /\ n_patches r = snd (label4 map_three_patches)
    /\ n_patches r
       = List.length (patch_sizes_of (fst (label4 map_three_patches)))
    /\ fragmentation_index r
       = mean_patch_size r / Qnat (max_patch_size r)
    /\ 0 < fragmentation_index r /\ fragmentation_index r <= 1
    /\ ((forall x y,
           In x (patch_sizes_of (fst (label4 map_three_patches))) ->
           In y (patch_sizes_of (fst (label4 map_three_patches))) -> x = y) ->
        fragmentation_index r == 1).
Proof.
  apply (@fragmentation_index_range label4 map_three_patches).
  - vm_compute. reflexivity.
  - vm_compute. discriminate.
Defined.

(** C6.  For an index in [0,1], an area >= 0 and a base cost > 0,
    [estimate_extension_cost] returns base * area * (1 + 3.8 * index); the
    cost does not decrease when the index grows with the area fixed, does
    not decrease when the area grows with the index fixed, and at index 0
    it is base * area.  Growth is stated as [<=] only: the source computes
    in floating point, where two nearby inputs can round to the same
    cost. *)
Theorem extension_cost_formula_monotone
    (fragmentation_index total_suitable_area_km2 base_cost_per_km2 : Q) :
  0 <= fragmentation_index -> fragmentation_index <= 1 ->
  0 <= total_suitable_area_km2 -> 0 < base_cost_per_km2 ->
  let cost := estimate_extension_cost in
  cost fragmentation_index total_suitable_area_km2 base_cost_per_km2
    == base_cost_per_km2 * total_suitable_area_km2
       * (1 + (38 # 10) * fragmentation_index)
  /\ (forall index', fragmentation_index <= index' -> index' <= 1 ->
        cost fragmentation_index total_suitable_area_km2 base_cost_per_km2
        <= cost index' total_suitable_area_km2 base_cost_per_km2)
  /\ (forall area', total_suitable_area_km2 <= area' ->
        cost fragmentation_index total_suitable_area_km2 base_cost_per_km2
        <= cost fragmentation_index area' base_cost_per_km2)
  /\ cost 0 total_suitable_area_km2 base_cost_per_km2
     == base_cost_per_km2 * total_suitable_area_km2.
Proof.
  intros Hi0 Hi1 Ha Hb cost. subst cost. unfold estimate_extension_cost.
  set (fi := fragmentation_index) in *.
  set (a := total_suitable_area_km2) in *.
  set (b := base_cost_per_km2) in *. clearbody fi a b.
  assert (Hm : 0 < 1 + (38 # 10) * fi) by lra.
  assert (Hab : 0 <= a * b) by (apply Qmult_le_0_compat; lra).
  split; [ring|]. split; [|split].
  - intros fi' Hle _.
    rewrite !(Qmult_comm (a * b)). apply Qmult_le_compat_r; [lra|exact Hab].
  - intros a' Hle. apply Qmult_le_compat_r; [|lra].
    apply Qmult_le_compat_r; lra.
  - ring.
Qed.

Lemma extension_cost_formula_monotone_witness :
  let cost := estimate_extension_cost in
  cost (1 # 2) 100 1000 == 1000 * 100 * (1 + (38 # 10) * (1 # 2))
  /\ (forall index', 1 # 2 <= index' -> index' <= 1 ->
        cost (1 # 2) 100 1000 <= cost index' 100 1000)
  /\ (forall area', 100 <= area' ->
        cost (1 # 2) 100 1000 <= cost (1 # 2) area' 1000)
  /\ cost 0 100 1000 == 1000 * 100.
Proof.
  apply (@extension_cost_formula_monotone (1 # 2) 100 1000);
    vm_compute; congruence.
Defined.

End FragmentationProps.

(** ** Cluster table *)

Module ClusterProps.

Import SpatialAnalysis.

Lemma insert_desc_perm (r : cluster_row) (rows : list cluster_row) :
  Permutation (insert_desc r rows) (r :: rows).
Proof.
  induction rows as [|r' rows IH]; simpl; [reflexivity|].
  destruct (size_pixels r' <=? size_pixels r)%nat; [reflexivity|].
  rewrite IH. apply perm_swap.
Qed.

Lemma sort_desc_perm (rows : list cluster_row) :
  Permutation (sort_desc rows) rows.
Proof.
  induction rows as [|r rows IH]; simpl; [reflexivity|].
  rewrite insert_desc_perm. now constructor.
Qed.

Lemma insert_desc_hdrel (a r : cluster_row) (rows : list cluster_row) :
  desc a r -> HdRel desc a rows -> HdRel desc a (insert_desc r rows).
Proof.
  intros Har H. destruct rows as [|r' rows]; simpl.
  - now constructor.
  - destruct (size_pixels r' <=? size_pixels r)%nat.
    + now constructor.
    + constructor. now inversion H.
Qed.

Lemma insert_desc_sorted (r : cluster_row) (rows : list cluster_row) :
  Sorted desc rows -> Sorted desc (insert_desc r rows).
Proof.
  induction 1 as [|a rows Hs IH Hhd]; simpl.
  - repeat constructor.
  - destruct (Nat.leb_spec (size_pixels a) (size_pixels r)) as [Hle|Hlt].
    + constructor; [now constructor|]. constructor. exact Hle.
    + constructor; [exact IH|].
      apply insert_desc_hdrel; [unfold desc; lia | exact Hhd].
Qed.

Lemma sort_desc_sorted (rows : list cluster_row) :
  Sorted desc (sort_desc rows).
Proof.
  induction rows as [|r rows IH]; simpl; [constructor|].
  now apply insert_desc_sorted.
Qed.

(** [ravel] lists the cells in the order of the index pairs. *)
Lemma ravel_list_prod {A} (a : ndarray A) :
  ravel a
  = map (fun p => item a (fst p) (snd p))
        (list_prod (seq 0 (nrows a)) (seq 0 (ncols a))).
Proof.
  unfold ravel. generalize (seq 0 (nrows a)) as rows.
  induction rows as [|i rows IH]; simpl; [reflexivity|].
  rewrite map_app, map_map, IH. reflexivity.
Qed.

(** A label that marks some cell has a non-empty list of positions. *)
Lemma where_label_nonempty (labeled_array : ndarray nat) (k : nat) :
  In k (ravel labeled_array) ->
  fst (where_ (amap (fun l => (l =? k)%nat) labeled_array)) <> []
  /\ snd (where_ (amap (fun l => (l =? k)%nat) labeled_array)) <> [].
Proof.
  rewrite ravel_list_prod. intros H. apply in_map_iff in H.
  destruct H as (p & Hp & Hin).
  unfold where_. cbn [amap nrows ncols item fst snd].
  assert (Hf : In p (filter
                      (fun p => (item labeled_array (fst p) (snd p) =? k)%nat)
                      (list_prod (seq 0 (nrows labeled_array))
                                 (seq 0 (ncols labeled_array))))).
  { apply filter_In. split; [exact Hin|]. now apply Nat.eqb_eq. }
  destruct (filter _ _) as [|q qs]; [destruct Hf|].
  simpl. split; discriminate.
Qed.

Lemma amin_some (l : list nat) : l <> [] -> exists m, amin l = Ok m.
Proof. destruct l; [congruence|]. simpl. eauto. Qed.

Lemma amax_some (l : list nat) : l <> [] -> exists m, amax l = Ok m.
Proof. destruct l; [congruence|]. simpl. eauto. Qed.

(** One turn of the loop on a label that marks some cell. *)
Lemma cluster_row_of_labelled
    (labeled_array : ndarray nat) (min_cluster_size : Z) (k : nat) :
  In k (ravel labeled_array) ->
  if kept labeled_array min_cluster_size k
  then exists row,
         cluster_row_of labeled_array min_cluster_size k = Ok (Some row)
         /\ cluster_id row = k
         /\ size_pixels row = cluster_size labeled_array k
  else cluster_row_of labeled_array min_cluster_size k = Ok None.
Proof.
  intros Hin. unfold kept, cluster_row_of. fold (cluster_size labeled_array k).
  destruct (Z.of_nat (cluster_size labeled_array k) <? min_cluster_size)%Z;
    cbn [negb]; [reflexivity|].
  destruct (where_label_nonempty _ _ Hin) as [Hr Hc].
  destruct (amin_some Hr) as (a & ->), (amax_some Hr) as (b & ->).
  destruct (amin_some Hc) as (c & ->), (amax_some Hc) as (d & ->).
  cbn [bind]. eexists. split; [reflexivity|]. split; reflexivity.
Qed.

Lemma collect_rows_labelled
    (labeled_array : ndarray nat) (min_cluster_size : Z) (ids : list nat) :
  (forall k, In k ids -> In k (ravel labeled_array)) ->
  exists rows,
    collect_rows labeled_array min_cluster_size ids = Ok rows
    /\ map cluster_id rows = filter (kept labeled_array min_cluster_size) ids
    /\ Forall (fun row => size_pixels row
                          = cluster_size labeled_array (cluster_id row)) rows.
Proof.
  induction ids as [|k ids IH]; intros Hin.
  - exists []. simpl. auto.
  - destruct IH as (rest & Hrest & Hids & Hsz);
      [intros k' Hk'; apply Hin; now right|].
    assert (Hk := @cluster_row_of_labelled labeled_array min_cluster_size k
                    (Hin k (or_introl eq_refl))).
    cbn [collect_rows filter].
    destruct (kept labeled_array min_cluster_size k).
    + destruct Hk as (row & -> & Hid & Hsize). cbn [bind].
      rewrite Hrest. cbn [bind]. exists (row :: rest).
      split; [reflexivity|]. split.
      * simpl. now rewrite Hid, Hids.
      * constructor; [now rewrite Hid|exact Hsz].
    + rewrite Hk. cbn [bind]. rewrite Hrest. cbn [bind].
      exists rest. auto.
Qed.

Lemma labelling_ok_labels_used
    (suitability_map : ndarray bool) (labeled_array : ndarray nat) (n : nat) :
  labelling_ok suitability_map (labeled_array, n) = true ->
  forall k, In k (seq 1 n) -> In k (ravel labeled_array).
Proof.
  unfold labelling_ok. rewrite !andb_true_iff. intros [_ Hex] k Hk.
  rewrite forallb_forall in Hex. specialize (Hex k Hk).
  apply existsb_exists in Hex. destruct Hex as (x & Hx & E).
  apply Nat.eqb_eq in E. now subst.
Qed.

Lemma filter_none {A} (f : A -> bool) (l : list A) :
  (forall x, In x l -> f x = false) -> filter f l = [].
Proof.
  induction l as [|x l IH]; intros H; [reflexivity|]. simpl.
  rewrite (H x (or_introl eq_refl)). apply IH.
  intros y Hy. apply H. now right.
Qed.

(** When no component reaches the minimum size the list of rows is empty
    and sorting the frame built from it raises [KeyError]. *)
Lemma all_filtered_gives_key_error
    (label : ndarray bool -> ndarray nat * nat)
    (suitability_map : ndarray bool) (min_cluster_size : Z) :
  labelling_ok suitability_map (label suitability_map) = true ->
  (forall k, In k (seq 1 (snd (label suitability_map))) ->
     kept (fst (label suitability_map)) min_cluster_size k = false) ->
  identify_suitability_clusters label suitability_map min_cluster_size
  = Raise KeyError.
Proof.
  unfold identify_suitability_clusters.
  destruct (label suitability_map) as [labeled_array n]. cbn [fst snd].
  intros Hok Hnone.
  destruct (@collect_rows_labelled labeled_array min_cluster_size (seq 1 n)
              (@labelling_ok_labels_used suitability_map labeled_array n Hok))
    as (rows & -> & Hids & _).
  cbn [bind].
  assert (E : filter (kept labeled_array min_cluster_size) (seq 1 n) = []).
  { now apply filter_none. }
  rewrite E in Hids. destruct rows; [reflexivity|discriminate].
Qed.

(** When some component reaches the minimum size the table has one row
    for each component of size at least the minimum and for no other, each
    row carries the size of its component, and the rows come in descending
    order of size. *)
Lemma clusters_table_when_some_kept
    (label : ndarray bool -> ndarray nat * nat)
    (suitability_map : ndarray bool) (min_cluster_size : Z) :
  labelling_ok suitability_map (label suitability_map) = true ->
  (exists k, In k (seq 1 (snd (label suitability_map)))
             /\ kept (fst (label suitability_map)) min_cluster_size k = true) ->
  exists table,
    identify_suitability_clusters label suitability_map min_cluster_size
    = Ok table
    /\ Permutation (map cluster_id table)
         (filter (kept (fst (label suitability_map)) min_cluster_size)
                 (seq 1 (snd (label suitability_map))))
    /\ NoDup (map cluster_id table)
    /\ Forall (fun row =>
                 size_pixels row
                 = cluster_size (fst (label suitability_map)) (cluster_id row)
                 /\ (min_cluster_size <= Z.of_nat (size_pixels row))%Z) table
    /\ Sorted desc table.
Proof.
  unfold identify_suitability_clusters.
  destruct (label suitability_map) as [labeled_array n]. cbn [fst snd].
  intros Hok (k & Hk & Hkept).
  destruct (@collect_rows_labelled labeled_array min_cluster_size (seq 1 n)
              (@labelling_ok_labels_used suitability_map labeled_array n Hok))
    as (rows & -> & Hids & Hsz).
  cbn [bind].
  assert (Hne : rows <> []).
  { intros ->. simpl in Hids.
    assert (Hf : In k (filter (kept labeled_array min_cluster_size) (seq 1 n)))
      by (apply filter_In; auto).
    rewrite <- Hids in Hf. destruct Hf. }
  unfold sort_values_size_pixels.
  destruct rows as [|r rows]; [congruence|].
  set (rs := r :: rows) in *. exists (sort_desc rs).
  assert (Hperm := sort_desc_perm rs).
  split; [reflexivity|]. split; [|split; [|split]].
  - rewrite <- Hids. now apply Permutation_map.
  - apply (Permutation_NoDup (l := map cluster_id rs)).
    + apply Permutation_map. now symmetry.
    + rewrite Hids. apply NoDup_filter, seq_NoDup.
  - apply Forall_forall. intros row Hrow.
    assert (Hin : In row rs) by (eapply Permutation_in; eauto).
    rewrite Forall_forall in Hsz. split; [now apply Hsz|].
    assert (Hid : In (cluster_id row)
                    (filter (kept labeled_array min_cluster_size) (seq 1 n))).
    { rewrite <- Hids. now apply in_map. }
    apply filter_In in Hid. destruct Hid as [_ Hk'].
    unfold kept in Hk'. rewrite (Hsz row Hin).
    apply negb_true_iff in Hk'. apply Z.ltb_ge in Hk'. exact Hk'.
  - apply sort_desc_sorted.
Qed.

(** C9 (defect of [identify_suitability_clusters]).  On a map with patches
    of sizes 3, 2 and 1 and the default minimum size 100 every component is
    filtered out, and on a map without any suitable cell there is no
    component at all: in both cases the function raises [KeyError] where
    the claim has an empty table.  With the minimum size 2 the same map
    gives the two rows of sizes 3 and 2. *)
Theorem clusters_all_filtered_raises :
  identify_suitability_clusters label4 map_three_patches 100
  = Raise KeyError
  /\ identify_suitability_clusters label4 map_all_false 1 = Raise KeyError
  /\ exists table,
       identify_suitability_clusters label4
         map_three_patches 2 = Ok table
       /\ map size_pixels table = [3; 2]%nat.
Proof.
  split; [vm_compute; reflexivity|]. split; [vm_compute; reflexivity|].
  eexists. split; vm_compute; reflexivity.
Qed.

End ClusterProps.

(** ** Further properties of the suitability index *)

Module SuitabilityIndexProps.

Import WaterBalance WaterBalanceProps.

Lemma slice_length {A} (a : list A) (start stop : Z) :
  Z.of_nat (List.length (slice a start stop))
  = Z.max 0 (slice_bound (Z.of_nat (List.length a)) stop
             - slice_bound (Z.of_nat (List.length a)) start).
Proof.
  unfold slice. rewrite length_firstn, length_skipn.
  assert (Hlen0 := Nat2Z.is_nonneg (List.length a)).
  set (len := Z.of_nat (List.length a)) in *.
  assert (Hlo : (0 <= slice_bound len start <= len)%Z)
    by (unfold slice_bound; destruct (Z.ltb_spec start 0); lia).
  assert (Hhi : (0 <= slice_bound len stop <= len)%Z)
    by (unfold slice_bound; destruct (Z.ltb_spec stop 0); lia).
  lia.
Qed.

Lemma slice_length_le {A} (a : list A) (start stop : Z) :
  (List.length (slice a start stop) <= List.length a)%nat.
Proof.
  unfold slice. rewrite length_firstn, length_skipn. lia.
Qed.

Lemma Qdiv_nonneg_le_1 (a b : Z) :
  (0 <= a <= b)%Z -> (0 < b)%Z ->
  0 <= inject_Z a / inject_Z b /\ inject_Z a / inject_Z b <= 1.
Proof.
  intros [Ha Hab] Hb.
  assert (Hqb : 0 < inject_Z b)
    by (change 0 with (inject_Z 0); now rewrite <- Zlt_Qlt).
  split.
  - apply Qle_shift_div_l; [exact Hqb|]. rewrite Qmult_0_l.
    change 0 with (inject_Z 0). now rewrite <- Zle_Qle.
  - apply Qle_shift_div_r; [exact Hqb|]. rewrite Qmult_1_l.
    now rewrite <- Zle_Qle.
Qed.

Lemma index_counts_and_fraction
    (series : list Q) (season_start season_end exclude_first exclude_last : Z)
    (deficit_threshold_mm : Q) :
  let r := compute_awd_suitability_index series season_start season_end
             exclude_first exclude_last deficit_threshold_mm in
  (0 <= num_suitable_of r <= num_total_of r)%Z
  /\ (num_total_of r <= Z.of_nat (List.length series))%Z
  /\ 0 <= fraction_of r /\ fraction_of r <= 1.
Proof.
  unfold compute_awd_suitability_index.
  destruct (season_start + exclude_first >=? season_end - exclude_last)%Z.
  - cbn. repeat split; try lia; try (apply Qle_refl); discriminate.
  - cbv zeta. unfold fraction_of, num_suitable_of, num_total_of. cbn [fst snd].
    set (active := slice series (season_start + exclude_first)
                     (season_end - exclude_last + 1)).
    assert (Hc := count_true_bounds
                    (map (fun wb => assess_awd_suitability_dekad wb
                                      deficit_threshold_mm) active)).
    rewrite length_map in Hc.
    assert (Hlen := slice_length_le series (season_start + exclude_first)
                      (season_end - exclude_last + 1)).
    fold active in Hlen.
    split; [lia|]. split; [lia|].
    destruct (Z.gtb_spec (Z.of_nat (List.length active)) 0) as [Hpos|Hz].
    + apply Qdiv_nonneg_le_1; lia.
    + split; [apply Qle_refl | discriminate].
Qed.

(** X1.  Whatever the series, the season and the threshold, the counts
    returned by [compute_awd_suitability_index] satisfy
    0 <= num_suitable <= num_total <= len(series), and the fraction lies in
    [0,1]. *)
Theorem suitability_index_bounds
    (series : list Q) (season_start season_end exclude_first exclude_last : Z)
    (deficit_threshold_mm : Q) :
  let r := compute_awd_suitability_index series season_start season_end
             exclude_first exclude_last deficit_threshold_mm in
  (0 <= num_suitable_of r <= num_total_of r)%Z
  /\ (num_total_of r <= Z.of_nat (List.length series))%Z
  /\ 0 <= fraction_of r /\ fraction_of r <= 1.
Proof. apply index_counts_and_fraction. Qed.

Lemma index_window_length
    (series : list Q) (season_start season_end exclude_first exclude_last : Z)
    (deficit_threshold_mm : Q) :
  (0 <= season_start + exclude_first)%Z ->
  (season_start + exclude_first < season_end - exclude_last)%Z ->
  let r := compute_awd_suitability_index series season_start season_end
             exclude_first exclude_last deficit_threshold_mm in
  let len := Z.of_nat (List.length series) in
  num_total_of r
  = (Z.min (season_end - exclude_last + 1) len
     - Z.min (season_start + exclude_first) len)%Z
  /\ snd r = []
  /\ ((season_end - exclude_last < len)%Z ->
      num_total_of r
      = (season_end - exclude_last - (season_start + exclude_first) + 1)%Z).
Proof.
  intros Ha Hae. unfold compute_awd_suitability_index.
  destruct (Z.geb_spec (season_start + exclude_first)
              (season_end - exclude_last)); [lia|].
  cbv zeta. unfold num_total_of. cbn [fst snd].
  rewrite slice_length. unfold slice_bound.
  destruct (Z.ltb_spec (season_start + exclude_first) 0); [lia|].
  destruct (Z.ltb_spec (season_end - exclude_last + 1) 0); [lia|].
  repeat split; lia.
Qed.

(** X2.  When the active window starts at a non-negative index
    a = season_start + exclude_first and a < e = season_end - exclude_last,
    the window is the index range a .. e with both ends included, cut at
    the end of the series: num_total = min(e + 1, len) - min(a, len), and
    nothing is logged even when the series is too short for the season. *)
Theorem active_window_length
    (series : list Q) (season_start season_end exclude_first exclude_last : Z)
    (deficit_threshold_mm : Q) :
  (0 <= season_start + exclude_first)%Z ->
  (season_start + exclude_first < season_end - exclude_last)%Z ->
  let r := compute_awd_suitability_index series season_start season_end
             exclude_first exclude_last deficit_threshold_mm in
  let len := Z.of_nat (List.length series) in
  num_total_of r
  = (Z.min (season_end - exclude_last + 1) len
     - Z.min (season_start + exclude_first) len)%Z
  /\ snd r = []
  /\ ((season_end - exclude_last < len)%Z ->
      num_total_of r
      = (season_end - exclude_last - (season_start + exclude_first) + 1)%Z).
Proof. apply index_window_length. Qed.

Lemma active_window_length_witness :
  let r := compute_awd_suitability_index series_60 1 5 2 1 (-50) in
  let len := Z.of_nat (List.length series_60) in
  num_total_of r = (Z.min (5 - 1 + 1) len - Z.min (1 + 2) len)%Z
  /\ snd r = []
  /\ ((5 - 1 < len)%Z -> num_total_of r = (5 - 1 - (1 + 2) + 1)%Z).
Proof.
  apply (@active_window_length series_60 1 5 2 1 (-50)); lia.
Defined.

(** X3.  With a threshold that is not negative the acceptance band
    [threshold, 0) is empty: no dekad is counted and the fraction is 0,
    whatever the series and the season. *)
Theorem nonnegative_threshold_never_suitable
    (series : list Q) (season_start season_end exclude_first exclude_last : Z)
    (deficit_threshold_mm : Q) :
  0 <= deficit_threshold_mm ->
  let r := compute_awd_suitability_index series season_start season_end
             exclude_first exclude_last deficit_threshold_mm in
  num_suitable_of r = 0%Z /\ fraction_of r == 0.
Proof.
  intros Hthr. unfold compute_awd_suitability_index.
  destruct (season_start + exclude_first >=? season_end - exclude_last)%Z.
  - cbn. split; reflexivity.
  - cbv zeta. unfold fraction_of, num_suitable_of. cbn [fst snd].
    set (active := slice series (season_start + exclude_first)
                     (season_end - exclude_last + 1)).
    assert (Hnone :
      count_true (map (fun wb => assess_awd_suitability_dekad wb
                                   deficit_threshold_mm) active) = 0%Z).
    { unfold count_true. induction active as [|wb l IH]; [reflexivity|].
      simpl. destruct (assess_awd_suitability_dekad wb deficit_threshold_mm)
        eqn:E; [|exact IH].
      apply assess_band in E. destruct E as [E1 E2]. exfalso.
      apply (Qlt_irrefl 0). apply Qle_lt_trans with wb; [|exact E2].
      now apply Qle_trans with deficit_threshold_mm. }
    rewrite Hnone. split; [reflexivity|].
    destruct (Z.of_nat (List.length active) >? 0)%Z; [|reflexivity].
    unfold Qdiv. apply Qmult_0_l.
Qed.

Lemma nonnegative_threshold_never_suitable_witness :
  let r := compute_awd_suitability_index series_60 1 5 2 1 0 in
  num_suitable_of r = 0%Z /\ fraction_of r == 0.
Proof.
  apply (@nonnegative_threshold_never_suitable series_60 1 5 2 1 0).
  vm_compute. congruence.
Defined.

Lemma slice_ext {A} (d : A) (a b : list A) (start stop : Z) :
  List.length a = List.length b ->
  (0 <= start)%Z -> (0 <= stop)%Z ->
  (forall i, (start <= i < stop)%Z ->
     nth (Z.to_nat i) a d = nth (Z.to_nat i) b d) ->
  slice a start stop = slice b start stop.
Proof.
  intros Hlen Hstart Hstop Hnth. unfold slice. rewrite <- Hlen.
  assert (Hlen0 := Nat2Z.is_nonneg (List.length a)).
  set (len := Z.of_nat (List.length a)) in *.
  set (lo := slice_bound len start). set (hi := slice_bound len stop).
  assert (Hlo : lo = Z.min start len)
    by (unfold lo, slice_bound; destruct (Z.ltb_spec start 0); lia).
  assert (Hhi : (0 <= hi <= len)%Z /\ (hi <= stop)%Z)
    by (unfold hi, slice_bound; destruct (Z.ltb_spec stop 0); lia).
  apply (nth_ext _ _ d d).
  - rewrite !length_firstn, !length_skipn. lia.
  - intros k Hk. rewrite length_firstn, length_skipn in Hk.
    rewrite !nth_firstn.
    destruct (Nat.ltb_spec k (Z.to_nat (hi - lo))); [|reflexivity].
    rewrite !nth_skipn.
    assert (Hi : (start <= lo + Z.of_nat k < stop)%Z) by lia.
    specialize (Hnth _ Hi).
    replace (Z.to_nat (lo + Z.of_nat k)) with (Z.to_nat lo + k)%nat in Hnth
      by lia.
    exact Hnth.
Qed.

(** X4.  Only the dekads of the active window count: two series of the
    same length that agree on the indices a .. e (a >= 0) give the same
    result, whatever they hold in the excluded establishment and harvest
    dekads and outside the season. *)
Theorem suitability_index_reads_active_window_only
    (series1 series2 : list Q)
    (season_start season_end exclude_first exclude_last : Z)
    (deficit_threshold_mm : Q) :
  List.length series1 = List.length series2 ->
  (0 <= season_start + exclude_first)%Z ->
  (forall i, (season_start + exclude_first <= i <= season_end - exclude_last)%Z ->
     nth (Z.to_nat i) series1 0 = nth (Z.to_nat i) series2 0) ->
  compute_awd_suitability_index series1 season_start season_end
    exclude_first exclude_last deficit_threshold_mm
  = compute_awd_suitability_index series2 season_start season_end
      exclude_first exclude_last deficit_threshold_mm.
Proof.
  intros Hlen Ha Hagree. unfold compute_awd_suitability_index.
  destruct (Z.geb_spec (season_start + exclude_first)
              (season_end - exclude_last)) as [|Hlt]; [reflexivity|].
  rewrite (@slice_ext Q 0 series1 series2 (season_start + exclude_first)
             (season_end - exclude_last + 1) Hlen Ha);
    [reflexivity | lia |].
  intros i Hi. apply Hagree. lia.
Qed.

Lemma suitability_index_reads_active_window_only_witness :
  compute_awd_suitability_index series_60 1 5 2 1 (-50)
  = compute_awd_suitability_index [-7; -7; -7; -60; -60] 1 5 2 1 (-50).
Proof.
  apply (@suitability_index_reads_active_window_only
           series_60 [-7; -7; -7; -60; -60] 1 5 2 1 (-50)).
  - reflexivity.
  - lia.
  - intros i Hi.
    assert (Hc : i = 3%Z \/ i = 4%Z) by lia.
    destruct Hc as [-> | ->]; reflexivity.
Defined.

End SuitabilityIndexProps.

(** ** Threshold sweep and classification *)

Module SweepProps.

Import WaterBalance WaterBalanceProps SuitabilityIndexProps ClassifyProps.

Lemma classify_range (fraction high moderate : Q) :
  In (classify_suitability_from_fraction fraction high moderate) [1; 2; 3]%Z.
Proof.
  unfold classify_suitability_from_fraction.
  destruct (Qgeb fraction high); [simpl; tauto|].
  destruct (Qgeb fraction moderate); simpl; tauto.
Qed.

Lemma classify_monotone (f1 f2 high moderate : Q) :
  f1 <= f2 ->
  (classify_suitability_from_fraction f1 high moderate
   <= classify_suitability_from_fraction f2 high moderate)%Z.
Proof.
  intros H12. unfold classify_suitability_from_fraction.
  destruct (Qgeb f1 high) eqn:E1h.
  - apply Qgeb_ge in E1h.
    assert (E2h : Qgeb f2 high = true)
      by (apply Qgeb_ge; now apply Qle_trans with f1).
    rewrite E2h. lia.
  - destruct (Qgeb f1 moderate) eqn:E1m.
    + apply Qgeb_ge in E1m.
      assert (E2m : Qgeb f2 moderate = true)
        by (apply Qgeb_ge; now apply Qle_trans with f1).
      rewrite E2m. destruct (Qgeb f2 high); lia.
    + destruct (Qgeb f2 high); [lia|]. destruct (Qgeb f2 moderate); lia.
Qed.

(** X5.  [classify_suitability_from_fraction] is a step function of the
    fraction: it only returns 1, 2 or 3, and a larger fraction never gets a
    lower class, whatever the two thresholds. *)
Theorem classify_from_fraction_monotone (f1 f2 high moderate : Q) :
  f1 <= f2 ->
  In (classify_suitability_from_fraction f1 high moderate) [1; 2; 3]%Z
  /\ (classify_suitability_from_fraction f1 high moderate
      <= classify_suitability_from_fraction f2 high moderate)%Z.
Proof.
  intros H. split; [apply classify_range | now apply classify_monotone].
Qed.

Lemma classify_from_fraction_monotone_witness :
  In (classify_suitability_from_fraction (1 # 2)
        default_high_threshold default_moderate_threshold) [1; 2; 3]%Z
  /\ (classify_suitability_from_fraction (1 # 2)
        default_high_threshold default_moderate_threshold
      <= classify_suitability_from_fraction (7 # 10)
           default_high_threshold default_moderate_threshold)%Z.
Proof.
  apply (@classify_from_fraction_monotone (1 # 2) (7 # 10)).
  vm_compute. congruence.
Defined.

Lemma sweep_rows (series : list Q) (season_start season_end : Z)
    (thresholds : list Q) :
  fst (analyze_threshold_sensitivity series season_start season_end thresholds)
  = map (sensitivity_row_of series season_start season_end) thresholds.
Proof.
  induction thresholds as [|t ts IH]; [reflexivity|].
  cbn [analyze_threshold_sensitivity map fst]. rewrite IH. reflexivity.
Qed.

Lemma sweep_log (series : list Q) (season_start season_end : Z)
    (thresholds : list Q) :
  snd (analyze_threshold_sensitivity series season_start season_end thresholds)
  = flat_map (fun t => snd (compute_awd_suitability_index series
                              season_start season_end
                              default_exclude_first default_exclude_last t))
             thresholds.
Proof.
  induction thresholds as [|t ts IH]; [reflexivity|].
  cbn [analyze_threshold_sensitivity flat_map snd]. rewrite IH. reflexivity.
Qed.

(** X6.  [analyze_threshold_sensitivity] gives one row per threshold, in
    the order of the thresholds.  In every row the counts satisfy
    0 <= num_suitable <= num_total, the fraction lies in [0,1], the
    percentage is 100 times the fraction, the class is 1, 2 or 3, and it is
    the class that the validating [utils.classify_awd_suitability] returns
    for that fraction: the sweep never feeds the classifier a fraction
    outside [0,1]. *)
Theorem sweep_rows_are_well_formed
    (series : list Q) (season_start season_end : Z) (thresholds : list Q) :
  let rows := fst (analyze_threshold_sensitivity series season_start
                     season_end thresholds) in
  map threshold_mm rows = thresholds
  /\ Forall (fun row =>
       (0 <= num_suitable_dekads row <= num_total_dekads row)%Z
       /\ 0 <= fraction_suitable row /\ fraction_suitable row <= 1
       /\ percentage_suitable row == 100 * fraction_suitable row
       /\ In (suitability_class row) [1; 2; 3]%Z
       /\ Utils.classify_awd_suitability (fraction_suitable row) None
          = Ok (suitability_class row)) rows.
Proof.
  cbv zeta. rewrite sweep_rows. split.
  - rewrite map_map. cbn [sensitivity_row_of threshold_mm]. apply map_id.
  - apply Forall_forall. intros row Hrow. apply in_map_iff in Hrow.
    destruct Hrow as (t & <- & _).
    unfold sensitivity_row_of.
    cbn [num_suitable_dekads num_total_dekads fraction_suitable
         percentage_suitable suitability_class].
    destruct (index_counts_and_fraction series season_start season_end
                default_exclude_first default_exclude_last t)
      as (Hc & _ & H0 & H1).
    split; [exact Hc|]. split; [exact H0|]. split; [exact H1|].
    split; [apply Qmult_comm|]. split; [apply classify_range|].
    now apply classifiers_agree_in_range.
Qed.

(** X7.  Across the rows of one sweep a lower threshold never gives a lower
    fraction, count or class: for two rows with threshold t1 <= t2 the row of
    t2 has the smaller or equal fraction, count and class, and both rows have
    the same total. *)
Theorem sweep_is_antitone_in_threshold
    (series : list Q) (season_start season_end : Z) (thresholds : list Q)
    (row1 row2 : sensitivity_row) :
  In row1 (fst (analyze_threshold_sensitivity series season_start
                  season_end thresholds)) ->
  In row2 (fst (analyze_threshold_sensitivity series season_start
                  season_end thresholds)) ->
  threshold_mm row1 <= threshold_mm row2 ->
  fraction_suitable row2 <= fraction_suitable row1
  /\ (num_suitable_dekads row2 <= num_suitable_dekads row1)%Z
  /\ num_total_dekads row2 = num_total_dekads row1
  /\ (suitability_class row2 <= suitability_class row1)%Z.
Proof.
  rewrite sweep_rows. intros H1 H2.
  apply in_map_iff in H1. destruct H1 as (t1 & <- & _).
  apply in_map_iff in H2. destruct H2 as (t2 & <- & _).
  unfold sensitivity_row_of.
  cbn [threshold_mm num_suitable_dekads num_total_dekads fraction_suitable
       suitability_class].
  intros H12.
  destruct (@suitability_index_antitone series season_start season_end
              default_exclude_first default_exclude_last t1 t2 H12)
    as (Hf & Hn & Ht).
  split; [exact Hf|]. split; [exact Hn|]. split; [exact Ht|].
  now apply classify_monotone.
Qed.

Lemma sweep_is_antitone_in_threshold_witness :
  let rows := fst (analyze_threshold_sensitivity series_60 1 5 [-70; -50]) in
  let row1 := sensitivity_row_of series_60 1 5 (-70) in
  let row2 := sensitivity_row_of series_60 1 5 (-50) in
  fraction_suitable row2 <= fraction_suitable row1
  /\ (num_suitable_dekads row2 <= num_suitable_dekads row1)%Z
  /\ num_total_dekads row2 = num_total_dekads row1
  /\ (suitability_class row2 <= suitability_class row1)%Z.
Proof.
  apply (@sweep_is_antitone_in_threshold series_60 1 5 [-70; -50]).
  - left. reflexivity.
  - right. left. reflexivity.
  - vm_compute. congruence.
Defined.

(** X8.  The sweep always excludes two dekads after the season start and
    one before its end.  For a season with season_end - season_start <= 3
    the active window is therefore degenerate: every row has fraction 0,
    counts 0 and class 1 (Low), and one warning is logged per threshold. *)
Theorem sweep_on_short_season
    (series : list Q) (season_start season_end : Z) (thresholds : list Q) :
  (season_end - season_start <= 3)%Z ->
  let out := analyze_threshold_sensitivity series season_start season_end
               thresholds in
  Forall (fun row =>
            fraction_suitable row = 0 /\ suitability_class row = 1%Z
            /\ num_suitable_dekads row = 0%Z /\ num_total_dekads row = 0%Z)
         (fst out)
  /\ snd out
     = map (fun _ => Warning "Active season window too small after exclusions")
           thresholds.
Proof.
  intros Hshort. cbv zeta. rewrite sweep_rows, sweep_log.
  assert (Hdeg : forall t,
    compute_awd_suitability_index series season_start season_end
      default_exclude_first default_exclude_last t
    = ((0, 0%Z, 0%Z),
       [Warning "Active season window too small after exclusions"])).
  { intros t. unfold compute_awd_suitability_index,
      default_exclude_first, default_exclude_last.
    destruct (Z.geb_spec (season_start + 2) (season_end - 1));
      [reflexivity | lia]. }
  split.
  - apply Forall_forall. intros row Hrow. apply in_map_iff in Hrow.
    destruct Hrow as (t & <- & _). unfold sensitivity_row_of.
    rewrite Hdeg. repeat split.
  - induction thresholds as [|t ts IH]; [reflexivity|].
    cbn [flat_map map]. rewrite Hdeg, IH. reflexivity.
Qed.

Lemma sweep_on_short_season_witness :
  let out := analyze_threshold_sensitivity series_60 10 13 [-25; -50] in
  Forall (fun row =>
            fraction_suitable row = 0 /\ suitability_class row = 1%Z
            /\ num_suitable_dekads row = 0%Z /\ num_total_dekads row = 0%Z)
         (fst out)
  /\ snd out
     = map (fun _ => Warning "Active season window too small after exclusions")
           [-25; -50].
Proof.
  apply (@sweep_on_short_season series_60 10 13 [-25; -50]). lia.
Defined.

End SweepProps.

(** ** Irrigation floor and aggregation to dekads *)

Module DekadAggregationProps.

Import WaterBalance.

Lemma np_maximum_spec (x y : Q) :
  y <= np_maximum x y /\ x <= np_maximum x y
  /\ (y <= x -> np_maximum x y = x) /\ (x < y -> np_maximum x y = y).
Proof.
  unfold np_maximum. destruct (Qltb x y) eqn:E.
  - apply Qltb_lt in E. repeat split.
    + apply Qle_refl.
    + now apply Qlt_le_weak.
    + intros H. exfalso. exact (Qlt_not_le _ _ E H).
  - apply Qltb_false_ge in E. repeat split.
    + exact E.
    + apply Qle_refl.
    + intros H. exfalso. exact (Qlt_not_le _ _ H E).
Qed.

(** X9.  [apply_minimum_irrigation] keeps the length of the series; every
    value of the result is at least the threshold and at least the original
    value, values at or above the threshold are unchanged and the others
    become the threshold; the water balance of a dekad never decreases; and
    applying the floor twice changes nothing more. *)
Theorem minimum_irrigation_is_a_floor (rainfall_dekad : list Q) (threshold_mm : Q) :
  let out := apply_minimum_irrigation rainfall_dekad threshold_mm in
  Forall2 (fun r o =>
             threshold_mm <= o /\ r <= o
             /\ (threshold_mm <= r -> o = r) /\ (r < threshold_mm -> o = threshold_mm)
             /\ forall pet_mm percolation_mm,
                  compute_water_balance_dekad r pet_mm percolation_mm
                  <= compute_water_balance_dekad o pet_mm percolation_mm)
          rainfall_dekad out
  /\ List.length out = List.length rainfall_dekad
  /\ apply_minimum_irrigation out threshold_mm = out.
Proof.
  cbv zeta. unfold apply_minimum_irrigation. split; [|split].
  - induction rainfall_dekad as [|r l IH]; simpl; constructor; [|exact IH].
    destruct (np_maximum_spec r threshold_mm) as (H1 & H2 & H3 & H4).
    repeat split; try assumption.
    intros pet perc. unfold compute_water_balance_dekad.
    unfold Qminus. apply Qplus_le_compat; [exact H2 | apply Qle_refl].
  - apply length_map.
  - rewrite map_map. apply map_ext. intros r.
    destruct (np_maximum_spec r threshold_mm) as (H1 & _).
    destruct (np_maximum_spec (np_maximum r threshold_mm) threshold_mm)
      as (_ & _ & H3 & _).
    now apply H3.
Qed.

(** X10.  The bucket of a day of the month is ((day - 1) div 10) + 1: days
    1-10 fall in bucket 1, 11-20 in bucket 2, 21-30 in bucket 3, and day 31
    in a fourth bucket of its own. *)
Theorem dekad_id_buckets (day_in_month : nat) :
  (1 <= day_in_month <= 31)%nat ->
  (1 <= dekad_id day_in_month <= 4)%nat
  /\ (dekad_id day_in_month = 1 <-> day_in_month <= 10)%nat
  /\ (dekad_id day_in_month = 2 <-> 11 <= day_in_month <= 20)%nat
  /\ (dekad_id day_in_month = 3 <-> 21 <= day_in_month <= 30)%nat
  /\ (dekad_id day_in_month = 4 <-> day_in_month = 31)%nat.
Proof.
  intros H. unfold dekad_id.
  assert (Hq := Nat.div_mod_eq (day_in_month - 1) 10).
  assert (Hr := Nat.mod_upper_bound (day_in_month - 1) 10 ltac:(lia)).
  lia.
Qed.

Lemma dekad_id_buckets_witness :
  (1 <= dekad_id 31 <= 4)%nat
  /\ (dekad_id 31 = 1 <-> 31 <= 10)%nat
  /\ (dekad_id 31 = 2 <-> 11 <= 31 <= 20)%nat
  /\ (dekad_id 31 = 3 <-> 21 <= 31 <= 30)%nat
  /\ (dekad_id 31 = 4 <-> 31 = 31)%nat.
Proof.
  apply (@dekad_id_buckets 31). lia.
Defined.

Lemma period_lt_trans (a b c : string) :
  period_lt a b -> period_lt b c -> period_lt a c.
Proof.
  unfold period_lt. intros H1 H2.
  apply OrderedTypeEx.String_as_OT.cmp_lt in H1.
  apply OrderedTypeEx.String_as_OT.cmp_lt in H2.
  apply OrderedTypeEx.String_as_OT.cmp_lt.
  eapply OrderedTypeEx.String_as_OT.lt_trans; eassumption.
Qed.

Lemma period_lt_neq (a b : string) : period_lt a b -> a <> b.
Proof.
  unfold period_lt. intros H ->.
  assert (E : String.compare b b = Eq)
    by now apply OrderedTypeEx.String_as_OT.cmp_eq.
  congruence.
Qed.

Lemma period_gt_lt (a b : string) : String.compare a b = Gt -> period_lt b a.
Proof.
  unfold period_lt. rewrite String.compare_antisym.
  destruct (String.compare b a); simpl; congruence.
Qed.

Lemma fold_left_Qplus (xs : list Q) (a : Q) :
  fold_left Qplus xs a == a + qsum xs.
Proof.
  unfold qsum. revert a. induction xs as [|x xs IH]; intros a; simpl.
  - ring.
  - rewrite (IH (a + x)), (IH (0 + x)). ring.
Qed.

Lemma qsum_cons (x : Q) (xs : list Q) : qsum (x :: xs) == x + qsum xs.
Proof.
  unfold qsum at 1. simpl. rewrite fold_left_Qplus. ring.
Qed.

Lemma qsum_app (l1 l2 : list Q) : qsum (l1 ++ l2) == qsum l1 + qsum l2.
Proof.
  induction l1 as [|x l1 IH]; simpl.
  - unfold qsum at 2. simpl. ring.
  - rewrite !qsum_cons, IH. ring.
Qed.

Lemma group_add_keys (k : string) (d : datetime) (v : Q)
    (g : list (string * (datetime * Q))) (k' : string) :
  In k' (map fst (group_add k d v g)) <-> k' = k \/ In k' (map fst g).
Proof.
  induction g as [|[k0 [d0 t0]] rest IH]; simpl.
  - intuition.
  - destruct (String.compare k k0) eqn:E; simpl.
    + apply String.compare_eq_iff in E. subst k0. intuition.
    + intuition.
    + rewrite IH. intuition.
Qed.

Lemma group_add_sorted (k : string) (d : datetime) (v : Q)
    (g : list (string * (datetime * Q))) :
  StronglySorted period_lt (map fst g) ->
  StronglySorted period_lt (map fst (group_add k d v g)).
Proof.
  induction g as [|[k0 [d0 t0]] rest IH]; simpl; intros H.
  - repeat constructor.
  - apply StronglySorted_inv in H. destruct H as [Hs Hall].
    destruct (String.compare k k0) eqn:E; simpl.
    + now constructor.
    + constructor; [now constructor|].
      constructor; [exact E|].
      rewrite Forall_forall in Hall |- *. intros x Hx.
      apply period_lt_trans with k0; [exact E | now apply Hall].
    + constructor; [now apply IH|].
      rewrite Forall_forall in Hall |- *. intros x Hx.
      apply group_add_keys in Hx. destruct Hx as [-> | Hx].
      * now apply period_gt_lt.
      * now apply Hall.
Qed.

Lemma group_add_entries (k : string) (d : datetime) (v : Q)
    (g : list (string * (datetime * Q))) (k' : string) (d' : datetime) (t' : Q) :
  StronglySorted period_lt (map fst g) ->
  In (k', (d', t')) (group_add k d v g) ->
  (k' <> k /\ In (k', (d', t')) g)
  \/ (k' = k /\ d' = d /\ t' = v /\ ~ In k (map fst g))
  \/ (k' = k /\ exists t, In (k, (d', t)) g /\ t' = t + v).
Proof.
  induction g as [|[k0 [d0 t0]] rest IH]; simpl; intros Hs Hin.
  - destruct Hin as [[= <- <- <-] | []]. right. left. tauto.
  - apply StronglySorted_inv in Hs. destruct Hs as [Hs Hall].
    rewrite Forall_forall in Hall.
    assert (Hrest : forall e, In e rest -> fst e <> k0).
    { intros e He Heq. apply (period_lt_neq (a := k0) (b := fst e));
        [apply Hall; now apply in_map | congruence]. }
    destruct (String.compare k k0) eqn:E.
    + apply String.compare_eq_iff in E. subst k0.
      destruct Hin as [[= <- <- <-] | Hin].
      * right. right. split; [reflexivity|]. exists t0. auto.
      * left. split; [exact (Hrest _ Hin) | now right].
    + assert (Hk0 : k <> k0) by now apply period_lt_neq.
      destruct Hin as [[= <- <- <-] | Hin].
      * right. left. repeat split. intros [Heq | Hk].
        -- congruence.
        -- apply (period_lt_neq (a := k) (b := k)); [|reflexivity].
           apply period_lt_trans with k0; [exact E | now apply Hall].
      * left. split; [|exact Hin].
        destruct Hin as [[= <- <- <-] | Hin]; [congruence|].
        intros ->. apply (period_lt_neq (a := k) (b := k)); [|reflexivity].
        apply period_lt_trans with k0; [exact E|].
        apply Hall. change k with (fst (k, (d', t'))). now apply in_map.
    + assert (Hk0 : k0 <> k) by (apply period_lt_neq; now apply period_gt_lt).
      destruct Hin as [[= <- <- <-] | Hin].
      * left. split; [exact Hk0 | now left].
      * destruct (IH Hs Hin) as [[H1 H2] | [(H1 & H2 & H3 & H4) | (H1 & t & H2 & H3)]].
        -- left. split; [exact H1 | now right].
        -- right. left. repeat split; try assumption.
           intros [Heq | Hk]; [congruence | contradiction].
        -- right. right. split; [exact H1|]. exists t. split; [now right | exact H3].
Qed.

Lemma period_total_app (rows : list (datetime * Q)) (d : datetime) (v : Q)
    (key : string) :
  period_total (rows ++ [(d, v)]) key
  == period_total rows key
     + (if String.eqb (dekad_period d) key then v else 0).
Proof.
  unfold period_total. rewrite filter_app, map_app, qsum_app.
  cbn [filter fst]. destruct (String.eqb (dekad_period d) key); cbn [map snd].
  - rewrite qsum_cons. unfold qsum at 2. simpl. ring.
  - reflexivity.
Qed.

Lemma period_total_absent (rows : list (datetime * Q)) (key : string) :
  (forall row, In row rows -> dekad_period (fst row) <> key) ->
  period_total rows key = 0.
Proof.
  intros H. unfold period_total.
  assert (E : filter (fun row => String.eqb (dekad_period (fst row)) key) rows = []).
  { induction rows as [|row rows IH]; [reflexivity|]. simpl.
    destruct (String.eqb_spec (dekad_period (fst row)) key) as [Heq|_].
    - exfalso. apply (H row); [now left | exact Heq].
    - apply IH. intros r Hr. apply H. now right. }
  now rewrite E.
Qed.

Lemma groups_of_rows_step (g : list (string * (datetime * Q)))
    (rows : list (datetime * Q)) (d : datetime) (v : Q) :
  groups_of_rows g rows ->
  groups_of_rows (group_add (dekad_period d) d v g) (rows ++ [(d, v)]).
Proof.
  intros (Hs & Hent & Hrows). split; [|split].
  - now apply group_add_sorted.
  - intros key d' total Hin. rewrite map_app, in_app_iff, period_total_app.
    destruct (group_add_entries _ _ _ _ _ _ _ Hs Hin)
      as [[Hne Hold] | [(-> & -> & -> & Hnew) | (-> & t & Hold & ->)]].
    + destruct (Hent _ _ _ Hold) as (H1 & H2 & H3).
      split; [exact H1|]. split; [now left|].
      destruct (String.eqb_spec (dekad_period d) key) as [Heq|_];
        [congruence|]. rewrite H3. ring.
    + split; [reflexivity|]. split; [right; now left|].
      rewrite String.eqb_refl, period_total_absent; [ring|].
      intros row Hrow Heq. apply Hnew. rewrite <- Heq. now apply Hrows.
    + destruct (Hent _ _ _ Hold) as (H1 & H2 & H3).
      split; [exact H1|]. split; [now left|].
      rewrite String.eqb_refl, H3. reflexivity.
  - intros row Hrow. apply group_add_keys. apply in_app_iff in Hrow.
    destruct Hrow as [Hrow | [<- | []]]; [right; now apply Hrows | now left].
Qed.

Lemma groupby_groups_of_rows (rows : list (datetime * Q)) :
  groups_of_rows (groupby_dekad_period rows) rows.
Proof.
  unfold groupby_dekad_period.
  assert (Hgen : forall rows2 g rows1,
    groups_of_rows g rows1 ->
    groups_of_rows
      (fold_left (fun groups row =>
                    group_add (dekad_period (fst row)) (fst row) (snd row) groups)
                 rows2 g)
      (rows1 ++ rows2)).
  { induction rows2 as [|[d v] rows2 IH]; intros g rows1 Hinv.
    - now rewrite app_nil_r.
    - cbn [fold_left fst snd].
      replace (rows1 ++ (d, v) :: rows2) with ((rows1 ++ [(d, v)]) ++ rows2)
        by (rewrite <- app_assoc; reflexivity).
      apply IH. now apply groups_of_rows_step. }
  apply (Hgen rows [] []).
  split; [constructor|]. split; [intros ? ? ? []|intros ? []].
Qed.

Lemma period_total_rainfall (rows : list (datetime * Q)) (key : string) :
  period_total rows key = qsum (period_rainfall rows key).
Proof. reflexivity. Qed.

(** Splitting rows by key over a duplicate-free list of keys that covers
    them loses no row and repeats none. *)
Lemma rows_of_absent_key {A} (key : A -> string) (row : A) (rows : list A)
    (keys : list string) :
  ~ In (key row) keys ->
  flat_map (fun k => filter (fun r => String.eqb (key r) k) (row :: rows)) keys
  = flat_map (fun k => filter (fun r => String.eqb (key r) k) rows) keys.
Proof.
  induction keys as [|k keys IH]; intros Hnin; [reflexivity|].
  cbn [flat_map]. rewrite IH by (intros Hin; apply Hnin; now right).
  f_equal. cbn [filter].
  destruct (String.eqb_spec (key row) k) as [Heq|_]; [|reflexivity].
  exfalso. apply Hnin. now left.
Qed.

Lemma rows_of_present_key {A} (key : A -> string) (row : A) (rows : list A)
    (keys : list string) :
  NoDup keys -> In (key row) keys ->
  Permutation
    (flat_map (fun k => filter (fun r => String.eqb (key r) k) (row :: rows)) keys)
    (row :: flat_map (fun k => filter (fun r => String.eqb (key r) k) rows) keys).
Proof.
  induction 1 as [|k keys Hnin Hnd IH]; intros Hin; [destruct Hin|].
  cbn [flat_map].
  assert (Hhead :
    filter (fun r => String.eqb (key r) k) (row :: rows)
    = if String.eqb (key row) k
      then row :: filter (fun r => String.eqb (key r) k) rows
      else filter (fun r => String.eqb (key r) k) rows) by reflexivity.
  rewrite Hhead. clear Hhead.
  destruct (String.eqb_spec (key row) k) as [Heq|Hne].
  - rewrite rows_of_absent_key by (rewrite Heq; exact Hnin). reflexivity.
  - destruct Hin as [Hk|Hin]; [congruence|].
    rewrite (IH Hin). symmetry. apply Permutation_middle.
Qed.

Lemma rows_split_by_key {A} (key : A -> string) (rows : list A)
    (keys : list string) :
  NoDup keys -> (forall row, In row rows -> In (key row) keys) ->
  Permutation
    (flat_map (fun k => filter (fun r => String.eqb (key r) k) rows) keys)
    rows.
Proof.
  intros Hnd. induction rows as [|row rows IH]; intros Hcov.
  - cbn [filter]. clear Hnd Hcov.
    induction keys as [|k keys IHk]; [constructor | exact IHk].
  - rewrite rows_of_present_key; [|exact Hnd|apply Hcov; now left].
    constructor. apply IH. intros r Hr. apply Hcov. now right.
Qed.

Lemma flat_map_map_snd {A B K} (f : K -> list (A * B)) (keys : list K) :
  flat_map (fun k => map snd (f k)) keys = map snd (flat_map f keys).
Proof.
  induction keys as [|k keys IH]; [reflexivity|].
  cbn [flat_map]. now rewrite map_app, IH.
Qed.

Lemma flat_map_of_map {A B C} (f : B -> list C) (g : A -> B) (l : list A) :
  flat_map (fun x => f (g x)) l = flat_map f (map g l).
Proof.
  induction l as [|x l IH]; [reflexivity|].
  cbn [flat_map map]. now rewrite IH.
Qed.

Lemma combine_fst_snd {A B} (l : list A) (l' : list B) :
  List.length l = List.length l' ->
  map fst (combine l l') = l /\ map snd (combine l l') = l'.
Proof.
  revert l'. induction l as [|x l IH]; intros [|y l'] H; simpl in *;
    try discriminate; [auto|].
  destruct (IH l' ltac:(lia)) as [-> ->]. auto.
Qed.

Lemma strongly_sorted_nodup (keys : list string) :
  StronglySorted period_lt keys -> NoDup keys.
Proof.
  induction 1 as [|k keys Hs IH Hall]; constructor; [|exact IH].
  intros Hin. rewrite Forall_forall in Hall.
  exact (period_lt_neq (Hall _ Hin) eq_refl).
Qed.

(** X11.  On two columns of the same length [aggregate_rainfall_to_dekads]
    returns one date and one total per group; each returned date is one of
    the input dates, each total is the sum of the rainfall of the days whose
    period ['YYYY-MM-Dk'] is that of the date, and the rainfall values of
    the returned periods, taken together, are the daily values in another
    order: no day is lost or counted twice. *)
Theorem dekad_totals_are_period_sums
    (dates : list datetime) (rainfall_daily : list Q) :
  List.length dates = List.length rainfall_daily ->
  exists dekad_dates dekad_rainfall,
    aggregate_rainfall_to_dekads dates rainfall_daily
    = Ok (dekad_dates, dekad_rainfall)
    /\ Forall2 (fun d total =>
                  In d dates
                  /\ total == period_total (combine dates rainfall_daily)
                                (dekad_period d))
               dekad_dates dekad_rainfall
    /\ Permutation
         (flat_map (fun d => period_rainfall (combine dates rainfall_daily)
                               (dekad_period d))
                   dekad_dates)
         rainfall_daily.
Proof.
  intros Hlen. unfold aggregate_rainfall_to_dekads.
  rewrite Hlen, Nat.eqb_refl. do 2 eexists. split; [reflexivity|].
  set (rows := combine dates rainfall_daily).
  destruct (combine_fst_snd dates rainfall_daily Hlen) as [Hd Hr].
  fold rows in Hd, Hr.
  destruct (groupby_groups_of_rows rows) as (Hs & Hent & Hrows).
  split.
  - clear Hs Hrows.
    induction (groupby_dekad_period rows) as [|[k [d t]] g IH];
      cbn [map fst snd]; constructor.
    + destruct (Hent k d t (or_introl eq_refl)) as (H1 & H2 & H3).
      rewrite Hd in H2. split; [exact H2|]. now rewrite H1.
    + apply IH. intros key d' total Hin. apply Hent. now right.
  - set (g := groupby_dekad_period rows) in *.
    assert (Hkeys : map dekad_period (map (fun e => fst (snd e)) g) = map fst g).
    { rewrite map_map. apply map_ext_in. intros [k [d t]] Hin.
      cbn [fst snd]. now destruct (Hent k d t Hin) as (H1 & _). }
    rewrite (flat_map_of_map (period_rainfall rows) dekad_period), Hkeys.
    unfold period_rainfall. rewrite flat_map_map_snd, <- Hr.
    apply Permutation_map.
    apply (rows_split_by_key (fun row : datetime * Q => dekad_period (fst row))).
    + now apply strongly_sorted_nodup.
    + exact Hrows.
Qed.

Lemma dekad_totals_are_period_sums_witness :
  exists dekad_dates dekad_rainfall,
    aggregate_rainfall_to_dekads days_may_june rain_may_june
    = Ok (dekad_dates, dekad_rainfall)
    /\ Forall2 (fun d total =>
                  In d days_may_june
                  /\ total == period_total (combine days_may_june rain_may_june)
                                (dekad_period d))
               dekad_dates dekad_rainfall
    /\ Permutation
         (flat_map (fun d => period_rainfall (combine days_may_june rain_may_june)
                               (dekad_period d))
                   dekad_dates)
         rain_may_june.
Proof.
  apply (dekad_totals_are_period_sums days_may_june rain_may_june).
  reflexivity.
Defined.

(** X12.  On two columns of the same length the groups returned by
    [aggregate_rainfall_to_dekads] come in strictly increasing order of
    their period key, so no period appears twice; every day of the input has
    its period among them; and there are at most as many groups as days. *)
Theorem one_group_per_populated_period
    (dates : list datetime) (rainfall_daily : list Q) :
  List.length dates = List.length rainfall_daily ->
  exists dekad_dates dekad_rainfall,
    aggregate_rainfall_to_dekads dates rainfall_daily
    = Ok (dekad_dates, dekad_rainfall)
    /\ StronglySorted period_lt (map dekad_period dekad_dates)
    /\ NoDup (map dekad_period dekad_dates)
    /\ (forall d, In d dates ->
          In (dekad_period d) (map dekad_period dekad_dates))
    /\ List.length dekad_dates = List.length dekad_rainfall
    /\ (List.length dekad_dates <= List.length dates)%nat.
Proof.
  intros Hlen. unfold aggregate_rainfall_to_dekads.
  assert (E : (List.length dates =? List.length rainfall_daily)%nat = true)
    by now apply Nat.eqb_eq.
  rewrite E. do 2 eexists. split; [reflexivity|].
  set (rows := combine dates rainfall_daily).
  destruct (combine_fst_snd dates rainfall_daily Hlen) as [Hd Hr].
  fold rows in Hd, Hr.
  destruct (groupby_groups_of_rows rows) as (Hs & Hent & Hrows).
  set (g := groupby_dekad_period rows) in *.
  assert (Hkeys : map dekad_period (map (fun e => fst (snd e)) g) = map fst g).
  { rewrite map_map. apply map_ext_in. intros [k [d t]] Hin.
    cbn [fst snd]. now destruct (Hent k d t Hin) as (H1 & _). }
  rewrite Hkeys.
  assert (Hnd := strongly_sorted_nodup Hs).
  split; [exact Hs|]. split; [exact Hnd|]. split; [|split].
  - intros d Hin. rewrite <- Hd in Hin. apply in_map_iff in Hin.
    destruct Hin as (row & <- & Hrow). now apply Hrows.
  - now rewrite !length_map.
  - rewrite length_map, <- (length_map fst g),
      <- (length_map dekad_period dates).
    apply NoDup_incl_length; [exact Hnd|].
    intros k Hk. apply in_map_iff in Hk. destruct Hk as ([k' [d t]] & <- & Hin).
    destruct (Hent k' d t Hin) as (H1 & H2 & _). cbn [fst].
    rewrite <- H1. apply in_map. now rewrite <- Hd.
Qed.

Lemma one_group_per_populated_period_witness :
  exists dekad_dates dekad_rainfall,
    aggregate_rainfall_to_dekads days_may_june rain_may_june
    = Ok (dekad_dates, dekad_rainfall)
    /\ StronglySorted period_lt (map dekad_period dekad_dates)
    /\ NoDup (map dekad_period dekad_dates)
    /\ (forall d, In d days_may_june ->
          In (dekad_period d) (map dekad_period dekad_dates))
    /\ List.length dekad_dates = List.length dekad_rainfall
    /\ (List.length dekad_dates <= List.length days_may_june)%nat.
Proof.
  apply (one_group_per_populated_period days_may_june rain_may_june).
  reflexivity.
Defined.

End DekadAggregationProps.

(** ** Utilities and input validation *)

Module UtilsProps.

Import Utils.

Lemma Qle_bool_false_lt (x y : Q) : Qle_bool x y = false -> y < x.
Proof.
  intros H. apply Qnot_le_lt. intros Hle. apply Qle_bool_iff in Hle. congruence.
Qed.

(** Case analysis on every order test of the goal. *)
Ltac qcases :=
  unfold Qgtb, Qltb, Qgeb, Qleb in *;
  repeat match goal with
         | |- context [Qle_bool ?a ?b] =>
             let E := fresh "E" in
             destruct (Qle_bool a b) eqn:E;
             [apply Qle_bool_iff in E | apply Qle_bool_false_lt in E]
         end;
  cbn [negb andb orb].

(** X13.  [compute_dekad_for_doy] raises [ValueError] exactly when the day
    is outside 1..366.  Otherwise it returns the number k of the ten-day
    block that holds the day, 10(k-1) < day <= 10k; k ranges over 1..37, and
    the days 361 to 366 get the number 37. *)
Theorem dekad_for_doy_range (day_of_year : Z) :
  match compute_dekad_for_doy day_of_year with
  | Raise e => e = ValueError /\ (day_of_year < 1 \/ 366 < day_of_year)%Z
  | Ok k =>
      (1 <= day_of_year <= 366)%Z /\ (1 <= k <= 37)%Z
      /\ (10 * (k - 1) < day_of_year <= 10 * k)%Z
      /\ (k = 37 <-> 361 <= day_of_year)%Z
  end.
Proof.
  unfold compute_dekad_for_doy.
  destruct (Z.leb_spec 1 day_of_year), (Z.leb_spec day_of_year 366);
    cbn [andb negb]; try (split; [reflexivity | lia]).
  assert (Hq := Z.div_mod (day_of_year - 1) 10 ltac:(lia)).
  assert (Hr := Z.mod_pos_bound (day_of_year - 1) 10 ltac:(lia)).
  lia.
Qed.

(** X14.  [classify_soil_texture] gives every soil one class in 1..4, and
    the four branches do not overlap: class 1 exactly for clay >= 45, class 2
    for 20 <= clay < 45 with sand <= 52, class 3 for 20 <= clay < 35 with
    sand > 52, and class 4 for the rest, which is clay < 20 or
    35 <= clay < 45 with sand > 52. *)
Theorem soil_texture_classes (clay_pct sand_pct : Q) :
  let c := classify_soil_texture clay_pct sand_pct in
  In c [1; 2; 3; 4]%Z
  /\ (c = 1%Z <-> 45 <= clay_pct)
  /\ (c = 2%Z <-> 20 <= clay_pct /\ clay_pct < 45 /\ sand_pct <= 52)
  /\ (c = 3%Z <-> 20 <= clay_pct /\ clay_pct < 35 /\ 52 < sand_pct)
  /\ (c = 4%Z <-> clay_pct < 20
                  \/ (35 <= clay_pct /\ clay_pct < 45 /\ 52 < sand_pct)).
Proof.
  cbv zeta. unfold classify_soil_texture. qcases;
    (split; [simpl; tauto|]);
    repeat split; intros; try discriminate; try lra;
    try (exfalso; intuition lra); try (left; lra); try (right; lra).
Qed.

(** X15.  [validate_bounding_box] accepts exactly the lists of four
    coordinates [min_lon, min_lat, max_lon, max_lat] with
    -180 <= min_lon < max_lon <= 180 and -90 <= min_lat < max_lat <= 90;
    any list of another length is refused. *)
Theorem bounding_box_valid_iff (bbox : list Q) :
  validate_bounding_box bbox = true <->
  exists min_lon min_lat max_lon max_lat,
    bbox = [min_lon; min_lat; max_lon; max_lat]
    /\ -180 <= min_lon /\ min_lon < max_lon /\ max_lon <= 180
    /\ -90 <= min_lat /\ min_lat < max_lat /\ max_lat <= 90.
Proof.
  split.
  - destruct bbox as [|a [|b [|c [|d [|e l]]]]]; try discriminate.
    unfold validate_bounding_box. qcases; try discriminate.
    intros _. exists a, b, c, d. repeat split; lra.
  - intros (a & b & c & d & -> & H).
    unfold validate_bounding_box. qcases; try reflexivity; exfalso; lra.
Qed.

End UtilsProps.

(** ** Fragmentation summaries *)

Module FragmentationSummaryProps.

Import SpatialAnalysis FragmentationProps DekadAggregationProps.

(** The summary that [compute_fragmentation_index] returns when the
    labelling finds at least one patch. *)
Lemma fragmentation_summary_explicit
    (label : ndarray bool -> ndarray nat * nat)
    (suitability_map : ndarray bool) :
  labelling_ok suitability_map (label suitability_map) = true ->
  snd (label suitability_map) <> 0%nat ->
  let sizes := patch_sizes_of (fst (label suitability_map)) in
  sizes <> [] /\ Forall (fun k => (1 <= k)%nat) sizes
  /\ List.length sizes = snd (label suitability_map)
  /\ exists m,
       amin sizes = Ok m
       /\ compute_fragmentation_index label suitability_map
          = Ok (mkFrag (snd (label suitability_map)) (mean sizes)
                  (list_max sizes) m
                  (mean sizes / Qnat (list_max sizes)) (list_sum sizes)).
Proof.
  unfold compute_fragmentation_index.
  destruct (label suitability_map) as [labeled_array n] eqn:El.
  cbn [fst snd]. intros Hok Hn.
  destruct (patch_sizes_of_labelling _ _ Hok Hn) as (Hsizes & Hpos & Hlen).
  fold (patch_sizes_of labeled_array).
  set (sizes := patch_sizes_of labeled_array) in *.
  assert (Hne : sizes <> []).
  { intros E. rewrite E in Hlen. simpl in Hlen. congruence. }
  split; [exact Hne|]. split; [exact Hpos|]. split; [exact Hlen|].
  destruct (Nat.eqb_spec n 0) as [|_]; [contradiction|].
  rewrite (amax_list_max Hne). cbn [bind].
  destruct (amin_ok Hne) as (m & Hm). exists m. split; [exact Hm|].
  rewrite Hm. cbn [bind].
  assert (Hmax := list_max_pos Hne Hpos).
  destruct (Nat.ltb_spec 0 (list_max sizes)) as [_|]; [|lia].
  reflexivity.
Qed.

Lemma qmax_of_sizes (x : nat) (xs : list nat) :
  qmax (Qnat x) (map Qnat xs) = Qnat (fold_left Nat.max xs x).
Proof.
  unfold qmax. revert x. induction xs as [|y ys IH]; intros x; [reflexivity|].
  cbn [map fold_left].
  assert (E : np_maximum (Qnat x) (Qnat y) = Qnat (Nat.max x y)).
  { unfold np_maximum. destruct (Qltb (Qnat x) (Qnat y)) eqn:Hlt.
    - apply Qltb_lt in Hlt. unfold Qnat in Hlt. rewrite <- Zlt_Qlt in Hlt.
      f_equal. lia.
    - apply Qltb_false_ge in Hlt. unfold Qnat in Hlt. rewrite <- Zle_Qle in Hlt.
      f_equal. lia. }
  rewrite E. apply IH.
Qed.

Lemma qsum_of_sizes (xs : list nat) :
  qsum (map Qnat xs) == Qnat (list_sum xs).
Proof.
  induction xs as [|x xs IH]; [reflexivity|].
  change (list_sum (x :: xs)) with (x + list_sum xs)%nat.
  cbn [map]. rewrite qsum_cons, IH.
  unfold Qnat. rewrite Nat2Z.inj_add, inject_Z_plus. reflexivity.
Qed.

Lemma utils_index_of_sizes (sizes : list nat) (connectivity : Q) :
  sizes <> [] -> Forall (fun k => (1 <= k)%nat) sizes ->
  Utils.compute_fragmentation_index
    (map (fun s => (Qnat s, connectivity)) sizes)
  == mean sizes / Qnat (list_max sizes).
Proof.
  intros Hne Hpos. unfold Utils.compute_fragmentation_index.
  rewrite map_map. cbn [fst].
  destruct sizes as [|x xs]; [congruence|].
  cbn [map]. change (Qnat x :: map Qnat xs) with (map Qnat (x :: xs)).
  rewrite qmax_of_sizes, fold_left_max.
  assert (Hmax := list_max_pos Hne Hpos).
  change (Nat.max x (list_max xs)) with (list_max (x :: xs)).
  destruct (Qeq_bool (Qnat (list_max (x :: xs))) 0) eqn:E.
  - apply Qeq_bool_iff in E. exfalso.
    assert (Hp := @Qnat_pos (list_max (x :: xs)) ltac:(lia)).
    rewrite E in Hp. exact (Qlt_irrefl 0 Hp).
  - unfold mean. assert (Hs := qsum_of_sizes (x :: xs)). cbn [map] in Hs.
    rewrite Hs. cbn [List.length]. rewrite length_map. reflexivity.
Qed.

(** X16.  The two implementations of the fragmentation index agree: for a
    map on which the labelling finds at least one patch,
    [utils.compute_fragmentation_index] applied to the list of the patch
    sizes (with any connectivity value) gives the index that
    [spatial_analysis.compute_fragmentation_index] computes from the map. *)
Theorem fragmentation_indices_agree
    (label : ndarray bool -> ndarray nat * nat)
    (suitability_map : ndarray bool) (connectivity : Q) :
  labelling_ok suitability_map (label suitability_map) = true ->
  snd (label suitability_map) <> 0%nat ->
  exists r,
    compute_fragmentation_index label suitability_map = Ok r
    /\ Utils.compute_fragmentation_index
         (map (fun s => (Qnat s, connectivity))
              (patch_sizes_of (fst (label suitability_map))))
       == fragmentation_index r.
Proof.
  intros Hok Hn.
  destruct (fragmentation_summary_explicit label suitability_map Hok Hn)
    as (Hne & Hpos & _ & m & _ & Hrun).
  eexists. split; [exact Hrun|]. cbn [fragmentation_index].
  now apply utils_index_of_sizes.
Qed.

Lemma fragmentation_indices_agree_witness :
  exists r,
    compute_fragmentation_index label4 map_three_patches = Ok r
    /\ Utils.compute_fragmentation_index
         (map (fun s => (Qnat s, 0))
              (patch_sizes_of (fst (label4 map_three_patches))))
       == fragmentation_index r.
Proof.
  apply (@fragmentation_indices_agree label4 map_three_patches 0).
  - vm_compute. reflexivity.
  - vm_compute. discriminate.
Defined.

Lemma qmax_ge_acc (x : Q) (xs : list Q) : x <= qmax x xs.
Proof.
  unfold qmax. revert x. induction xs as [|y ys IH]; intros x; simpl.
  - apply Qle_refl.
  - apply Qle_trans with (np_maximum x y); [|apply IH].
    now destruct (np_maximum_spec x y) as (_ & H & _).
Qed.

Lemma qmax_all_zero (x : Q) (xs : list Q) :
  x == 0 -> Forall (fun y => y == 0) xs -> qmax x xs == 0.
Proof.
  unfold qmax. intros Hx Hxs. revert x Hx.
  induction Hxs as [|y ys Hy Hys IH]; intros x Hx; cbn [fold_left].
  - exact Hx.
  - apply IH. unfold np_maximum. now destruct (Qltb x y).
Qed.

Lemma qsum_nonneg (xs : list Q) :
  Forall (fun y => 0 <= y) xs -> 0 <= qsum xs.
Proof.
  induction 1 as [|y ys Hy Hys IH].
  - unfold qsum. simpl. apply Qle_refl.
  - rewrite qsum_cons. lra.
Qed.

(** X17.  [utils.compute_fragmentation_index] never divides by zero and
    never returns a negative value on non-negative areas: on an empty list
    it returns 0, on patches whose areas are all 0 it returns 0, and on any
    list of patches with non-negative areas its result is at least 0. *)
Theorem utils_fragmentation_index_nonneg (patches : list (Q * Q)) :
  (forall p, In p patches -> 0 <= fst p) ->
  0 <= Utils.compute_fragmentation_index patches
  /\ (patches = [] -> Utils.compute_fragmentation_index patches = 0)
  /\ ((forall p, In p patches -> fst p == 0) ->
      Utils.compute_fragmentation_index patches = 0).
Proof.
  intros Hpos. unfold Utils.compute_fragmentation_index.
  assert (Hareas : Forall (fun y => 0 <= y) (map fst patches)).
  { apply Forall_forall. intros y Hy. apply in_map_iff in Hy.
    destruct Hy as (p & <- & Hp). now apply Hpos. }
  assert (Hzero : (forall p, In p patches -> fst p == 0) ->
                  Forall (fun y => y == 0) (map fst patches)).
  { intros Hz. apply Forall_forall. intros y Hy. apply in_map_iff in Hy.
    destruct Hy as (p & <- & Hp). now apply Hz. }
  destruct (map fst patches) as [|a areas] eqn:E.
  - split; [apply Qle_refl|]. split; intros _; reflexivity.
  - assert (Hne : patches <> []) by (intros ->; discriminate).
    split; [|split; [intros ->; contradiction|]].
    + destruct (Qeq_bool (qmax a areas) 0) eqn:Ez; [apply Qle_refl|].
      assert (Hmax : 0 <= qmax a areas).
      { apply Qle_trans with a; [now inversion Hareas | apply qmax_ge_acc]. }
      assert (Hs := qsum_nonneg Hareas).
      apply Qle_shift_div_l.
      * apply Qeq_bool_neq in Ez. apply Qle_lteq in Hmax.
        destruct Hmax as [H|H]; [exact H | exfalso; apply Ez; now symmetry].
      * rewrite Qmult_0_l. apply Qle_shift_div_l.
        -- change 0 with (inject_Z 0). rewrite <- Zlt_Qlt. simpl. lia.
        -- rewrite Qmult_0_l. exact Hs.
    + intros Hz. specialize (Hzero Hz). inversion Hzero as [|? ? Ha Hrest]; subst.
      assert (Hm := qmax_all_zero Ha Hrest).
      apply Qeq_bool_iff in Hm. now rewrite Hm.
Qed.

Lemma utils_fragmentation_index_nonneg_witness :
  0 <= Utils.compute_fragmentation_index [(3, 1); (1, 0)]
  /\ ([(3, 1); (1, 0)] = [] ->
      Utils.compute_fragmentation_index [(3, 1); (1, 0)] = 0)
  /\ ((forall p, In p [(3, 1); (1, 0)] -> fst p == 0) ->
      Utils.compute_fragmentation_index [(3, 1); (1, 0)] = 0).
Proof.
  apply (@utils_fragmentation_index_nonneg [(3, 1); (1, 0)]).
  intros p [<- | [<- | []]]; vm_compute; congruence.
Defined.

End FragmentationSummaryProps.

(** ** Pipeline validation *)

Module PipelineProps.

Import WaterBalance Pipeline UtilsProps SuitabilityIndexProps SweepProps.

Lemma thresholds_negative (thresholds : list Q) :
  forallb (fun t => Qltb t 0) thresholds = true
  <-> Forall (fun t => t < 0) thresholds.
Proof.
  rewrite forallb_forall, Forall_forall.
  split; intros H t Ht; apply Qltb_lt; now apply H.
Qed.

Lemma validate_inputs_accepts (cfg : config) :
  validate_inputs cfg = Ok true <->
  (1 <= season_start_dekad cfg)%Z
  /\ (season_start_dekad cfg < season_end_dekad cfg)%Z
  /\ (season_end_dekad cfg <= 36)%Z
  /\ deficit_thresholds cfg <> []
  /\ Forall (fun t => t < 0) (deficit_thresholds cfg)
  /\ 0 <= slope_threshold_deg cfg /\ slope_threshold_deg cfg <= 90.
Proof.
  unfold validate_inputs. cbv zeta.
  assert (Hthr := thresholds_negative (deficit_thresholds cfg)).
  destruct (Z.leb_spec 1 (season_start_dekad cfg)),
    (Z.leb_spec (season_start_dekad cfg) 36),
    (Z.leb_spec 1 (season_end_dekad cfg)),
    (Z.leb_spec (season_end_dekad cfg) 36);
    cbn [andb negb]; try (split; [discriminate | lia]).
  destruct (Z.leb_spec (season_end_dekad cfg) (season_start_dekad cfg));
    [split; [discriminate | lia]|].
  destruct (forallb (fun t => Qltb t 0) (deficit_thresholds cfg)) eqn:Ef;
    cbn [negb].
  - assert (Hall := proj1 Hthr eq_refl).
    destruct (deficit_thresholds cfg) as [|t ts] eqn:Et.
    + split; [discriminate|]. intros (_ & _ & _ & Hne & _). congruence.
    + qcases; split; intros; try discriminate; try reflexivity;
        repeat split; try lia; try lra; try assumption; try discriminate;
        exfalso; intuition lra.
  - split; [discriminate|]. intros (_ & _ & _ & _ & Hall & _).
    apply Hthr in Hall. discriminate.
Qed.

(** X18.  [validate_inputs] returns True exactly when
    1 <= season_start < season_end <= 36, the list of deficit thresholds is
    not empty and all its values are negative, and the slope threshold lies
    in [0,90].  With a valid season and an empty list of thresholds it does
    not return: it raises [ValueError].  The bounding box plays no part:
    [validate_bounding_box] reports a bad box by returning False, which the
    caller does not read, so replacing the box by any other list leaves the
    outcome unchanged. *)
Theorem validate_inputs_ignores_bounding_box (cfg : config) :
  (validate_inputs cfg = Ok true <->
   (1 <= season_start_dekad cfg)%Z
   /\ (season_start_dekad cfg < season_end_dekad cfg)%Z
   /\ (season_end_dekad cfg <= 36)%Z
   /\ deficit_thresholds cfg <> []
   /\ Forall (fun t => t < 0) (deficit_thresholds cfg)
   /\ 0 <= slope_threshold_deg cfg /\ slope_threshold_deg cfg <= 90)
  /\ (validate_inputs cfg = Raise ValueError <->
      (1 <= season_start_dekad cfg)%Z
      /\ (season_start_dekad cfg < season_end_dekad cfg)%Z
      /\ (season_end_dekad cfg <= 36)%Z
      /\ deficit_thresholds cfg = [])
  /\ forall bbox,
       validate_inputs
         (mkConfig bbox (season_start_dekad cfg) (season_end_dekad cfg)
            (deficit_thresholds cfg) (slope_threshold_deg cfg))
       = validate_inputs cfg.
Proof.
  split; [apply validate_inputs_accepts|]. split; [|reflexivity].
  unfold validate_inputs. cbv zeta.
  destruct (Z.leb_spec 1 (season_start_dekad cfg)),
    (Z.leb_spec (season_start_dekad cfg) 36),
    (Z.leb_spec 1 (season_end_dekad cfg)),
    (Z.leb_spec (season_end_dekad cfg) 36);
    cbn [andb negb]; try (split; [discriminate | lia]).
  destruct (Z.leb_spec (season_end_dekad cfg) (season_start_dekad cfg));
    [split; [discriminate | lia]|].
  destruct (deficit_thresholds cfg) as [|t ts] eqn:Et.
  - cbn [forallb negb]. split; [intros _; repeat split; lia | reflexivity].
  - destruct (forallb (fun t0 => Qltb t0 0) (t :: ts)); cbn [negb].
    + destruct (Qltb (slope_threshold_deg cfg) 0
                || Qgtb (slope_threshold_deg cfg) 90);
        (split; [discriminate | intros (_ & _ & _ & E); discriminate E]).
    + split; [discriminate | intros (_ & _ & _ & E); discriminate E].
Qed.

(** X19.  For a configuration accepted by [validate_inputs] and a series
    of 36 dekads, the sweep of the pipeline returns one row per configured
    threshold.  When season_end - season_start > 3 every row counts
    season_end - season_start - 2 dekads (the indices season_start + 2 ..
    season_end - 1 of the series) and nothing is logged; when it is at most
    3, a season that the validation accepts, every row counts no dekad. *)
Theorem validated_season_window (cfg : config) (water_balance_mm : list Q) :
  validate_inputs cfg = Ok true ->
  List.length water_balance_mm = 36%nat ->
  exists out,
    analyze_threshold_sensitivity cfg water_balance_mm = Ok out
    /\ map threshold_mm (fst out) = deficit_thresholds cfg
    /\ ((season_end_dekad cfg - season_start_dekad cfg > 3)%Z ->
        Forall (fun row =>
                  num_total_dekads row
                  = (season_end_dekad cfg - season_start_dekad cfg - 2)%Z)
               (fst out)
        /\ snd out = [])
    /\ ((season_end_dekad cfg - season_start_dekad cfg <= 3)%Z ->
        Forall (fun row => num_total_dekads row = 0%Z) (fst out)).
Proof.
  intros Hval Hlen. apply validate_inputs_accepts in Hval.
  destruct Hval as (Hs1 & _ & He36 & Hne & _).
  unfold analyze_threshold_sensitivity. cbv zeta.
  set (out := WaterBalance.analyze_threshold_sensitivity water_balance_mm
                (season_start_dekad cfg) (season_end_dekad cfg)
                (deficit_thresholds cfg)).
  assert (Hrows : fst out
                  = map (sensitivity_row_of water_balance_mm
                           (season_start_dekad cfg) (season_end_dekad cfg))
                        (deficit_thresholds cfg)) by apply sweep_rows.
  assert (Hlog := sweep_log water_balance_mm (season_start_dekad cfg)
                    (season_end_dekad cfg) (deficit_thresholds cfg)).
  fold out in Hlog.
  exists out. split.
  { destruct (fst out) as [|r rs] eqn:Eo; [|reflexivity].
    destruct (deficit_thresholds cfg); [congruence | discriminate Hrows]. }
  rewrite Hrows, Hlog. split; [|split].
  - rewrite map_map. cbn [sensitivity_row_of threshold_mm]. apply map_id.
  - intros Hlong.
    assert (Hwin : forall t,
      num_total_of (compute_awd_suitability_index water_balance_mm
                      (season_start_dekad cfg) (season_end_dekad cfg)
                      default_exclude_first default_exclude_last t)
      = (season_end_dekad cfg - season_start_dekad cfg - 2)%Z
      /\ snd (compute_awd_suitability_index water_balance_mm
                (season_start_dekad cfg) (season_end_dekad cfg)
                default_exclude_first default_exclude_last t) = []).
    { intros t.
      destruct (@index_window_length water_balance_mm
                  (season_start_dekad cfg) (season_end_dekad cfg)
                  default_exclude_first default_exclude_last t)
        as (_ & Hl & Hn);
        try (unfold default_exclude_first, default_exclude_last; lia).
      split; [|exact Hl]. rewrite Hn; rewrite ?Hlen;
        unfold default_exclude_first, default_exclude_last; lia. }
    split.
    + apply Forall_forall. intros row Hrow. apply in_map_iff in Hrow.
      destruct Hrow as (t & <- & _). cbn [sensitivity_row_of num_total_dekads].
      apply Hwin.
    + clear Hrows Hlog Hne. induction (deficit_thresholds cfg) as [|t ts IH];
        [reflexivity|].
      cbn [flat_map]. rewrite (proj2 (Hwin t)), IH. reflexivity.
  - intros Hshort. apply Forall_forall. intros row Hrow.
    apply in_map_iff in Hrow. destruct Hrow as (t & <- & _).
    cbn [sensitivity_row_of num_total_dekads].
    unfold compute_awd_suitability_index,
      default_exclude_first, default_exclude_last.
    destruct (Z.geb_spec (season_start_dekad cfg + 2) (season_end_dekad cfg - 1));
      [reflexivity | lia].
Qed.

Lemma validated_season_window_witness :
  exists out,
    analyze_threshold_sensitivity config_10_28 year_of_dekads = Ok out
    /\ map threshold_mm (fst out) = deficit_thresholds config_10_28
    /\ ((season_end_dekad config_10_28 - season_start_dekad config_10_28 > 3)%Z ->
        Forall (fun row =>
                  num_total_dekads row
                  = (season_end_dekad config_10_28
                     - season_start_dekad config_10_28 - 2)%Z)
               (fst out)
        /\ snd out = [])
    /\ ((season_end_dekad config_10_28 - season_start_dekad config_10_28 <= 3)%Z ->
        Forall (fun row => num_total_dekads row = 0%Z) (fst out)).
Proof.
  apply (@validated_season_window config_10_28 year_of_dekads); reflexivity.
Defined.

End PipelineProps.

(** ** Further properties of the drainage classes *)

Module DrainageRuleProps.

Import BiophysicalConstraints BiophysicalProps UtilsProps.

Lemma class_cell_vs_first_match (clay sand : Q) :
  class_cell clay sand = first_match_class clay sand
  <-> ~ (35 <= clay /\ 30 <= sand /\ sand <= 60).
Proof.
  unfold class_cell, first_match_class, rule_well, rule_mod, rule_imperf,
    rule_poor.
  qcases; split; intros; try discriminate; try reflexivity;
    try (intros (? & ? & ?); lra); exfalso; intuition lra.
Qed.

Lemma class_cell_feasible (clay sand : Q) :
  (class_cell clay sand <=? 3)%Z = true <-> clay < 50.
Proof.
  unfold class_cell, rule_well, rule_mod, rule_imperf, rule_poor.
  qcases; cbn; split; intros; try discriminate; try reflexivity; try lra.
Qed.

(** X20.  On grids of one shape the order in which [classify_drainage]
    writes its four rules matters on exactly the cells with clay >= 35 and
    sand in [30,60]: everywhere else the class written equals the class of
    the first matching rule, and on those cells it differs from it. *)
Theorem overwrite_order_matters_exactly (clay_pct sand_pct : ndarray Q) :
  same_shape clay_pct sand_pct = true ->
  exists dc pr,
    classify_drainage clay_pct sand_pct = Ok (dc, pr)
    /\ forall i j, inside clay_pct i j ->
         (item dc i j
          = first_match_class (item clay_pct i j) (item sand_pct i j)
          <-> ~ (35 <= item clay_pct i j
                 /\ 30 <= item sand_pct i j /\ item sand_pct i j <= 60)).
Proof.
  intros H. destruct (classify_drainage_cells _ _ H)
    as (dc & pr & Hrun & _ & _ & Hcell).
  exists dc, pr. split; [exact Hrun|].
  intros i j Hin. destruct (Hcell i j Hin) as [-> _].
  apply class_cell_vs_first_match.
Qed.

Lemma overwrite_order_matters_exactly_witness :
  exists dc pr,
    classify_drainage clay_1x2 sand_1x2 = Ok (dc, pr)
    /\ forall i j, inside clay_1x2 i j ->
         (item dc i j
          = first_match_class (item clay_1x2 i j) (item sand_1x2 i j)
          <-> ~ (35 <= item clay_1x2 i j
                 /\ 30 <= item sand_1x2 i j /\ item sand_1x2 i j <= 60)).
Proof.
  apply (overwrite_order_matters_exactly clay_1x2 sand_1x2). reflexivity.
Defined.

(** X21.  Feeding the classes of [classify_drainage] to
    [compute_biophysical_suitability] with the default threshold 3, on grids
    of one shape, makes the drainage constraint a test on clay alone: a cell
    is feasible exactly when its slope is feasible, its clay content is
    below 50 and its water-balance class is at least 2.  A cell that matches
    no texture rule (class 0) passes the drainage test. *)
Theorem drainage_constraint_is_clay_below_50
    (clay_pct sand_pct : ndarray Q) (slope_feasible : ndarray bool)
    (water_balance_suitability : ndarray Z) :
  same_shape clay_pct sand_pct = true ->
  same_shape slope_feasible clay_pct = true ->
  same_shape slope_feasible water_balance_suitability = true ->
  exists dc pr composite,
    classify_drainage clay_pct sand_pct = Ok (dc, pr)
    /\ compute_biophysical_suitability slope_feasible dc
         water_balance_suitability 3 = Ok composite
    /\ forall i j, inside slope_feasible i j ->
         (item composite i j = true <->
          item slope_feasible i j = true
          /\ item clay_pct i j < 50
          /\ (item water_balance_suitability i j >= 2)%Z).
Proof.
  intros Hcs Hsc Hsw.
  destruct (classify_drainage_cells _ _ Hcs)
    as (dc & pr & Hrun & Hdc & _ & Hcell).
  exists dc, pr.
  apply same_shape_eq in Hsc. destruct Hsc as [Hr Hc].
  injection Hdc as Hdr Hdcl.
  assert (Hsd : same_shape slope_feasible
                  (amap (fun d => (d <=? 3)%Z) dc) = true).
  { apply same_shape_eq. cbn [amap nrows ncols]. split; congruence. }
  unfold compute_biophysical_suitability.
  destruct (zip_with_same_shape andb slope_feasible _ Hsd)
    as (sd & -> & Hr1 & Hc1 & Hsdc).
  cbn [bind].
  assert (Hw' : same_shape sd
                  (amap (fun w => (w >=? 2)%Z) water_balance_suitability) = true).
  { apply same_shape_eq in Hsw. apply same_shape_eq. cbn [amap nrows ncols].
    destruct Hsw. split; congruence. }
  destruct (zip_with_same_shape andb sd _ Hw') as (f & -> & Hr2 & Hc2 & Hf).
  cbn [bind]. exists f. split; [exact Hrun|]. split; [reflexivity|].
  intros i j Hin.
  assert (Hin' : inside sd i j) by (destruct Hin; split; congruence).
  assert (Hinc : inside clay_pct i j) by (destruct Hin; split; congruence).
  rewrite (Hf i j Hin'), (Hsdc i j Hin). cbn [amap item].
  destruct (Hcell i j Hinc) as [-> _].
  rewrite !andb_true_iff, class_cell_feasible, Z.geb_le. intuition lia.
Qed.

Lemma drainage_constraint_is_clay_below_50_witness :
  exists dc pr composite,
    classify_drainage clay_2x2 sand_2x2 = Ok (dc, pr)
    /\ compute_biophysical_suitability slope_2x2 dc wb_2x2 3 = Ok composite
    /\ forall i j, inside slope_2x2 i j ->
         (item composite i j = true <->
          item slope_2x2 i j = true
          /\ item clay_2x2 i j < 50
          /\ (item wb_2x2 i j >= 2)%Z).
Proof.
  apply (@drainage_constraint_is_clay_below_50 clay_2x2 sand_2x2 slope_2x2 wb_2x2);
    reflexivity.
Defined.

End DrainageRuleProps.

(** ** Shapes accepted by the drainage classification *)

Module DrainageShapeProps.

Import BiophysicalConstraints BiophysicalProps.

Lemma broadcast_dim_keeps (m n : nat) :
  broadcast_dim m n = Ok m <-> (n = m \/ n = 1)%nat.
Proof.
  unfold broadcast_dim.
  destruct (Nat.eqb_spec m n); [split; auto|].
  destruct (Nat.eqb_spec m 1); [split; [intros [= ->]; auto | lia]|].
  destruct (Nat.eqb_spec n 1); [split; auto|]. split; [discriminate | lia].
Qed.

Lemma bidx_idem (len i : nat) : bidx len (bidx len i) = bidx len i.
Proof. unfold bidx. destruct (Nat.eqb_spec len 1); reflexivity. Qed.

(** X22.  [classify_drainage] does not require the two grids to have one
    shape.  It returns exactly when, along each axis, the sand grid has the
    length of the clay grid or length 1; the sand values are then broadcast
    over the clay grid and the classes have the shape of the clay grid.  In
    every other case (a clay grid smaller than the sand grid, or lengths
    that differ with neither equal to 1) the call raises. *)
Theorem classify_drainage_broadcasts_sand (clay_pct sand_pct : ndarray Q) :
  let fits :=
    (nrows sand_pct = nrows clay_pct \/ nrows sand_pct = 1%nat)
    /\ (ncols sand_pct = ncols clay_pct \/ ncols sand_pct = 1%nat) in
  (fits ->
   exists dc pr,
     classify_drainage clay_pct sand_pct = Ok (dc, pr)
     /\ shape dc = shape clay_pct /\ shape pr = shape clay_pct
     /\ forall i j, inside clay_pct i j ->
          item dc i j = class_cell (item clay_pct i j) (bitem sand_pct i j)
          /\ item pr i j = rate_cell (item clay_pct i j) (bitem sand_pct i j))
  /\ (~ fits ->
      classify_drainage clay_pct sand_pct = Raise ValueError
      \/ classify_drainage clay_pct sand_pct = Raise IndexError).
Proof.
  destruct clay_pct as [r c f], sand_pct as [r' c' g].
  cbv zeta. cbn [nrows ncols item]. split.
  - intros [Hr Hc].
    apply broadcast_dim_keeps in Hr. apply broadcast_dim_keeps in Hc.
    unfold classify_drainage, zip_with, setitem_mask, same_shape, zeros_like, amap.
    cbn [nrows ncols item].
    repeat (first [rewrite Nat.eqb_refl | rewrite broadcast_dim_same
                  | rewrite Hr | rewrite Hc];
            cbn [andb bind nrows ncols item]).
    do 2 eexists. split; [reflexivity|].
    split; [reflexivity|]. split; [reflexivity|].
    intros i j [Hi Hj]. cbn [nrows ncols item] in Hi, Hj.
    unfold bitem. cbn [nrows ncols item].
    rewrite !(bidx_inside Hi), !(bidx_inside Hj), !bidx_idem.
    unfold class_cell, rate_cell, rule_well, rule_mod, rule_imperf, rule_poor.
    split; reflexivity.
  - intros Hnot.
    unfold classify_drainage, zip_with, setitem_mask, same_shape, zeros_like, amap.
    cbn [nrows ncols item].
    destruct (broadcast_dim r r') as [rb|e1] eqn:Er.
    + destruct (broadcast_dim c c') as [cb|e2] eqn:Ec.
      * cbn [bind nrows ncols item].
        destruct (Nat.eqb_spec r rb) as [<-|]; cbn [andb bind]; [|now right].
        destruct (Nat.eqb_spec c cb) as [<-|]; cbn [andb bind]; [|now right].
        exfalso. apply Hnot. split; now apply broadcast_dim_keeps.
      * cbn [bind]. left.
        now destruct (CompositeProps.broadcast_dim_raise _ _ Ec) as [-> _].
    + cbn [bind]. left.
      now destruct (CompositeProps.broadcast_dim_raise _ _ Er) as [-> _].
Qed.

End DrainageShapeProps.

(** ** Counting cells *)

Module CountingProps.

Import ClusterProps.

Lemma cells_inside {A} (a : ndarray A) (p : nat * nat) :
  In p (cells_of a) <-> inside a (fst p) (snd p).
Proof.
  destruct p as [i j]. unfold cells_of, inside.
  rewrite in_prod_iff, !in_seq. cbn [fst snd]. lia.
Qed.

Lemma length_filter_map {A} (f : A -> bool) (l : list A) :
  List.length (filter (fun b => b) (map f l)) = List.length (filter f l).
Proof.
  induction l as [|x l IH]; [reflexivity|]. simpl.
  destruct (f x); simpl; now rewrite IH.
Qed.

Lemma count_true_cells_filter (mask : ndarray bool) :
  count_true_cells mask
  = List.length (filter (fun p => item mask (fst p) (snd p)) (cells_of mask)).
Proof.
  unfold count_true_cells. rewrite ravel_list_prod. apply length_filter_map.
Qed.

Lemma length_filter_le {A} (f : A -> bool) (l : list A) :
  (List.length (filter f l) <= List.length l)%nat.
Proof.
  induction l as [|x l IH]; [reflexivity|]. simpl.
  destruct (f x); simpl; lia.
Qed.

Lemma length_filter_mono {A} (f g : A -> bool) (l : list A) :
  (forall x, In x l -> f x = true -> g x = true) ->
  (List.length (filter f l) <= List.length (filter g l))%nat.
Proof.
  induction l as [|x l IH]; intros H; [reflexivity|]. simpl.
  assert (IH' := IH (fun y Hy => H y (or_intror Hy))).
  destruct (f x) eqn:Ef.
  - rewrite (H x (or_introl eq_refl) Ef). simpl. lia.
  - destruct (g x); simpl; lia.
Qed.

Lemma count_true_cells_le_size (mask : ndarray bool) :
  (count_true_cells mask <= size mask)%nat.
Proof.
  rewrite count_true_cells_filter.
  apply Nat.le_trans with (List.length (cells_of mask)).
  - apply length_filter_le.
  - unfold cells_of, size. rewrite length_prod, !length_seq. lia.
Qed.

Lemma count_true_cells_mono (a b : ndarray bool) :
  same_shape a b = true ->
  (forall i j, inside a i j -> item a i j = true -> item b i j = true) ->
  (count_true_cells a <= count_true_cells b)%nat.
Proof.
  intros Hs H. apply same_shape_eq in Hs. destruct Hs as [Hr Hc].
  rewrite !count_true_cells_filter.
  assert (E : cells_of b = cells_of a)
    by (unfold cells_of; now rewrite Hr, Hc).
  rewrite E. apply length_filter_mono.
  intros p Hp. apply H. now apply cells_inside.
Qed.

Lemma percent_of_spec (count total : nat) :
  (0 < total)%nat -> (count <= total)%nat ->
  exists q, percent_of count total = Some q /\ 0 <= q /\ q <= 100.
Proof.
  intros Ht Hc. unfold percent_of.
  destruct (Nat.eqb_spec total 0); [lia|].
  eexists. split; [reflexivity|].
  assert (Hq : 0 < inject_Z (Z.of_nat total))
    by (change 0 with (inject_Z 0); rewrite <- Zlt_Qlt; lia).
  assert (Hc0 : 0 <= inject_Z (Z.of_nat count))
    by (change 0 with (inject_Z 0); rewrite <- Zle_Qle; lia).
  assert (Hct : inject_Z (Z.of_nat count) <= inject_Z (Z.of_nat total))
    by (rewrite <- Zle_Qle; lia).
  split.
  - apply Qle_shift_div_l; [exact Hq|]. lra.
  - apply Qle_shift_div_r; [exact Hq|]. lra.
Qed.

Lemma percent_of_mono (c1 c2 total : nat) (q1 q2 : Q) :
  (c1 <= c2)%nat ->
  percent_of c1 total = Some q1 -> percent_of c2 total = Some q2 -> q1 <= q2.
Proof.
  intros Hc. unfold percent_of.
  destruct (Nat.eqb_spec total 0); [discriminate|].
  intros [= <-] [= <-].
  assert (Hq : 0 < inject_Z (Z.of_nat total))
    by (change 0 with (inject_Z 0); rewrite <- Zlt_Qlt; lia).
  assert (Hct : inject_Z (Z.of_nat c1) <= inject_Z (Z.of_nat c2))
    by (rewrite <- Zle_Qle; lia).
  unfold Qdiv. apply Qmult_le_compat_r.
  - lra.
  - apply Qlt_le_weak. now apply Qinv_lt_0_compat.
Qed.

End CountingProps.

(** ** Constraint importance *)

Module ConstraintImportanceProps.

Import BiophysicalConstraints CountingProps.

(** X23.  On three masks of one non-empty shape
    [analyze_constraint_importance] returns its seven rows in the fixed
    order; every share lies in [0,100], and adding a constraint never
    increases the share: the share of all three is at most that of each
    pair, and the share of a pair at most that of each of its two
    constraints. *)
Theorem constraint_shares_are_nested
    (slope_feasible drainage_feasible water_balance_feasible : ndarray bool)
    (water_balance_suitability : ndarray Z) :
  same_shape slope_feasible drainage_feasible = true ->
  same_shape slope_feasible water_balance_feasible = true ->
  (0 < size slope_feasible)%nat ->
  exists s d w sd sw dw sdw,
    analyze_constraint_importance slope_feasible drainage_feasible
      water_balance_feasible water_balance_suitability
    = Ok [("Slope only"%string, Some s);
          ("Drainage only"%string, Some d);
          ("Water balance only"%string, Some w);
          ("Slope + Drainage"%string, Some sd);
          ("Slope + Water balance"%string, Some sw);
          ("Drainage + Water balance"%string, Some dw);
          ("All three"%string, Some sdw)]
    /\ 0 <= sdw
    /\ sdw <= sd /\ sdw <= sw /\ sdw <= dw
    /\ sd <= s /\ sd <= d /\ sw <= s /\ sw <= w /\ dw <= d /\ dw <= w
    /\ s <= 100 /\ d <= 100 /\ w <= 100.
Proof.
  intros Hsd Hsw Hsize. unfold analyze_constraint_importance.
  assert (Hsd' := Hsd). assert (Hsw' := Hsw).
  apply same_shape_eq in Hsd'. apply same_shape_eq in Hsw'.
  destruct Hsd' as [Hr1 Hc1], Hsw' as [Hr2 Hc2].
  assert (Hdw : same_shape drainage_feasible water_balance_feasible = true)
    by (apply same_shape_eq; split; congruence).
  destruct (zip_with_same_shape andb _ _ Hsd) as (a_sd & -> & Hr3 & Hc3 & Hcell_sd).
  destruct (zip_with_same_shape andb _ _ Hsw) as (a_sw & -> & Hr4 & Hc4 & Hcell_sw).
  destruct (zip_with_same_shape andb _ _ Hdw) as (a_dw & -> & Hr5 & Hc5 & Hcell_dw).
  cbn [bind].
  assert (Hsdw : same_shape a_sd water_balance_feasible = true)
    by (apply same_shape_eq; split; congruence).
  destruct (zip_with_same_shape andb _ _ Hsdw)
    as (a_sdw & -> & Hr6 & Hc6 & Hcell_sdw).
  cbn [bind].
  set (total := size slope_feasible) in *.
  assert (Hsz : forall m : ndarray bool,
            same_shape slope_feasible m = true ->
            (count_true_cells m <= total)%nat).
  { intros m Hm. apply same_shape_eq in Hm. destruct Hm as [Hr Hc].
    apply Nat.le_trans with (size m); [apply count_true_cells_le_size|].
    unfold total, size. rewrite Hr, Hc. lia. }
  assert (Hshape : forall m : ndarray bool,
            nrows m = nrows slope_feasible -> ncols m = ncols slope_feasible ->
            same_shape slope_feasible m = true)
    by (intros m Hr Hc; apply same_shape_eq; split; congruence).
  assert (Hin : forall (m : ndarray bool) i j,
            nrows m = nrows slope_feasible -> ncols m = ncols slope_feasible ->
            inside m i j -> inside slope_feasible i j)
    by (intros m i j Hr Hc [Hi Hj]; split; congruence).
  destruct (@percent_of_spec (count_true_cells slope_feasible) total Hsize
              (Hsz _ (Hshape _ eq_refl eq_refl))) as (s & Es & _ & Hs100).
  destruct (@percent_of_spec (count_true_cells drainage_feasible) total Hsize
              (Hsz _ Hsd)) as (d & Ed & _ & Hd100).
  destruct (@percent_of_spec (count_true_cells water_balance_feasible) total
              Hsize (Hsz _ Hsw)) as (w & Ew & _ & Hw100).
  destruct (@percent_of_spec (count_true_cells a_sd) total Hsize
              (Hsz _ (Hshape _ Hr3 Hc3))) as (sd & Esd & _ & _).
  destruct (@percent_of_spec (count_true_cells a_sw) total Hsize
              (Hsz _ (Hshape _ Hr4 Hc4))) as (sw & Esw & _ & _).
  assert (Hr5' : nrows a_dw = nrows slope_feasible) by congruence.
  assert (Hc5' : ncols a_dw = ncols slope_feasible) by congruence.
  destruct (@percent_of_spec (count_true_cells a_dw) total Hsize
              (Hsz _ (Hshape _ Hr5' Hc5'))) as (dw & Edw & _ & _).
  assert (Hr6' : nrows a_sdw = nrows slope_feasible) by congruence.
  assert (Hc6' : ncols a_sdw = ncols slope_feasible) by congruence.
  destruct (@percent_of_spec (count_true_cells a_sdw) total Hsize
              (Hsz _ (Hshape _ Hr6' Hc6'))) as (sdw & Esdw & Hsdw0 & _).
  exists s, d, w, sd, sw, dw, sdw.
  rewrite Es, Ed, Ew, Esd, Esw, Edw, Esdw.
  split; [reflexivity|]. split; [exact Hsdw0|].
  assert (Hmono : forall (a b : ndarray bool) qa qb,
            same_shape a b = true ->
            (forall i j, inside a i j -> item a i j = true -> item b i j = true) ->
            percent_of (count_true_cells a) total = Some qa ->
            percent_of (count_true_cells b) total = Some qb -> qa <= qb).
  { intros a b qa qb Hab Himp Ea Eb.
    exact (@percent_of_mono _ _ total qa qb
             (@count_true_cells_mono a b Hab Himp) Ea Eb). }
  assert (S : forall (a b : ndarray bool),
            nrows a = nrows slope_feasible -> ncols a = ncols slope_feasible ->
            nrows b = nrows slope_feasible -> ncols b = ncols slope_feasible ->
            same_shape a b = true)
    by (intros a b ? ? ? ?; apply same_shape_eq; split; congruence).
  repeat split; try assumption.
  - apply (Hmono a_sdw a_sd _ _ (S _ _ Hr6' Hc6' Hr3 Hc3)); try assumption.
    intros i j Hi. rewrite (Hcell_sdw i j); [|destruct Hi; split; congruence].
    intros H. now apply andb_true_iff in H.
  - apply (Hmono a_sdw a_sw _ _ (S _ _ Hr6' Hc6' Hr4 Hc4)); try assumption.
    intros i j Hi.
    assert (Hi1 : inside a_sd i j) by (destruct Hi; split; congruence).
    assert (Hi2 : inside slope_feasible i j) by (destruct Hi; split; congruence).
    rewrite (Hcell_sdw i j Hi1), (Hcell_sd i j Hi2), (Hcell_sw i j Hi2).
    rewrite !andb_true_iff. tauto.
  - apply (Hmono a_sdw a_dw _ _ (S _ _ Hr6' Hc6' Hr5' Hc5')); try assumption.
    intros i j Hi.
    assert (Hi1 : inside a_sd i j) by (destruct Hi; split; congruence).
    assert (Hi2 : inside slope_feasible i j) by (destruct Hi; split; congruence).
    assert (Hi3 : inside drainage_feasible i j) by (destruct Hi; split; congruence).
    rewrite (Hcell_sdw i j Hi1), (Hcell_sd i j Hi2), (Hcell_dw i j Hi3).
    rewrite !andb_true_iff. tauto.
  - apply (Hmono a_sd slope_feasible _ _ (S _ _ Hr3 Hc3 eq_refl eq_refl));
      try assumption.
    intros i j Hi.
    assert (Hi2 : inside slope_feasible i j) by (destruct Hi; split; congruence).
    rewrite (Hcell_sd i j Hi2), andb_true_iff. tauto.
  - apply (Hmono a_sd drainage_feasible _ _
             (S _ _ Hr3 Hc3 (eq_sym Hr1) (eq_sym Hc1))); try assumption.
    intros i j Hi.
    assert (Hi2 : inside slope_feasible i j) by (destruct Hi; split; congruence).
    rewrite (Hcell_sd i j Hi2), andb_true_iff. tauto.
  - apply (Hmono a_sw slope_feasible _ _ (S _ _ Hr4 Hc4 eq_refl eq_refl));
      try assumption.
    intros i j Hi.
    assert (Hi2 : inside slope_feasible i j) by (destruct Hi; split; congruence).
    rewrite (Hcell_sw i j Hi2), andb_true_iff. tauto.
  - apply (Hmono a_sw water_balance_feasible _ _
             (S _ _ Hr4 Hc4 (eq_sym Hr2) (eq_sym Hc2))); try assumption.
    intros i j Hi.
    assert (Hi2 : inside slope_feasible i j) by (destruct Hi; split; congruence).
    rewrite (Hcell_sw i j Hi2), andb_true_iff. tauto.
  - apply (Hmono a_dw drainage_feasible _ _
             (S _ _ Hr5' Hc5' (eq_sym Hr1) (eq_sym Hc1))); try assumption.
    intros i j Hi.
    assert (Hi3 : inside drainage_feasible i j) by (destruct Hi; split; congruence).
    rewrite (Hcell_dw i j Hi3), andb_true_iff. tauto.
  - apply (Hmono a_dw water_balance_feasible _ _
             (S _ _ Hr5' Hc5' (eq_sym Hr2) (eq_sym Hc2))); try assumption.
    intros i j Hi.
    assert (Hi3 : inside drainage_feasible i j) by (destruct Hi; split; congruence).
    rewrite (Hcell_dw i j Hi3), andb_true_iff. tauto.
Qed.

Lemma constraint_shares_are_nested_witness :
  exists s d w sd sw dw sdw,
    analyze_constraint_importance slope_2x2 mask_2x2_a mask_2x2_b wb_2x2
    = Ok [("Slope only"%string, Some s);
          ("Drainage only"%string, Some d);
          ("Water balance only"%string, Some w);
          ("Slope + Drainage"%string, Some sd);
          ("Slope + Water balance"%string, Some sw);
          ("Drainage + Water balance"%string, Some dw);
          ("All three"%string, Some sdw)]
    /\ 0 <= sdw
    /\ sdw <= sd /\ sdw <= sw /\ sdw <= dw
    /\ sd <= s /\ sd <= d /\ sw <= s /\ sw <= w /\ dw <= d /\ dw <= w
    /\ s <= 100 /\ d <= 100 /\ w <= 100.
Proof.
  apply (@constraint_shares_are_nested slope_2x2 mask_2x2_a mask_2x2_b wb_2x2);
    try reflexivity.
  vm_compute. lia.
Defined.

End ConstraintImportanceProps.

(** ** Rows of the cluster table *)

Module ClusterTableProps.

Import SpatialAnalysis ClusterProps CountingProps.

Lemma fold_left_min_spec (l : list nat) (a : nat) :
  In (fold_left Nat.min l a) (a :: l)
  /\ forall x, In x (a :: l) -> (fold_left Nat.min l a <= x)%nat.
Proof.
  revert a. induction l as [|y l IH]; intros a.
  - simpl. split; [auto|]. intros x [<- | []]. lia.
  - cbn [fold_left]. destruct (IH (Nat.min a y)) as [Hin Hle]. split.
    + destruct Hin as [Heq | Hin]; [|right; now right].
      rewrite <- Heq. destruct (Nat.min_spec a y) as [[_ ->] | [_ ->]];
        [now left | right; now left].
    + intros x Hx.
      assert (Hm := Hle (Nat.min a y) (or_introl eq_refl)).
      destruct Hx as [<- | [<- | Hx]]; [lia | lia |].
      apply Hle. now right.
Qed.

Lemma fold_left_max_spec (l : list nat) (a : nat) :
  In (fold_left Nat.max l a) (a :: l)
  /\ forall x, In x (a :: l) -> (x <= fold_left Nat.max l a)%nat.
Proof.
  revert a. induction l as [|y l IH]; intros a.
  - simpl. split; [auto|]. intros x [<- | []]. lia.
  - cbn [fold_left]. destruct (IH (Nat.max a y)) as [Hin Hle]. split.
    + destruct Hin as [Heq | Hin]; [|right; now right].
      rewrite <- Heq. destruct (Nat.max_spec a y) as [[_ ->] | [_ ->]];
        [right; now left | now left].
    + intros x Hx.
      assert (Hm := Hle (Nat.max a y) (or_introl eq_refl)).
      destruct Hx as [<- | [<- | Hx]]; [lia | lia |].
      apply Hle. now right.
Qed.

Lemma amin_spec (l : list nat) (m : nat) :
  amin l = Ok m -> In m l /\ forall x, In x l -> (m <= x)%nat.
Proof.
  destruct l as [|a l]; [discriminate|]. simpl. intros [= <-].
  apply fold_left_min_spec.
Qed.

Lemma amax_spec (l : list nat) (m : nat) :
  amax l = Ok m -> In m l /\ forall x, In x l -> (x <= m)%nat.
Proof.
  destruct l as [|a l]; [discriminate|]. simpl. intros [= <-].
  apply fold_left_max_spec.
Qed.

(** What one row of the table says about its cluster. *)
Lemma cluster_row_of_box
    (labeled_array : ndarray nat) (min_cluster_size : Z) (k : nat)
    (row : cluster_row) :
  cluster_row_of labeled_array min_cluster_size k = Ok (Some row) ->
  cluster_id row = k
  /\ size_pixels row = cluster_size labeled_array k
  /\ (min_cluster_size <= Z.of_nat (size_pixels row))%Z
  /\ (min_row row <= max_row row < nrows labeled_array)%nat
  /\ (min_col row <= max_col row < ncols labeled_array)%nat
  /\ extent_rows row = (max_row row - min_row row)%nat
  /\ extent_cols row = (max_col row - min_col row)%nat
  /\ forall i j, inside labeled_array i j -> item labeled_array i j = k ->
       (min_row row <= i <= max_row row)%nat
       /\ (min_col row <= j <= max_col row)%nat.
Proof.
  unfold cluster_row_of. fold (cluster_size labeled_array k).
  destruct (Z.ltb_spec (Z.of_nat (cluster_size labeled_array k))
              min_cluster_size) as [|Hsize]; [discriminate|].
  set (mask := amap (fun l => (l =? k)%nat) labeled_array).
  destruct (amin (fst (where_ mask))) as [a|] eqn:Ea; [|discriminate].
  destruct (amax (fst (where_ mask))) as [b|] eqn:Eb; [|discriminate].
  destruct (amin (snd (where_ mask))) as [c|] eqn:Ec; [|discriminate].
  destruct (amax (snd (where_ mask))) as [d|] eqn:Ed; [|discriminate].
  cbn [bind]. intros [= <-].
  cbn [cluster_id size_pixels min_row max_row min_col max_col
       extent_rows extent_cols].
  apply amin_spec in Ea. apply amax_spec in Eb.
  apply amin_spec in Ec. apply amax_spec in Ed.
  destruct Ea as [Ha1 Ha2], Eb as [Hb1 Hb2], Ec as [Hc1 Hc2], Ed as [Hd1 Hd2].
  unfold where_ in *. cbn [fst snd] in *.
  change (list_prod (seq 0 (nrows mask)) (seq 0 (ncols mask)))
    with (cells_of labeled_array) in *.
  set (cells := filter (fun p => item mask (fst p) (snd p))
                       (cells_of labeled_array)) in *.
  assert (Hcell : forall p, In p cells ->
            inside labeled_array (fst p) (snd p)).
  { intros p Hp. apply filter_In in Hp. now apply cells_inside. }
  assert (Hrow : forall x, In x (map fst cells) -> (x < nrows labeled_array)%nat).
  { intros x Hx. apply in_map_iff in Hx. destruct Hx as (p & <- & Hp).
    now destruct (Hcell p Hp). }
  assert (Hcol : forall x, In x (map snd cells) -> (x < ncols labeled_array)%nat).
  { intros x Hx. apply in_map_iff in Hx. destruct Hx as (p & <- & Hp).
    now destruct (Hcell p Hp). }
  assert (Hab := Ha2 b Hb1). assert (Hcd := Hc2 d Hd1).
  assert (Hb := Hrow b Hb1). assert (Hd := Hcol d Hd1).
  repeat split; try lia.
  - now apply Ha2, in_map_iff; exists (i, j); split;
      [|apply filter_In; split;
        [apply cells_inside | cbn [fst snd mask amap item]; now apply Nat.eqb_eq]].
  - now apply Hb2, in_map_iff; exists (i, j); split;
      [|apply filter_In; split;
        [apply cells_inside | cbn [fst snd mask amap item]; now apply Nat.eqb_eq]].
  - now apply Hc2, in_map_iff; exists (i, j); split;
      [|apply filter_In; split;
        [apply cells_inside | cbn [fst snd mask amap item]; now apply Nat.eqb_eq]].
  - now apply Hd2, in_map_iff; exists (i, j); split;
      [|apply filter_In; split;
        [apply cells_inside | cbn [fst snd mask amap item]; now apply Nat.eqb_eq]].
Qed.

Lemma collect_rows_sound
    (labeled_array : ndarray nat) (min_cluster_size : Z) (ids : list nat)
    (rows : list cluster_row) :
  collect_rows labeled_array min_cluster_size ids = Ok rows ->
  forall row, In row rows ->
    exists k, In k ids
              /\ cluster_row_of labeled_array min_cluster_size k = Ok (Some row).
Proof.
  revert rows. induction ids as [|k ids IH]; intros rows.
  - simpl. intros [= <-] row [].
  - cbn [collect_rows].
    destruct (cluster_row_of labeled_array min_cluster_size k) as [r|] eqn:Er;
      [|discriminate].
    cbn [bind].
    destruct (collect_rows labeled_array min_cluster_size ids) as [rest|] eqn:Ec;
      [|discriminate].
    cbn [bind]. intros [= <-] row Hrow.
    assert (Hrest : In row rest ->
              exists k0, In k0 (k :: ids)
                /\ cluster_row_of labeled_array min_cluster_size k0
                   = Ok (Some row)).
    { intros H. destruct (IH rest eq_refl row H) as (k0 & Hk0 & E).
      exists k0. split; [now right | exact E]. }
    destruct r as [r|]; [|now apply Hrest].
    destruct Hrow as [<- | Hrow]; [|now apply Hrest].
    exists k. split; [now left | exact Er].
Qed.

(** X24.  When the labelling meets its contract and some component reaches
    the minimum size, [identify_suitability_clusters] returns a table with
    one row for each component of size at least the minimum and for no
    other; each row carries the size of its component, and the rows come in
    descending order of size. *)
Theorem cluster_table_lists_kept_components
    (label : ndarray bool -> ndarray nat * nat)
    (suitability_map : ndarray bool) (min_cluster_size : Z) :
  labelling_ok suitability_map (label suitability_map) = true ->
  (exists k, In k (seq 1 (snd (label suitability_map)))
             /\ kept (fst (label suitability_map)) min_cluster_size k = true) ->
  exists table,
    identify_suitability_clusters label suitability_map min_cluster_size
    = Ok table
    /\ Permutation (map cluster_id table)
         (filter (kept (fst (label suitability_map)) min_cluster_size)
                 (seq 1 (snd (label suitability_map))))
    /\ NoDup (map cluster_id table)
    /\ Forall (fun row =>
                 size_pixels row
                 = cluster_size (fst (label suitability_map)) (cluster_id row)
                 /\ (min_cluster_size <= Z.of_nat (size_pixels row))%Z) table
    /\ Sorted desc table.
Proof.
  intros Hok Hk. now apply clusters_table_when_some_kept.
Qed.

Lemma cluster_table_lists_kept_components_witness :
  exists table,
    identify_suitability_clusters label4 map_three_patches 2 = Ok table
    /\ Permutation (map cluster_id table)
         (filter (kept (fst (label4 map_three_patches)) 2)
                 (seq 1 (snd (label4 map_three_patches))))
    /\ NoDup (map cluster_id table)
    /\ Forall (fun row =>
                 size_pixels row
                 = cluster_size (fst (label4 map_three_patches)) (cluster_id row)
                 /\ (2 <= Z.of_nat (size_pixels row))%Z) table
    /\ Sorted desc table.
Proof.
  apply (@cluster_table_lists_kept_components label4 map_three_patches 2).
  - vm_compute. reflexivity.
  - exists 1%nat. split; [left; reflexivity | vm_compute; reflexivity].
Defined.

(** X25.  In every row of a table returned by
    [identify_suitability_clusters] the bounding box is well formed and lies
    inside the grid, the extents are max - min (so a cluster confined to one
    row or column has extent 0), the size is at least the minimum, and every
    cell that carries the row's label lies inside the row's bounding box. *)
Theorem cluster_bounding_boxes
    (label : ndarray bool -> ndarray nat * nat)
    (suitability_map : ndarray bool) (min_cluster_size : Z)
    (table : list cluster_row) :
  identify_suitability_clusters label suitability_map min_cluster_size
  = Ok table ->
  let labeled_array := fst (label suitability_map) in
  table <> []
  /\ forall row, In row table ->
       (1 <= cluster_id row <= snd (label suitability_map))%nat
       /\ (min_cluster_size <= Z.of_nat (size_pixels row))%Z
       /\ (min_row row <= max_row row < nrows labeled_array)%nat
       /\ (min_col row <= max_col row < ncols labeled_array)%nat
       /\ extent_rows row = (max_row row - min_row row)%nat
       /\ extent_cols row = (max_col row - min_col row)%nat
       /\ forall i j, inside labeled_array i j ->
            item labeled_array i j = cluster_id row ->
            (min_row row <= i <= max_row row)%nat
            /\ (min_col row <= j <= max_col row)%nat.
Proof.
  unfold identify_suitability_clusters.
  destruct (label suitability_map) as [labeled_array n]. cbn [fst snd].
  destruct (collect_rows labeled_array min_cluster_size (seq 1 n))
    as [rows|] eqn:Ec; [|discriminate].
  cbn [bind]. unfold sort_values_size_pixels.
  destruct rows as [|r rows]; [discriminate|]. intros [= <-].
  split.
  - intros E.
    assert (Hp : Permutation [] (r :: rows))
      by (rewrite <- E; exact (sort_desc_perm (r :: rows))).
    apply Permutation_nil in Hp. discriminate.
  - intros row Hrow.
    assert (Hin : In row (r :: rows))
      by (eapply Permutation_in; [apply sort_desc_perm | exact Hrow]).
    destruct (collect_rows_sound _ _ _ Ec row Hin) as (k & Hk & Erow).
    apply in_seq in Hk.
    destruct (cluster_row_of_box _ _ _ Erow)
      as (Hid & _ & Hmin & Hr & Hc & Her & Hec & Hbox).
    rewrite Hid. repeat split; try lia; try assumption;
      intros; now apply (Hbox i j).
Qed.

Lemma cluster_bounding_boxes_witness :
  let labeled_array := fst (label4 map_three_patches) in
  table_three_patches <> []
  /\ forall row, In row table_three_patches ->
       (1 <= cluster_id row <= snd (label4 map_three_patches))%nat
       /\ (2 <= Z.of_nat (size_pixels row))%Z
       /\ (min_row row <= max_row row < nrows labeled_array)%nat
       /\ (min_col row <= max_col row < ncols labeled_array)%nat
       /\ extent_rows row = (max_row row - min_row row)%nat
       /\ extent_cols row = (max_col row - min_col row)%nat
       /\ forall i j, inside labeled_array i j ->
            item labeled_array i j = cluster_id row ->
            (min_row row <= i <= max_row row)%nat
            /\ (min_col row <= j <= max_col row)%nat.
Proof.
  apply (@cluster_bounding_boxes label4 map_three_patches 2 table_three_patches).
  vm_compute. reflexivity.
Defined.

End ClusterTableProps.

(** ** Patch statistics and comparison of two maps *)

Module PatchStatisticsProps.

Import SpatialAnalysis FragmentationProps FragmentationSummaryProps
       ClusterProps CountingProps.

Lemma count_occ_filter (xs : list nat) (k : nat) :
  count_occ Nat.eq_dec xs k = List.length (filter (fun x => (x =? k)%nat) xs).
Proof.
  induction xs as [|x xs IH]; [reflexivity|]. simpl.
  destruct (Nat.eq_dec x k) as [->|Hne].
  - rewrite Nat.eqb_refl. simpl. now rewrite IH.
  - apply Nat.eqb_neq in Hne. now rewrite Hne.
Qed.

Lemma filter_range_succ (xs : list nat) (n : nat) :
  List.length (filter (fun x => (1 <=? x)%nat && (x <=? S n)%nat) xs)
  = (List.length (filter (fun x => (1 <=? x)%nat && (x <=? n)%nat) xs)
     + List.length (filter (fun x => (x =? S n)%nat) xs))%nat.
Proof.
  induction xs as [|x xs IH]; [reflexivity|]. cbn [filter].
  destruct (Nat.leb_spec 1 x), (Nat.leb_spec x (S n)), (Nat.leb_spec x n),
    (Nat.eqb_spec x (S n)); cbn [andb List.length]; rewrite ?IH; lia.
Qed.

(** The patch sizes add up to the number of cells whose label lies in
    1 .. n. *)
Lemma sum_of_label_counts (xs : list nat) (n : nat) :
  list_sum (map (count_occ Nat.eq_dec xs) (seq 1 n))
  = List.length (filter (fun x => (1 <=? x)%nat && (x <=? n)%nat) xs).
Proof.
  induction n as [|n IH].
  - cbn [seq map list_sum fold_right].
    induction xs as [|x xs IHx]; [reflexivity|]. cbn [filter].
    destruct (Nat.leb_spec 1 x), (Nat.leb_spec x 0); cbn [andb]; try lia;
      exact IHx.
  - rewrite seq_S, map_app, list_sum_app, IH, filter_range_succ.
    change (list_sum (map (count_occ Nat.eq_dec xs) [(1 + n)%nat]))
      with (count_occ Nat.eq_dec xs (S n) + 0)%nat.
    rewrite count_occ_filter. lia.
Qed.

Lemma length_filter_ext_in {A} (f g : A -> bool) (l : list A) :
  (forall x, In x l -> f x = g x) ->
  List.length (filter f l) = List.length (filter g l).
Proof.
  intros H. now rewrite (filter_ext_in _ _ _ H).
Qed.

Lemma length_filter_of_map {A B} (f : A -> B) (g : B -> bool) (l : list A) :
  List.length (filter g (map f l)) = List.length (filter (fun x => g (f x)) l).
Proof.
  induction l as [|x l IH]; [reflexivity|]. simpl.
  destruct (g (f x)); simpl; now rewrite IH.
Qed.

(** Under the contract of the labelling the labelled cells are the
    suitable cells. *)
Lemma labelled_cells_are_suitable
    (suitability_map : ndarray bool) (labeled_array : ndarray nat) (n : nat) :
  labelling_ok suitability_map (labeled_array, n) = true ->
  List.length (filter (fun x => (1 <=? x)%nat && (x <=? n)%nat)
                 (ravel labeled_array))
  = asum suitability_map.
Proof.
  unfold labelling_ok. rewrite !andb_true_iff.
  intros [[[Hshape Hbg] Hle] _].
  rewrite forallb_forall in Hbg, Hle.
  apply same_shape_eq in Hshape. destruct Hshape as [Hr Hc].
  rewrite (@length_filter_ext_in _ _ (fun x => negb (x =? 0)%nat)).
  - unfold asum. rewrite !ravel_list_prod, !length_filter_of_map.
    rewrite Hr, Hc. apply length_filter_ext_in. intros p Hp.
    specialize (Hbg p Hp). apply Bool.eqb_prop in Hbg. now rewrite Hbg.
  - intros x Hx. specialize (Hle x Hx). apply Nat.leb_le in Hle.
    destruct (Nat.leb_spec 1 x), (Nat.leb_spec x n), (Nat.eqb_spec x 0);
      cbn [andb negb]; try reflexivity; lia.
Qed.

Lemma list_max_le_sum (l : list nat) : (list_max l <= list_sum l)%nat.
Proof. induction l as [|x l IH]; simpl; lia. Qed.

(** X26.  When the labelling meets its contract,
    [compute_fragmentation_index] returns a summary whose
    total_suitable_cells is the number of true cells of the map and whose
    n_patches is the count of the labelling.  Without any patch every field
    is 0; with patches 1 <= min <= max <= total and n_patches <= total. *)
Theorem fragmentation_summary_totals
    (label : ndarray bool -> ndarray nat * nat)
    (suitability_map : ndarray bool) :
  labelling_ok suitability_map (label suitability_map) = true ->
  exists r,
    compute_fragmentation_index label suitability_map = Ok r
    /\ n_patches r = snd (label suitability_map)
    /\ total_suitable_cells r = asum suitability_map
    /\ (n_patches r = 0%nat -> r = mkFrag 0 0 0 0 0 0)
    /\ (n_patches r <> 0%nat ->
        (1 <= min_patch_size r <= max_patch_size r)%nat
        /\ (max_patch_size r <= total_suitable_cells r)%nat
        /\ (n_patches r <= total_suitable_cells r)%nat).
Proof.
  intros Hok.
  destruct (Nat.eq_dec (snd (label suitability_map)) 0) as [Hz|Hn].
  - unfold compute_fragmentation_index.
    destruct (label suitability_map) as [labeled_array n] eqn:El.
    cbn [snd] in Hz. subst n. cbn [Nat.eqb].
    eexists. split; [reflexivity|]. cbn [n_patches total_suitable_cells snd].
    split; [reflexivity|]. split; [|split; [reflexivity | congruence]].
    rewrite <- (@labelled_cells_are_suitable _ _ _ Hok).
    rewrite <- sum_of_label_counts. reflexivity.
  - destruct (fragmentation_summary_explicit label suitability_map Hok Hn)
      as (Hne & Hpos & Hlen & m & Hm & Hrun).
    eexists. split; [exact Hrun|].
    cbn [n_patches total_suitable_cells min_patch_size max_patch_size
         mean_patch_size].
    destruct (label suitability_map) as [labeled_array n] eqn:El.
    cbn [fst snd] in *.
    set (sizes := patch_sizes_of labeled_array) in *.
    split; [reflexivity|]. split; [|split; [congruence|]].
    + destruct (patch_sizes_of_labelling _ _ Hok Hn) as (Hsizes & _ & _).
      fold sizes in Hsizes. rewrite Hsizes, sum_of_label_counts.
      now apply labelled_cells_are_suitable.
    + intros _.
      destruct (ClusterTableProps.amin_spec _ Hm) as [Hmin_in Hmin_le].
      assert (Hm1 : (1 <= m)%nat)
        by (rewrite Forall_forall in Hpos; now apply Hpos).
      assert (Hmmax : (m <= list_max sizes)%nat) by now apply in_le_list_max.
      assert (Hsum := list_sum_ge_length Hpos).
      split; [lia|]. split; [apply list_max_le_sum|]. lia.
Qed.

Lemma fragmentation_summary_totals_witness :
  exists r,
    compute_fragmentation_index label4 map_three_patches = Ok r
    /\ n_patches r = snd (label4 map_three_patches)
    /\ total_suitable_cells r = asum map_three_patches
    /\ (n_patches r = 0%nat -> r = mkFrag 0 0 0 0 0 0)
    /\ (n_patches r <> 0%nat ->
        (1 <= min_patch_size r <= max_patch_size r)%nat
        /\ (max_patch_size r <= total_suitable_cells r)%nat
        /\ (n_patches r <= total_suitable_cells r)%nat).
Proof.
  apply (@fragmentation_summary_totals label4 map_three_patches).
  vm_compute. reflexivity.
Defined.

(** X27.  A map on which the labelling finds a single patch has mean, max
    and min patch size all equal to the number of its true cells, and
    fragmentation index 1. *)
Theorem single_patch_summary
    (label : ndarray bool -> ndarray nat * nat)
    (suitability_map : ndarray bool) :
  labelling_ok suitability_map (label suitability_map) = true ->
  snd (label suitability_map) = 1%nat ->
  exists r,
    compute_fragmentation_index label suitability_map = Ok r
    /\ n_patches r = 1%nat
    /\ max_patch_size r = asum suitability_map
    /\ min_patch_size r = asum suitability_map
    /\ total_suitable_cells r = asum suitability_map
    /\ mean_patch_size r == Qnat (asum suitability_map)
    /\ fragmentation_index r == 1.
Proof.
  intros Hok H1.
  assert (Hn : snd (label suitability_map) <> 0%nat) by lia.
  destruct (fragmentation_summary_explicit label suitability_map Hok Hn)
    as (Hne & Hpos & Hlen & m & Hm & Hrun).
  eexists. split; [exact Hrun|].
  cbn [n_patches total_suitable_cells min_patch_size max_patch_size
       mean_patch_size fragmentation_index].
  destruct (label suitability_map) as [labeled_array n] eqn:El.
  cbn [fst snd] in *. subst n.
  assert (Htotal : list_sum (patch_sizes_of labeled_array)
                   = asum suitability_map).
  { destruct (patch_sizes_of_labelling _ _ Hok Hn) as (Hsizes & _ & _).
    rewrite Hsizes, sum_of_label_counts.
    now apply labelled_cells_are_suitable. }
  destruct (patch_sizes_of labeled_array) as [|s [|s' rest]] eqn:Es;
    try discriminate.
  cbn [list_sum fold_right] in Htotal.
  assert (Hs : s = asum suitability_map) by lia.
  simpl in Hm. injection Hm as <-.
  assert (Hs1 : (1 <= s)%nat) by now inversion Hpos.
  split; [reflexivity|]. split; [simpl; lia|]. split; [exact Hs|].
  split; [exact Htotal|].
  assert (Hmean : mean [s] == Qnat s).
  { unfold mean. simpl List.length. simpl list_sum.
    rewrite Nat.add_0_r. change (Qnat 1) with 1. field. }
  split; [now rewrite Hmean, Hs|].
  rewrite Hmean. simpl list_max. rewrite Nat.max_0_r.
  assert (Hq := @Qnat_pos s ltac:(lia)).
  field. intros E. rewrite E in Hq. exact (Qlt_irrefl 0 Hq).
Qed.

Lemma single_patch_summary_witness :
  exists r,
    compute_fragmentation_index label4 map_one_patch = Ok r
    /\ n_patches r = 1%nat
    /\ max_patch_size r = asum map_one_patch
    /\ min_patch_size r = asum map_one_patch
    /\ total_suitable_cells r = asum map_one_patch
    /\ mean_patch_size r == Qnat (asum map_one_patch)
    /\ fragmentation_index r == 1.
Proof.
  apply (@single_patch_summary label4 map_one_patch); vm_compute; reflexivity.
Defined.

End PatchStatisticsProps.

(** ** Comparison of two maps and regional statistics *)

Module ComparisonProps.

Import SpatialAnalysis FragmentationProps FragmentationSummaryProps
       CountingProps.

(** Under the contract of the labelling [compute_fragmentation_index]
    returns, and its index is positive exactly when there is a patch. *)
Lemma fragmentation_runs
    (label : ndarray bool -> ndarray nat * nat)
    (suitability_map : ndarray bool) :
  labelling_ok suitability_map (label suitability_map) = true ->
  exists r,
    compute_fragmentation_index label suitability_map = Ok r
    /\ n_patches r = snd (label suitability_map)
    /\ (snd (label suitability_map) = 0%nat -> fragmentation_index r = 0)
    /\ (snd (label suitability_map) <> 0%nat ->
        0 < fragmentation_index r /\ fragmentation_index r <= 1).
Proof.
  intros Hok.
  destruct (Nat.eq_dec (snd (label suitability_map)) 0) as [Hz|Hn].
  - unfold compute_fragmentation_index.
    destruct (label suitability_map) as [labeled_array n].
    cbn [snd] in *. subst n. cbn [Nat.eqb].
    eexists. split; [reflexivity|]. cbn [n_patches fragmentation_index].
    split; [reflexivity|]. split; [reflexivity | congruence].
  - destruct (fragmentation_summary_explicit label suitability_map Hok Hn)
      as (Hne & Hpos & _ & m & _ & Hrun).
    eexists. split; [exact Hrun|]. cbn [n_patches fragmentation_index].
    split; [reflexivity|]. split; [congruence|]. intros _.
    now apply mean_over_max_range.
Qed.

(** X28.  When the labelling meets its contract on both maps,
    [compare_fragmentation] returns: both divisions are guarded.  If the
    first map has no patch both ratios are 0; otherwise the fragmentation
    ratio is the second index divided by the first, the patch ratio is the
    quotient of the patch counts, and both are non-negative. *)
Theorem compare_fragmentation_is_guarded
    (label : ndarray bool -> ndarray nat * nat)
    (vietnam_map japan_map : ndarray bool) :
  labelling_ok vietnam_map (label vietnam_map) = true ->
  labelling_ok japan_map (label japan_map) = true ->
  exists c,
    compare_fragmentation label vietnam_map japan_map = Ok c
    /\ vietnam_n_patches c = snd (label vietnam_map)
    /\ japan_n_patches c = snd (label japan_map)
    /\ (snd (label vietnam_map) = 0%nat ->
        fragmentation_ratio c = 0 /\ patch_ratio c = 0)
    /\ (snd (label vietnam_map) <> 0%nat ->
        fragmentation_ratio c
        = japan_fragmentation_index c / vietnam_fragmentation_index c
        /\ patch_ratio c
           = Qnat (japan_n_patches c) / Qnat (vietnam_n_patches c)
        /\ 0 <= fragmentation_ratio c /\ 0 <= patch_ratio c).
Proof.
  intros Hv Hj. unfold compare_fragmentation.
  destruct (fragmentation_runs label vietnam_map Hv)
    as (rv & -> & Hnv & Hv0 & Hv1).
  destruct (fragmentation_runs label japan_map Hj)
    as (rj & -> & Hnj & Hj0 & Hj1).
  cbn [bind]. eexists. split; [reflexivity|].
  cbn [vietnam_n_patches japan_n_patches fragmentation_ratio patch_ratio
       vietnam_fragmentation_index japan_fragmentation_index].
  split; [exact Hnv|]. split; [exact Hnj|]. split.
  - intros Hz. rewrite (Hv0 Hz), Hnv, Hz. split; reflexivity.
  - intros Hn. destruct (Hv1 Hn) as [Hpos _].
    assert (E : Qltb 0 (fragmentation_index rv) = true) by now apply Qltb_lt.
    rewrite E.
    destruct (Nat.ltb_spec 0 (n_patches rv)) as [Hnp|]; [|lia].
    split; [reflexivity|]. split; [reflexivity|].
    assert (Hfj : 0 <= fragmentation_index rj).
    { destruct (Nat.eq_dec (snd (label japan_map)) 0) as [Hz|Hnz].
      - rewrite (Hj0 Hz). apply Qle_refl.
      - apply Qlt_le_weak. now destruct (Hj1 Hnz). }
    split.
    + apply Qle_shift_div_l; [exact Hpos|]. now rewrite Qmult_0_l.
    + apply Qle_shift_div_l; [now apply Qnat_pos|]. rewrite Qmult_0_l.
      apply (Qnat_le (m := 0)). lia.
Qed.

Lemma compare_fragmentation_is_guarded_witness :
  exists c,
    compare_fragmentation label4 map_two_cells map_three_patches = Ok c
    /\ vietnam_n_patches c = snd (label4 map_two_cells)
    /\ japan_n_patches c = snd (label4 map_three_patches)
    /\ (snd (label4 map_two_cells) = 0%nat ->
        fragmentation_ratio c = 0 /\ patch_ratio c = 0)
    /\ (snd (label4 map_two_cells) <> 0%nat ->
        fragmentation_ratio c
        = japan_fragmentation_index c / vietnam_fragmentation_index c
        /\ patch_ratio c
           = Qnat (japan_n_patches c) / Qnat (vietnam_n_patches c)
        /\ 0 <= fragmentation_ratio c /\ 0 <= patch_ratio c).
Proof.
  apply (@compare_fragmentation_is_guarded label4 map_two_cells map_three_patches);
    vm_compute; reflexivity.
Defined.

(** X29.  Comparing a map that has at least one patch with itself gives
    the fragmentation ratio 1 and the patch ratio 1. *)
Theorem compare_map_with_itself
    (label : ndarray bool -> ndarray nat * nat)
    (suitability_map : ndarray bool) :
  labelling_ok suitability_map (label suitability_map) = true ->
  snd (label suitability_map) <> 0%nat ->
  exists c,
    compare_fragmentation label suitability_map suitability_map = Ok c
    /\ fragmentation_ratio c == 1 /\ patch_ratio c == 1.
Proof.
  intros Hok Hn. unfold compare_fragmentation.
  destruct (fragmentation_runs label suitability_map Hok)
    as (r & -> & Hnr & _ & H1).
  cbn [bind]. eexists. split; [reflexivity|].
  cbn [fragmentation_ratio patch_ratio].
  destruct (H1 Hn) as [Hpos _].
  assert (E : Qltb 0 (fragmentation_index r) = true) by now apply Qltb_lt.
  rewrite E.
  destruct (Nat.ltb_spec 0 (n_patches r)) as [Hnp|]; [|lia].
  assert (Hq := Qnat_pos Hnp).
  split; field; intros Hz.
  - rewrite Hz in Hpos. exact (Qlt_irrefl 0 Hpos).
  - rewrite Hz in Hq. exact (Qlt_irrefl 0 Hq).
Qed.

Lemma compare_map_with_itself_witness :
  exists c,
    compare_fragmentation label4 map_three_patches map_three_patches = Ok c
    /\ fragmentation_ratio c == 1 /\ patch_ratio c == 1.
Proof.
  apply (@compare_map_with_itself label4 map_three_patches).
  - vm_compute. reflexivity.
  - vm_compute. discriminate.
Defined.

Lemma any_count_pos (mask : ndarray bool) :
  any mask = true -> (1 <= count_true_cells mask)%nat.
Proof.
  unfold any, count_true_cells. intros H. apply existsb_exists in H.
  destruct H as (b & Hb & ->).
  assert (Hin : In true (filter (fun b => b) (ravel mask)))
    by (apply filter_In; auto).
  destruct (filter (fun b => b) (ravel mask)); [destruct Hin | simpl; lia].
Qed.

Lemma getitem_mask_same_shape {A} (a : ndarray A) (mask : ndarray bool) :
  same_shape a mask = true ->
  exists selected,
    getitem_mask a mask = Ok selected
    /\ List.length selected = count_true_cells mask.
Proof.
  intros H. unfold getitem_mask. rewrite H. eexists. split; [reflexivity|].
  apply same_shape_eq in H. destruct H as [Hr Hc].
  rewrite length_map, count_true_cells_filter. unfold cells_of.
  now rewrite Hr, Hc.
Qed.

(** X30.  On a suitability map and a region map of one shape
    [compute_regional_statistics] returns one row for each region of the
    dictionary that occurs in the region map, in the order of the
    dictionary, and skips the others.  In every row total_pixels is the
    number of cells of the region, at least 1 and at most the size of the
    map, suitable_pixels is at most total_pixels, and the percentage
    100 * suitable / total lies in [0,100]. *)
Theorem regional_statistics_rows
    (suitability_map region_map : ndarray Z) (regions : list (Z * string)) :
  same_shape suitability_map region_map = true ->
  exists rows,
    compute_regional_statistics suitability_map region_map regions = Ok rows
    /\ map (fun row => (region_id row, region_name row)) rows
       = filter (fun region => region_present region_map (fst region)) regions
    /\ Forall (fun row =>
         total_pixels row
         = count_true_cells
             (amap (fun r => (r =? region_id row)%Z) region_map)
         /\ (1 <= total_pixels row <= size region_map)%nat
         /\ (suitable_pixels row <= total_pixels row)%nat
         /\ suitability_pct row
            == 100 * Qnat (suitable_pixels row) / Qnat (total_pixels row)
         /\ 0 <= suitability_pct row /\ suitability_pct row <= 100) rows.
Proof.
  intros Hshape. induction regions as [|[id name] regions IH].
  - exists []. repeat split; constructor.
  - destruct IH as (rest & Hrest & Hids & Hall).
    cbn [compute_regional_statistics filter fst].
    unfold region_present at 1.
    set (mask := amap (fun r => (r =? id)%Z) region_map) in *.
    destruct (any mask) eqn:Ea; cbn [negb].
    + assert (Hm : same_shape suitability_map mask = true) by exact Hshape.
      destruct (getitem_mask_same_shape suitability_map mask Hm)
        as (selected & -> & Hlen).
      cbn [bind]. rewrite Hrest. cbn [bind].
      eexists. split; [reflexivity|]. split.
      * cbn [map region_id region_name]. now rewrite Hids.
      * constructor; [|exact Hall].
        cbn [total_pixels suitable_pixels suitability_pct region_id].
        fold mask.
        assert (Hpos := any_count_pos mask Ea).
        assert (Hsz := count_true_cells_le_size mask).
        assert (Hsuit : (List.length (filter (fun v => (v >? 0)%Z) selected)
                         <= count_true_cells mask)%nat)
          by (rewrite <- Hlen; apply length_filter_le).
        destruct (Nat.ltb_spec 0 (count_true_cells mask)) as [_|]; [|lia].
        assert (Hq := @Qnat_pos (count_true_cells mask) ltac:(lia)).
        assert (Hs0 : 0 <= Qnat (List.length (filter (fun v => (v >? 0)%Z) selected)))
          by (apply (Qnat_le (m := 0)); lia).
        assert (Hst := Qnat_le Hsuit).
        split; [reflexivity|]. split; [exact (conj Hpos Hsz)|].
        split; [exact Hsuit|]. split; [reflexivity|]. split.
        -- apply Qle_shift_div_l; [exact Hq|]. lra.
        -- apply Qle_shift_div_r; [exact Hq|]. lra.
    + exists rest. split; [exact Hrest|]. split; [exact Hids | exact Hall].
Qed.

Lemma regional_statistics_rows_witness :
  exists rows,
    compute_regional_statistics suitability_2x2 regions_2x2 region_names
    = Ok rows
    /\ map (fun row => (region_id row, region_name row)) rows
       = filter (fun region => region_present regions_2x2 (fst region))
                region_names
    /\ Forall (fun row =>
         total_pixels row
         = count_true_cells
             (amap (fun r => (r =? region_id row)%Z) regions_2x2)
         /\ (1 <= total_pixels row <= size regions_2x2)%nat
         /\ (suitable_pixels row <= total_pixels row)%nat
         /\ suitability_pct row
            == 100 * Qnat (suitable_pixels row) / Qnat (total_pixels row)
         /\ 0 <= suitability_pct row /\ suitability_pct row <= 100) rows.
Proof.
  apply (@regional_statistics_rows suitability_2x2 regions_2x2 region_names).
  reflexivity.
Defined.

End ComparisonProps.
